(** * envalid: the validation engine of [src/index.js]

    A shallow embedding of the functions of [src/index.js] and the
    properties of the engine that the specification states about them.

    Conventions of the embedding.
    - JavaScript values are the inductive [value]; numbers are the
      integral ones (so that [===] and [Array.prototype.includes] are
      both Leibniz equality), and the only symbol is [testOnlySymbol].
    - Plain objects used as dictionaries (the environment, the output, the
      error map) are [gmap string _]; an absent key reads as [undefined].
      The spec map is an association list in the order of [Object.keys];
      property names are assumed not to be array indices nor [__proto__].
    - The module is not strict-mode code: an assignment or a [delete]
      that an object does not allow is dropped without an error.
    - A JavaScript function is a Rocq function returning a [result]: a
      value, or a thrown [error].  Callbacks handed in by the caller
      ([_parse], [requiredWhen], [reporter], [transformer]) are assumed
      to have no effect on the objects they receive.
    - Every call of a validation attempt, of a [requiredWhen] predicate
      and of the reporter is recorded in a ghost [trace], so that
      "is invoked", "exactly once" and "before" can be stated. *)

From Stdlib Require Import ZArith String Ascii List.
From stdpp Require Import base decidable option list gmap strings fin_maps.
Import ListNotations.
Local Open Scope string_scope.

(** ** Values and errors *)

Inductive value : Type :=
| VUndefined
| VNull
| VBool (b : bool)
| VNum (n : Z)
| VStr (s : string)
| VSymbol                     (* the one symbol of the module, [testOnlySymbol] *)
| VObj (id : positive).       (* any other object, compared by identity *)

#[global] Instance value_eq_dec : EqDecision value.
Proof. solve_decision. Defined.

(** [const testOnlySymbol = Symbol('envalid - test only')] *)
Definition testOnlySymbol : value := VSymbol.

(** ToBoolean. *)
Definition truthy (v : value) : bool :=
  match v with
  | VUndefined | VNull => false
  | VBool b => b
  | VNum n => negb (n =? 0)%Z
  | VStr s => negb (String.eqb s "")
  | VSymbol | VObj _ => true
  end.

(** [v == null] *)
Definition looseNull (v : value) : bool :=
  match v with
  | VUndefined | VNull => true
  | _ => false
  end.

(** The text of an error.  The messages that interpolate a value or an
    array are kept symbolic: rendering them to text is not modelled. *)
Inductive message : Type :=
| Msg (text : string)
| MsgInvalidSpec (name : string)
    (* `Invalid spec for "${name}"` *)
| MsgChoicesNotArray (name : string)
    (* `"choices" must be an array (in spec for "${name}")` *)
| MsgNotInChoices (v : value) (choices : list value)
    (* `Value "${value}" not in choices [${spec.choices}]` *)
| MsgInvalidValue (name : string)
    (* `Invalid value for env var "${name}"` *)
| MsgNotAnObject
    (* reading a property of [undefined] *).

Inductive error : Type :=
| EnvError (msg : message)
| EnvMissingError (msg : message)
| TypeError (msg : message)
| OtherError (msg : message).

#[global] Instance message_eq_dec : EqDecision message.
Proof. solve_decision. Defined.

#[global] Instance error_eq_dec : EqDecision error.
Proof. solve_decision. Defined.

Inductive result (A : Type) : Type :=
| Ok (a : A)
| Throw (e : error).

Arguments Ok {A} a.
Arguments Throw {A} e.

(** Sequencing of calls that may throw: [x ← r; k] runs [k] when [r]
    returned and propagates what [r] threw otherwise. *)
#[global] Instance result_bind : MBind result :=
  fun A B (k : A -> result B) (r : result A) =>
    match r with
    | Ok a => k a
    | Throw e => Throw e
    end.

(** ** Specs *)

(** The [choices] property of a spec: absent, an array, or anything else. *)
Inductive choices_field : Type :=
| ChoicesAbsent
| ChoicesArray (items : list value)
| ChoicesOther (v : value).

(** A spec object.  [_parse] and [requiredWhen] are [None] when the
    property is absent or is not a function ([typeof ... !== 'function']);
    [default] and [devDefault] are [None] when the spec has no own property
    of that name ([hasOwnProperty]), and [Some VUndefined] when the
    property is there and holds [undefined]. *)
Record Spec : Type := {
  _parse : option (value -> result value);
  choices : choices_field;
  default : option value;
  devDefault : option value;
  desc : option string;
  example : option string;
  docs : option string;
  requiredWhen : option (gmap string value -> result value)
}.

(** Reading a property that may be absent: absent reads as [undefined]. *)
Definition prop (o : option value) : value :=
  match o with
  | Some v => v
  | None => VUndefined
  end.

(** [env[key]] *)
Definition get (env : gmap string value) (key : string) : value :=
  prop (env !! key).

(** [if (spec.choices)] *)
Definition choicesTruthy (c : choices_field) : bool :=
  match c with
  | ChoicesAbsent => false
  | ChoicesArray _ => true
  | ChoicesOther v => truthy v
  end.

(** [array.includes(value)] *)
Definition includes (items : list value) (v : value) : bool :=
  existsb (fun x => bool_decide (x = v)) items.

(** ** [validateVar] *)

Definition validateVar (spec : option Spec) (name : string) (rawValue : value)
  : result value :=
  match spec with
  | None => Throw (EnvError (MsgInvalidSpec name))      (* [spec = {}] *)
  | Some spec =>
    match _parse spec with
    | None => Throw (EnvError (MsgInvalidSpec name))
    | Some parse =>
      value ← parse rawValue;
      _ ← (if choicesTruthy (choices spec) then
              match choices spec with
              | ChoicesArray items =>
                  if negb (includes items value)
                  then Throw (EnvError (MsgNotInChoices value items))
                  else Ok tt
              | _ => Throw (TypeError (MsgChoicesNotArray name))
              end
            else Ok tt);
      if looseNull value then Throw (EnvError (MsgInvalidValue name))
      else Ok value
    end
  end.

(** ** [formatSpecDescription] *)

Definition dquote : string := String "034"%char EmptyString.

(** A property interpolated in a template: [undefined] when absent. *)
Definition interpolate (o : option string) : string :=
  match o with
  | Some s => s
  | None => "undefined"
  end.

(** Truthiness of an optional string property. *)
Definition present (o : option string) : bool :=
  match o with
  | Some s => negb (String.eqb s "")
  | None => false
  end.

Definition formatSpecDescription (spec : Spec) : string :=
  let egText :=
    if present (example spec)
    then " (eg. " ++ dquote ++ interpolate (example spec) ++ dquote ++ ")"
    else "" in
  let docsText :=
    if present (docs spec) then ". See " ++ interpolate (docs spec) else "" in
  let text := interpolate (desc spec) ++ egText ++ docsText in
  if String.eqb text "" then "" else text.

(** ** Resolving the raw value *)

(** [env.NODE_ENV !== 'production'] *)
Definition isNotProd (env : gmap string value) : bool :=
  negb (bool_decide (get env "NODE_ENV" = VStr "production")).

Definition getDevDefault (spec : Spec) (env : gmap string value) : value :=
  let hasDevDefault := bool_decide (is_Some (devDefault spec)) in
  if hasDevDefault && isNotProd env then prop (devDefault spec) else VUndefined.

Definition getRawValue (spec : Spec) (env : gmap string value) (specKey : string)
  : value :=
  let devDefault := getDevDefault spec env in
  if bool_decide (get env specKey = VUndefined) then
    if bool_decide (devDefault = VUndefined) then prop (default spec)
    else devDefault
  else get env specKey.

Definition assertTestOnlySymbol (spec : Spec) (rawValue : value) : result unit :=
  if bool_decide (rawValue = testOnlySymbol)
  then Throw (EnvMissingError (Msg (formatSpecDescription spec)))
  else Ok tt.

Definition usingFalsyDefault (spec : Spec) (env : gmap string value)
    (rawValue : value) : bool :=
  let hasDevDefault := bool_decide (is_Some (devDefault spec)) in
  let hasDefault := bool_decide (is_Some (default spec)) in
  if hasDefault && bool_decide (prop (default spec) = rawValue) then true
  else if hasDevDefault && isNotProd env
          && bool_decide (prop (devDefault spec) = rawValue) then true
  else false.

(** ** [validate] *)

Definition validate (spec : Spec) (specKey : string) (rawValue : value)
    (env : gmap string value) : result value :=
  if bool_decide (rawValue = VUndefined) then
    if negb (usingFalsyDefault spec env rawValue)
    then Throw (EnvMissingError (Msg (formatSpecDescription spec)))
    else Ok VUndefined
  else validateVar (Some spec) specKey rawValue.

(** ** Objects with property attributes

    The object that [cleanEnv] assembles carries properties made by
    [Object.defineProperties] and is frozen, so it is modelled with the
    attributes of each property and the extensibility bit. *)

Record property : Type := {
  p_value : value;
  p_writable : bool;
  p_enumerable : bool;
  p_configurable : bool
}.

Record object : Type := {
  props : gmap string property;
  extensible : bool
}.

#[global] Instance property_eq_dec : EqDecision property.
Proof. solve_decision. Defined.

#[global] Instance object_eq_dec : EqDecision object.
Proof. solve_decision. Defined.

(** A property made by assignment. *)
Definition dataProp (v : value) : property :=
  {| p_value := v; p_writable := true; p_enumerable := true;
     p_configurable := true |}.

(** The object whose own properties were all made by assignment. *)
Definition plain (m : gmap string value) : object :=
  {| props := dataProp <$> m; extensible := true |}.

(** [o[key]] *)
Definition getProp (o : object) (key : string) : value :=
  prop (p_value <$> props o !! key).

(** [o[key] = v] outside strict-mode code: a write that is not allowed
    is dropped. *)
Definition assignProp (o : object) (key : string) (v : value) : object :=
  match props o !! key with
  | Some p =>
      if p_writable p
      then {| props := <[key := {| p_value := v; p_writable := true;
                                   p_enumerable := p_enumerable p;
                                   p_configurable := p_configurable p |}]>
                         (props o);
              extensible := extensible o |}
      else o
  | None =>
      if extensible o
      then {| props := <[key := dataProp v]> (props o);
              extensible := extensible o |}
      else o
  end.

(** [Object.defineProperty(o, key, { value: v })]: a new property gets
    every attribute [false]; an existing one keeps its attributes, and
    may only change its value when it is configurable or writable. *)
Definition defineValue (o : object) (key : string) (v : value) : result object :=
  match props o !! key with
  | Some p =>
      if p_configurable p || p_writable p || bool_decide (p_value p = v)
      then Ok {| props := <[key := {| p_value := v;
                                      p_writable := p_writable p;
                                      p_enumerable := p_enumerable p;
                                      p_configurable := p_configurable p |}]>
                            (props o);
                 extensible := extensible o |}
      else Throw (TypeError (Msg "Cannot redefine property"))
  | None =>
      if extensible o
      then Ok {| props := <[key := {| p_value := v; p_writable := false;
                                      p_enumerable := false;
                                      p_configurable := false |}]> (props o);
                 extensible := extensible o |}
      else Throw (TypeError (Msg "Cannot define property, object is not extensible"))
  end.

(** [Object.freeze(o)] *)
Definition freeze (o : object) : object :=
  {| props := (fun p => {| p_value := p_value p; p_writable := false;
                           p_enumerable := p_enumerable p;
                           p_configurable := false |}) <$> props o;
     extensible := false |}.

(** [Object.isFrozen(o)] *)
Definition isFrozen (o : object) : Prop :=
  extensible o = false /\
  forall key p, props o !! key = Some p ->
    p_writable p = false /\ p_configurable p = false.

(** [const extend = (x = {}, y = {}) => Object.assign({}, x, y)] on
    dictionaries: a new dictionary, [y] winning on the keys of both. *)
Definition extend (x y : gmap string value) : gmap string value := y ∪ x.

(** ** Options *)

Inductive dotEnvPath_field : Type :=
| DotEnvNull                       (* [dotEnvPath: null] *)
| DotEnvDefault                    (* absent: the default ['.env'] *)
| DotEnvPath (path : string).

(** [options.reporter]: [null], a function, or absent (with every other
    falsy value, which [options.reporter || ...] treats alike). *)
Inductive reporter_field : Type :=
| ReporterNull
| ReporterAbsent
| ReporterFn (f : gmap string error -> object -> result unit).

Record Options : Type := {
  dotEnvPath : dotEnvPath_field;
  strict : bool;
  reporter : reporter_field;
  transformer : option (object -> result object)
}.

(** [options.reporter === null] *)
Definition reporterIsNull (options : Options) : bool :=
  match reporter options with
  | ReporterNull => true
  | _ => false
  end.

(** ** [validateSpecs] *)

(** What the run did, in order (ghost state). *)
Inductive event : Type :=
| EvValidate (specKey : string) (rawValue : value)
    (* the [try] block was entered for [specKey] *)
| EvRequiredWhen (specKey : string) (partial : gmap string value)
    (* [spec.requiredWhen(output)] was called for [specKey] *)
| EvReporter (errors : gmap string error) (env : object)
    (* [reporter({ errors, env })] was called *).

(** The variables of one activation of [validateSpecs] that the loop
    body reads and writes. *)
Record State : Type := {
  output : gmap string value;
  errors : gmap string error;
  deferKeys : list string;
  hasDeferments : bool;
  trace : list event
}.

Inductive completion : Type :=
| Normal
| Abrupt (e : error).

Definition log (ev : event) (st : State) : State :=
  {| output := output st; errors := errors st; deferKeys := deferKeys st;
     hasDeferments := hasDeferments st; trace := (trace st ++ [ev])%list |}.

(** [specs[specKey]] *)
Definition lookupSpec (specs : list (string * Spec)) (specKey : string)
  : option Spec :=
  snd <$> List.find (fun kv => bool_decide (fst kv = specKey)) specs.

(** [Object.keys(specs)] *)
Definition keys (specs : list (string * Spec)) : list string := map fst specs.

(** The body of the [try] block, up to the assignment: it reads the spec,
    the environment and the key only. *)
Definition attempt (spec : Spec) (env : gmap string value) (specKey : string)
  : result value :=
  let rawValue := getRawValue spec env specKey in
  _ ← assertTestOnlySymbol spec rawValue;
  validate spec specKey rawValue env.

(** The last two statements of the [catch] block. *)
Definition recordOrThrow (options : Options) (st : State) (specKey : string)
    (error : error) : State * completion :=
  if reporterIsNull options then (st, Abrupt error)
  else ({| output := output st; errors := <[specKey := error]> (errors st);
           deferKeys := deferKeys st; hasDeferments := hasDeferments st;
           trace := trace st |}, Normal).

(** The callback of [keysToValidate.forEach]. *)
Definition processKey (specs : list (string * Spec)) (env : gmap string value)
    (options : Options) (shouldProcessDeferments : bool)
    (st : State) (specKey : string) : State * completion :=
  match lookupSpec specs specKey with
  | None => (st, Abrupt (TypeError MsgNotAnObject))
  | Some spec =>
    let hasRequiredWhen := bool_decide (is_Some (requiredWhen spec)) in
    if negb shouldProcessDeferments && hasRequiredWhen then
      ({| output := output st; errors := errors st;
          deferKeys := (deferKeys st ++ [specKey])%list;
          hasDeferments := true; trace := trace st |}, Normal)
    else
      let rawValue := getRawValue spec env specKey in
      let st := log (EvValidate specKey rawValue) st in
      match attempt spec env specKey with
      | Ok v =>
          ({| output := <[specKey := v]> (output st); errors := errors st;
              deferKeys := deferKeys st; hasDeferments := hasDeferments st;
              trace := trace st |}, Normal)
      | Throw error =>
          match requiredWhen spec with
          | Some requiredWhen =>
              let partial := output st in
              let st := log (EvRequiredWhen specKey partial) st in
              match requiredWhen partial with
              | Throw e => (st, Abrupt e)
              | Ok required =>
                  if negb (truthy required) then (st, Normal)
                  else recordOrThrow options st specKey error
              end
          | None => recordOrThrow options st specKey error
          end
      end
  end.

(** [Array.prototype.forEach] with a callback that may throw: the first
    throw ends the iteration, what was written before it stays written. *)
Fixpoint forEach (f : State -> string -> State * completion)
    (keysToValidate : list string) (st : State) : State * completion :=
  match keysToValidate with
  | [] => (st, Normal)
  | specKey :: rest =>
      match f st specKey with
      | (st', Normal) => forEach f rest st'
      | (st', Abrupt e) => (st', Abrupt e)
      end
  end.

(** [validateSpecs({ specs, env, deferKeys, output, options })], with the
    ghost trace threaded through.  The recursion is bounded by [fuel];
    [None] means the bound was reached. *)
Fixpoint validateSpecs (fuel : nat) (specs : list (string * Spec))
    (env : gmap string value) (deferKeys0 : list string)
    (output0 : gmap string value) (options : Options) (trace0 : list event)
  : option (list event * result (gmap string value * gmap string error)) :=
  match fuel with
  | O => None
  | S fuel =>
    let st0 := {| output := output0; errors := ∅; deferKeys := deferKeys0;
                  hasDeferments := false; trace := trace0 |} in
    let useDeferKeys := bool_decide (0 < length deferKeys0) in
    let keysToValidate := if useDeferKeys then deferKeys0 else keys specs in
    let shouldProcessDeferments := useDeferKeys in
    match forEach (processKey specs env options shouldProcessDeferments)
                  keysToValidate st0 with
    | (st, Abrupt e) => Some (trace st, Throw e)
    | (st, Normal) =>
        if hasDeferments st && bool_decide (0 < length (deferKeys st))
        then validateSpecs fuel specs env (deferKeys st) (output st) options
                           (trace st)
        else Some (trace st, Ok (output st, errors st))
    end
  end.

(** The call made by [cleanEnv]: [deferKeys] and [output] take their
    defaults, and two activations are enough (see [validateSpecs_enough]). *)
Definition validateSpecsRun (specs : list (string * Spec))
    (env : gmap string value) (options : Options) (trace0 : list event) :=
  validateSpecs 2 specs env [] ∅ options trace0.

(** ** The environment object and [getEnv]

    [getEnv] may hand back the caller's own object and deletes a key of
    what it hands back, so environment objects live in a store and are
    passed by reference. *)

(** An environment object: its entries, and whether its [NODE_ENV]
    property is configurable.  It is, unless the caller froze or sealed
    the object or defined the property otherwise; [delete] removes a
    configurable property only. *)
Record envObject : Type := {
  entries : gmap string value;
  configurable : bool
}.

(** An object as an object literal or [Object.assign({}, ...)] makes it. *)
Definition ordinary (m : gmap string value) : envObject :=
  {| entries := m; configurable := true |}.

Abbreviation loc := positive.
Abbreviation heap := (gmap positive envObject).

(** The entries of the object behind a reference; a reference to nothing
    reads as [undefined], for which [extend] takes its default [{}]. *)
Definition deref (h : heap) (l : loc) : gmap string value :=
  match h !! l with
  | Some o => entries o
  | None => ∅
  end.

(** What [fs.readFileSync] followed by [dotenv.parse] gives for a path. *)
Inductive dotEnvFile : Type :=
| NoSuchFile                                  (* [err.code === 'ENOENT'] *)
| ReadError (e : error)
| DotEnvParsed (parsed : gmap string value).

(** [Object.assign] on association lists: a key already there keeps its
    place and takes the new value, a new key goes last. *)
Fixpoint setKey {A : Type} (key : string) (a : A) (l : list (string * A))
  : list (string * A) :=
  match l with
  | [] => [(key, a)]
  | (k, b) :: rest =>
      if bool_decide (k = key) then (k, a) :: rest
      else (k, b) :: setKey key a rest
  end.

Definition assignAll {A : Type} (target source : list (string * A))
  : list (string * A) :=
  fold_left (fun t kv => setKey (fst kv) (snd kv) t) source target.

(** [extend] on spec maps. *)
Definition extendSpecs (x y : list (string * Spec)) : list (string * Spec) :=
  assignAll (assignAll [] x) y.

Section CleanEnv.

(** The file system as [extendWithDotEnv] sees it. *)
Variable readDotEnv : string -> dotEnvFile.

(** The parse function of [str], from [./lib/validators]. *)
Variable strParse : value -> result value.

(** The default reporter, [./lib/reporter]. *)
Variable defaultReporter : gmap string error -> object -> result unit.

(** The strict-mode wrapper, [./lib/strictProxy]. *)
Variable strictProxy : object -> gmap string value -> result object.

Definition extendWithDotEnv (h : heap) (inputEnv : loc) (dotEnvPath : string)
  : result (loc * heap) :=
  match readDotEnv dotEnvPath with
  | NoSuchFile => Ok (inputEnv, h)
  | ReadError err => Throw err
  | DotEnvParsed parsed =>
      let l := fresh (dom h) in
      Ok (l, <[l := ordinary (extend parsed (deref h inputEnv))]> h)
  end.

Definition getEnv (h : heap) (inputEnv : loc) (options : Options)
  : heap * result loc :=
  let extended :=
    match dotEnvPath options with
    | DotEnvNull => Ok (inputEnv, h)
    | DotEnvDefault => extendWithDotEnv h inputEnv ".env"
    | DotEnvPath path => extendWithDotEnv h inputEnv path
    end in
  match extended with
  | Throw err => (h, Throw err)
  | Ok (env, h) =>
      match h !! env with
      | None => (h, Throw (TypeError MsgNotAnObject))
      | Some o =>
          if negb (truthy (get (entries o) "NODE_ENV"))
             || bool_decide (get (entries o) "NODE_ENV" = VStr "")
          then
            (* [delete env.NODE_ENV] *)
            if configurable o
            then (<[env := {| entries := delete "NODE_ENV" (entries o);
                              configurable := configurable o |}]> h, Ok env)
            else (h, Ok env)
          else (h, Ok env)
      end
  end.

(** Modelled from the spec: [makeValidator] and [str] of
    [./lib/validators] are not among the sources; the spec gives the
    shape [makeValidator(coreParseFn) -> (perCallOptions) -> Spec], so
    [str(options)] is [options] with [_parse] set to the parse function
    of [str].  This is
    [str({ choices: ['development', 'test', 'production'],
           default: 'production' })]. *)
Definition nodeEnvSpec : Spec :=
  {| _parse := Some strParse;
     choices := ChoicesArray
                  [VStr "development"; VStr "test"; VStr "production"];
     default := Some (VStr "production");
     devDefault := None; desc := None; example := None; docs := None;
     requiredWhen := None |}.

(** [Object.defineProperties(o, { k1: { value: v1 }, ... })] *)
Definition defineProperties (o : object) (descriptors : list (string * value))
  : result object :=
  fold_left (fun r kv => o ← r; defineValue o (fst kv) (snd kv))
            descriptors (Ok o).

(** [cleanEnv(inputEnv, userSpecs, options)]: the store afterwards, the
    trace, and the object returned or the error thrown.  [None] only
    if [validateSpecs] ran out of fuel (it never does, [cleanEnv_total]). *)
Definition cleanEnv (h : heap) (inputEnv : loc)
    (userSpecs : list (string * Spec)) (options : Options)
  : option (heap * list event * result object) :=
  match getEnv h inputEnv options with
  | (h, Throw err) => Some (h, [], Throw err)
  | (h, Ok env) =>
    let env := deref h env in
    let specs := extendSpecs [("NODE_ENV", nodeEnvSpec)] userSpecs in
    match validateSpecsRun specs env options [] with
    | None => None
    | Some (tr, Throw err) => Some (h, tr, Throw err)
    | Some (tr, Ok (output, errors)) =>
      let finalOutput :=
        if strict options then plain output else plain (extend env output) in
      let mode := get output "NODE_ENV" in
      let flag (name : string) := VBool (bool_decide (mode = VStr name)) in
      match defineProperties finalOutput
              [("isDevelopment", flag "development");
               ("isDev", flag "development");
               ("isProduction", flag "production");
               ("isProd", flag "production");
               ("isTest", flag "test")] with
      | Throw err => Some (h, tr, Throw err)
      | Ok finalOutput =>
        match (match transformer options with
               | Some transformer => transformer finalOutput
               | None => Ok finalOutput
               end) with
        | Throw err => Some (h, tr, Throw err)
        | Ok finalOutput =>
          let reporter :=
            match reporter options with
            | ReporterFn f => f
            | _ => defaultReporter
            end in
          let tr := (tr ++ [EvReporter errors finalOutput])%list in
          match reporter errors finalOutput with
          | Throw err => Some (h, tr, Throw err)
          | Ok _ =>
            match (if strict options then strictProxy finalOutput env
                   else Ok finalOutput) with
            | Throw err => Some (h, tr, Throw err)
            | Ok finalOutput => Some (h, tr, Ok (freeze finalOutput))
            end
          end
        end
      end
    end
  end.

End CleanEnv.

(** ** [testOnly] *)

(** [testOnly(defaultValueForTests)]; [processEnv] is [process.env]. *)
Definition testOnly (processEnv : gmap string value)
    (defaultValueForTests : value) : value :=
  if bool_decide (get processEnv "NODE_ENV" = VStr "test")
  then defaultValueForTests
  else testOnlySymbol.

(** * Notions used to state the properties *)

(** ** One iteration of the loop *)

(** The loop body enters the [try] block for a key unless it is the
    first pass and the key is deferred. *)
Definition validating (shouldProcessDeferments : bool) (spec : Spec) : Prop :=
  shouldProcessDeferments = true \/ requiredWhen spec = None.

(** The state when the [catch] block is left. *)
Definition caught (spec : Spec) (env : gmap string value) (st : State)
    (specKey : string) : State :=
  let st1 := log (EvValidate specKey (getRawValue spec env specKey)) st in
  match requiredWhen spec with
  | Some _ => log (EvRequiredWhen specKey (output st)) st1
  | None => st1
  end.

(** ** Particular specs, callbacks and options *)

(** The check of [choices] in [validateVar] lets the value through. *)
Definition choicesAdmit (c : choices_field) (v : value) : Prop :=
  match c with
  | ChoicesAbsent => True
  | ChoicesArray items => includes items v = true
  | ChoicesOther other => truthy other = false
  end.

(** The spec is malformed in a way [validateVar] reports for this raw
    value: no [_parse] function, or a truthy [choices] that is not an
    array (which is looked at once [_parse] has returned). *)
Inductive malformed (spec : Spec) (name : string) (raw : value)
  : error -> Prop :=
| MissingParse :
    _parse spec = None ->
    malformed spec name raw (EnvError (MsgInvalidSpec name))
| ChoicesNotArray parse v c :
    _parse spec = Some parse -> parse raw = Ok v ->
    choices spec = ChoicesOther c -> truthy c = true ->
    malformed spec name raw (TypeError (MsgChoicesNotArray name)).

(** The spec offers no default for this environment: no [default]
    property, and no [devDefault] property or a [NODE_ENV] of
    ["production"]. *)
Definition noUsableDefault (spec : Spec) (env : gmap string value) : Prop :=
  default spec = None /\ (devDefault spec = None \/ isNotProd env = false).

Definition missingError (spec : Spec) : error :=
  EnvMissingError (Msg (formatSpecDescription spec)).

(** A parse function in the manner of [str]: strings only. *)
Definition stringsOnly (v : value) : result value :=
  match v with
  | VStr _ => Ok v
  | _ => Throw (EnvError (Msg "Not a string"))
  end.

Definition identity (v : value) : result value := Ok v.

Definition never (partial : gmap string value) : result value :=
  Ok (VBool false).

Definition always (partial : gmap string value) : result value :=
  Ok (VBool true).

(** A predicate that throws. *)
Definition failing (partial : gmap string value) : result value :=
  Throw (OtherError (Msg "predicate failed")).

(** A predicate in the manner of [output => output[key] !== undefined]. *)
Definition whenSet (key : string) (partial : gmap string value)
  : result value :=
  Ok (VBool (negb (bool_decide (get partial key = VUndefined)))).

(** A spec as a validator builds it: a parse function and the given
    [choices] and [default]. *)
Definition specOf (parse : value -> result value) (c : choices_field)
    (d : option value) : Spec :=
  {| _parse := Some parse; choices := c; default := d; devDefault := None;
     desc := None; example := None; docs := None; requiredWhen := None |}.

(** A spec without [default], with the identity for [_parse]. *)
Definition plainSpec (rw : option (gmap string value -> result value)) : Spec :=
  {| _parse := Some identity; choices := ChoicesAbsent; default := None;
     devDefault := None; desc := None; example := None; docs := None;
     requiredWhen := rw |}.

Definition noParse (rw : option (gmap string value -> result value)) : Spec :=
  {| _parse := None; choices := ChoicesAbsent; default := None;
     devDefault := None; desc := None; example := None; docs := None;
     requiredWhen := rw |}.

Definition collecting : Options :=
  {| dotEnvPath := DotEnvNull; strict := false; reporter := ReporterAbsent;
     transformer := None |}.

Definition throwing : Options :=
  {| dotEnvPath := DotEnvNull; strict := false; reporter := ReporterNull;
     transformer := None |}.

(** A transformer in the manner of [env => Object.assign({}, env)]: a
    new object with the enumerable own properties of the given one. *)
Definition copyEnumerable (o : object) : result object :=
  Ok (plain (p_value <$> filter (fun kv => p_enumerable kv.2 = true) (props o))).

Definition noDotEnv (path : string) : dotEnvFile := NoSuchFile.
Definition quietReporter (errs : gmap string error) (o : object)
  : result unit := Ok tt.
Definition noProxy (o : object) (env : gmap string value) : result object :=
  Ok o.

(** Options with a reporter function of the caller. *)
Definition reporting : Options :=
  {| dotEnvPath := DotEnvNull; strict := false;
     reporter := ReporterFn quietReporter; transformer := None |}.

(** The object of a result that is known to be one. *)
Definition okOr (r : result object) : object :=
  match r with
  | Ok o => o
  | Throw _ => plain ∅
  end.

(** Options for strict mode, and with a copying transformer. *)
Definition strictly : Options :=
  {| dotEnvPath := DotEnvNull; strict := true; reporter := ReporterAbsent;
     transformer := None |}.

Definition copying : Options :=
  {| dotEnvPath := DotEnvNull; strict := false; reporter := ReporterAbsent;
     transformer := Some copyEnumerable |}.

(** The descriptors that [cleanEnv] hands to [Object.defineProperties]. *)
Definition modeFlags (output : gmap string value) : list (string * value) :=
  let mode := get output "NODE_ENV" in
  [("isDevelopment", VBool (bool_decide (mode = VStr "development")));
   ("isDev", VBool (bool_decide (mode = VStr "development")));
   ("isProduction", VBool (bool_decide (mode = VStr "production")));
   ("isProd", VBool (bool_decide (mode = VStr "production")));
   ("isTest", VBool (bool_decide (mode = VStr "test")))].

(** The names of the flags, and the values they have in test mode. *)
Definition flagNames : list string :=
  ["isDevelopment"; "isDev"; "isProduction"; "isProd"; "isTest"].

Definition testFlags (o : object) : Prop :=
  getProp o "isTest" = VBool true /\
  getProp o "isDev" = VBool false /\
  getProp o "isDevelopment" = VBool false /\
  getProp o "isProd" = VBool false /\
  getProp o "isProduction" = VBool false.

(** ** A pass of the loop, described key by key *)

(** The keys of a list that come before [specKey]. *)
Fixpoint upTo (specKey : string) (ks : list string) : list string :=
  match ks with
  | [] => []
  | k :: rest =>
      if bool_decide (k = specKey) then [] else k :: upTo specKey rest
  end.

Section PassDefinitions.

Variable specs : list (string * Spec).
Variable env : gmap string value.
Variable options : Options.

(** The result of the [try] block for a key of the spec map. *)
Definition attemptKey (specKey : string) : result value :=
  match lookupSpec specs specKey with
  | Some spec => attempt spec env specKey
  | None => Throw (TypeError MsgNotAnObject)
  end.

(** The [requiredWhen] function of a key, if it has one. *)
Definition requiredKey (specKey : string)
  : option (gmap string value -> result value) :=
  lookupSpec specs specKey ≫= requiredWhen.

Definition rawKey (specKey : string) : value :=
  match lookupSpec specs specKey with
  | Some spec => getRawValue spec env specKey
  | None => VUndefined
  end.

(** A deferred key: its spec has a [requiredWhen] function. *)
Definition deferred (specKey : string) : Prop :=
  is_Some (requiredKey specKey).

#[global] Instance deferred_dec specKey : Decision (deferred specKey).
Proof. unfold deferred. apply _. Defined.

(** The keys validated by the first pass, and those it queues. *)
Definition immediateKeys : list string :=
  filter (fun k => ~ deferred k) (keys specs).

Definition deferredKeys : list string :=
  filter deferred (keys specs).

(** The order in which a run that is not cut short validates the keys. *)
Definition schedule : list string := (immediateKeys ++ deferredKeys)%list.

(** The output after the [try] block of one key, and of a list of keys. *)
Definition outputStep (o : gmap string value) (specKey : string)
  : gmap string value :=
  match attemptKey specKey with
  | Ok v => <[specKey := v]> o
  | Throw _ => o
  end.

Definition outputOf (o : gmap string value) (ks : list string)
  : gmap string value :=
  fold_left outputStep ks o.

(** The events of one iteration that enters the [try] block with
    partial output [o]. *)
Definition eventsAt (o : gmap string value) (specKey : string) : list event :=
  EvValidate specKey (rawKey specKey) ::
  match attemptKey specKey, requiredKey specKey with
  | Throw _, Some _ => [EvRequiredWhen specKey o]
  | _, _ => []
  end.

Fixpoint traceOf (o : gmap string value) (ks : list string) : list event :=
  match ks with
  | [] => []
  | k :: rest => (eventsAt o k ++ traceOf (outputStep o k) rest)%list
  end.

(** The [catch] block of the key goes past its first statement. *)
Definition unsuppressedKey (specKey : string) (o : gmap string value) : Prop :=
  match requiredKey specKey with
  | None => True
  | Some rw => exists r, rw o = Ok r /\ truthy r = true
  end.

(** The [catch] block of the key returns at its first statement. *)
Definition suppressedKey (specKey : string) (o : gmap string value) : Prop :=
  exists rw r, requiredKey specKey = Some rw /\ rw o = Ok r /\
               truthy r = false.

(** The iteration records [e] under the key. *)
Definition recordsAt (o : gmap string value) (specKey : string) (e : error)
  : Prop :=
  reporterIsNull options = false /\ attemptKey specKey = Throw e /\
  unsuppressedKey specKey o.

(** The iteration throws [e]: the error of the [try] block when
    [reporter] is [null], or what [requiredWhen] itself threw. *)
Definition abortsAt (o : gmap string value) (specKey : string) (e : error)
  : Prop :=
  (reporterIsNull options = true /\ attemptKey specKey = Throw e /\
   unsuppressedKey specKey o) \/
  (exists rw e0, requiredKey specKey = Some rw /\
                 attemptKey specKey = Throw e0 /\ rw o = Throw e).

(** [e] was recorded under the key by one of the iterations over [ks]
    that started with partial output [o]. *)
Definition recorded (o : gmap string value) (ks : list string)
    (specKey : string) (e : error) : Prop :=
  exists l1 l2, ks = (l1 ++ specKey :: l2)%list /\
                recordsAt (outputOf o l1) specKey e.

(** No iteration over [ks] threw. *)
Definition noAbort (o : gmap string value) (ks : list string) : Prop :=
  forall l1 k l2 e, ks = (l1 ++ k :: l2)%list ->
                    ~ abortsAt (outputOf o l1) k e.

(** The keys that a run from the defaults validates before it comes to
    [specKey], and the partial output at that moment. *)
Definition earlier (specKey : string) : list string :=
  upTo specKey schedule.

Definition partialAt (specKey : string) : gmap string value :=
  outputOf ∅ (earlier specKey).

(** The run comes to the key: no iteration before that of the key
    throws. *)
Definition comesTo (specKey : string) : Prop :=
  noAbort ∅ (earlier specKey).

(** The keys for which a pass with flag [b] enters the [try] block,
    and those it queues. *)
Definition entered (b : bool) (ks : list string) : list string :=
  if b then ks else filter (fun k => ~ deferred k) ks.

Definition queued (b : bool) (ks : list string) : list string :=
  if b then [] else filter deferred ks.

End PassDefinitions.

Section PassInvariant.

Variable specs : list (string * Spec).
Variable env : gmap string value.
Variable options : Options.
Variable b : bool.
Variable st0 : State.

Abbreviation outputOf' := (outputOf specs env).
Abbreviation traceOf' := (traceOf specs env).
Abbreviation recorded' := (recorded specs env options).
Abbreviation noAbort' := (noAbort specs env options).

(** The state after the keys [done] of a pass that began in [st0]
    with flag [b]. *)
Record PassInv (done : list string) (st : State) : Prop := {
  inv_output :
    output st = outputOf' (output st0) (entered specs b done);
  inv_trace :
    trace st
    = (trace st0 ++ traceOf' (output st0) (entered specs b done))%list;
  inv_deferKeys :
    deferKeys st = (deferKeys st0 ++ queued specs b done)%list;
  inv_hasDeferments :
    hasDeferments st
    = hasDeferments st0 || bool_decide (queued specs b done <> []);
  inv_noAbort : noAbort' (output st0) (entered specs b done);
  inv_errors_in : forall k e,
    errors st !! k = Some e ->
    errors st0 !! k = Some e \/
    recorded' (output st0) (entered specs b done) k e;
  inv_errors_of : forall k e,
    recorded' (output st0) (entered specs b done) k e ->
    errors st !! k = Some e
}.

End PassInvariant.

(** ** The outcome of a run *)

Section LastPass.

Variable specs : list (string * Spec).
Variable env : gmap string value.

Abbreviation outputOf' := (outputOf specs env).
Abbreviation immediateKeys' := (immediateKeys specs).
Abbreviation deferredKeys' := (deferredKeys specs).

(** The keys of the last pass, and the partial output it starts with:
    all keys when none is deferred, the deferred ones otherwise. *)
Definition lastPass : list string :=
  match deferredKeys' with
  | [] => immediateKeys'
  | _ => deferredKeys'
  end.

Definition lastBase : gmap string value :=
  match deferredKeys' with
  | [] => ∅
  | _ => outputOf' ∅ immediateKeys'
  end.

End LastPass.

Definition initial (tr0 : list event) : State :=
  {| output := ∅; errors := ∅; deferKeys := []; hasDeferments := false;
     trace := tr0 |}.

Section Outcome.

Variable specs : list (string * Spec).
Variable env : gmap string value.
Variable options : Options.

Abbreviation outputOf' := (outputOf specs env).
Abbreviation traceOf' := (traceOf specs env).
Abbreviation recorded' := (recorded specs env options).
Abbreviation noAbort' := (noAbort specs env options).
Abbreviation abortsAt' := (abortsAt specs env options).
Abbreviation schedule' := (schedule specs).

(** A run that returns validated the whole schedule, none of the
    iterations threw, and its error map holds what the last pass
    recorded. *)
Definition Returned (tr0 tr : list event) (out : gmap string value)
    (errs : gmap string error) : Prop :=
  tr = (tr0 ++ traceOf' ∅ schedule')%list /\
  out = outputOf' ∅ schedule' /\
  noAbort' ∅ schedule' /\
  (forall k e, errs !! k = Some e <->
               recorded' (lastBase specs env) (lastPass specs) k e).

(** A run that throws stopped at a key of the schedule, whose
    iteration threw; none of the earlier ones did. *)
Definition Thrown (tr0 tr : list event) (e : error) : Prop :=
  exists d k rest,
    schedule' = (d ++ k :: rest)%list /\
    tr = (tr0 ++ traceOf' ∅ (d ++ [k]))%list /\
    noAbort' ∅ d /\
    abortsAt' (outputOf' ∅ d) k e.

End Outcome.

(** ** Reading a trace *)

(** The keys for which the [try] block was entered, in order. *)
Definition validatedKeys (tr : list event) : list string :=
  omap (fun ev => match ev with
                  | EvValidate k _ => Some k
                  | _ => None
                  end) tr.

(** The calls of the reporter, with their arguments, in order. *)
Definition reporterCalls (tr : list event)
  : list (gmap string error * object) :=
  omap (fun ev => match ev with
                  | EvReporter errs obj => Some (errs, obj)
                  | _ => None
                  end) tr.

(** * Properties *)

(** ** The raw value resolver *)

Lemma getDevDefault_applicable spec env d :
  isNotProd env = true -> devDefault spec = Some d -> getDevDefault spec env = d.
Proof.
  intros Hmode Hdev. unfold getDevDefault. rewrite Hmode, Hdev. reflexivity.
Qed.

Lemma getDevDefault_absent spec env :
  devDefault spec = None -> getDevDefault spec env = VUndefined.
Proof.
  intros Hdev. unfold getDevDefault. rewrite Hdev. reflexivity.
Qed.

Lemma getDevDefault_production spec env :
  isNotProd env = false -> getDevDefault spec env = VUndefined.
Proof.
  intros Hmode. unfold getDevDefault. rewrite Hmode.
  rewrite andb_false_r. reflexivity.
Qed.

Lemma getRawValue_no_entry spec env specKey :
  get env specKey = VUndefined ->
  getRawValue spec env specKey =
    if bool_decide (getDevDefault spec env = VUndefined)
    then prop (default spec) else getDevDefault spec env.
Proof.
  intros Hentry. unfold getRawValue. rewrite Hentry.
  rewrite bool_decide_eq_true_2 by reflexivity. reflexivity.
Qed.

(** C6, as stated, fails: a spec that declares [devDefault: undefined]
    next to [default: 'x'], in an environment with no entry for the key
    and no [NODE_ENV], resolves to ['x'], not to its dev-default. *)
Lemma C6_counterexample :
  let spec := {| _parse := None; choices := ChoicesAbsent;
                 default := Some (VStr "x"); devDefault := Some VUndefined;
                 desc := None; example := None; docs := None;
                 requiredWhen := None |} in
  let env : gmap string value := ∅ in
  env !! "FOO" = None /\
  isNotProd env = true /\
  is_Some (devDefault spec) /\
  getRawValue spec env "FOO" = VStr "x" /\
  getRawValue spec env "FOO" <> prop (devDefault spec).
Proof.
  simpl. repeat split; try reflexivity; try discriminate. eauto.
Qed.

(** C6 (amended): for a key with no environment entry, the raw value is
    the dev-default when the environment's [NODE_ENV] is not
    ["production"], the spec has an own [devDefault] property and its
    value is not [undefined] (any other falsy value counts); in every
    other case (no [devDefault] property, a [devDefault] that holds
    [undefined], or [NODE_ENV] equal to ["production"]) it is the plain
    default. *)
Theorem C6_raw_value_defaults spec env specKey :
  get env specKey = VUndefined ->
  (forall d, isNotProd env = true -> devDefault spec = Some d ->
             d <> VUndefined -> getRawValue spec env specKey = d) /\
  (devDefault spec = None \/ devDefault spec = Some VUndefined ->
     getRawValue spec env specKey = prop (default spec)) /\
  (isNotProd env = false ->
     getRawValue spec env specKey = prop (default spec)).
Proof.
  intros Hentry. rewrite (getRawValue_no_entry _ _ _ Hentry).
  split; [|split].
  - intros d Hmode Hdev Hd.
    rewrite (getDevDefault_applicable _ _ _ Hmode Hdev).
    rewrite bool_decide_eq_false_2 by exact Hd. reflexivity.
  - intros [Hdev|Hdev].
    + rewrite (getDevDefault_absent _ _ Hdev). reflexivity.
    + unfold getDevDefault. rewrite Hdev. simpl.
      destruct (isNotProd env); reflexivity.
  - intros Hmode. rewrite (getDevDefault_production _ _ Hmode). reflexivity.
Qed.

Lemma C6_raw_value_defaults_witness :
  let spec := {| _parse := None; choices := ChoicesAbsent;
                 default := Some (VStr "x"); devDefault := Some (VNum 0);
                 desc := None; example := None; docs := None;
                 requiredWhen := None |} in
  get ∅ "FOO" = VUndefined /\
  (forall d, isNotProd ∅ = true -> devDefault spec = Some d ->
             d <> VUndefined -> getRawValue spec ∅ "FOO" = d) /\
  (devDefault spec = None \/ devDefault spec = Some VUndefined ->
     getRawValue spec ∅ "FOO" = prop (default spec)) /\
  (isNotProd ∅ = false -> getRawValue spec ∅ "FOO" = prop (default spec)).
Proof.
  split; [reflexivity|].
  exact (C6_raw_value_defaults _ ∅ "FOO" eq_refl).
Defined.

(** ** One iteration of the loop *)

Section Iteration.

Variable specs : list (string * Spec).
Variable env : gmap string value.
Variable options : Options.
Variable b : bool.
Variable st : State.
Variable specKey : string.
Variable spec : Spec.
Hypothesis Hspec : lookupSpec specs specKey = Some spec.

Lemma processKey_defer :
  b = false -> is_Some (requiredWhen spec) ->
  processKey specs env options b st specKey =
    ({| output := output st; errors := errors st;
        deferKeys := (deferKeys st ++ [specKey])%list;
        hasDeferments := true; trace := trace st |}, Normal).
Proof.
  intros -> Hrw. unfold processKey. rewrite Hspec.
  rewrite (bool_decide_eq_true_2 _ Hrw). reflexivity.
Qed.

Lemma processKey_enter :
  validating b spec ->
  negb b && bool_decide (is_Some (requiredWhen spec)) = false.
Proof.
  intros [->|Hrw]; [reflexivity|]. rewrite Hrw.
  rewrite andb_false_r. reflexivity.
Qed.

Lemma processKey_ok v :
  validating b spec -> attempt spec env specKey = Ok v ->
  processKey specs env options b st specKey =
    ({| output := <[specKey := v]> (output st); errors := errors st;
        deferKeys := deferKeys st; hasDeferments := hasDeferments st;
        trace := (trace st
                  ++ [EvValidate specKey (getRawValue spec env specKey)])%list |},
     Normal).
Proof.
  intros Hval Hv. unfold processKey. rewrite Hspec.
  rewrite (processKey_enter Hval). rewrite Hv. reflexivity.
Qed.

Lemma processKey_fail e :
  validating b spec -> attempt spec env specKey = Throw e ->
  processKey specs env options b st specKey =
    match requiredWhen spec with
    | Some rw =>
        match rw (output st) with
        | Throw e' => (caught spec env st specKey, Abrupt e')
        | Ok r =>
            if truthy r
            then recordOrThrow options (caught spec env st specKey) specKey e
            else (caught spec env st specKey, Normal)
        end
    | None => recordOrThrow options (caught spec env st specKey) specKey e
    end.
Proof.
  intros Hval He. unfold processKey, caught. rewrite Hspec.
  rewrite (processKey_enter Hval). rewrite He.
  destruct (requiredWhen spec) as [rw|]; [|reflexivity]. simpl.
  destruct (rw (output st)) as [r|e']; [|reflexivity].
  destruct (truthy r); reflexivity.
Qed.

End Iteration.

(** ** The validation engine *)

Lemma attempt_defined spec env specKey :
  getRawValue spec env specKey <> VUndefined ->
  getRawValue spec env specKey <> testOnlySymbol ->
  attempt spec env specKey
    = validateVar (Some spec) specKey (getRawValue spec env specKey).
Proof.
  intros Hundef Hsym. unfold attempt, assertTestOnlySymbol, validate.
  rewrite (bool_decide_eq_false_2 _ Hsym). simpl.
  rewrite (bool_decide_eq_false_2 _ Hundef). reflexivity.
Qed.

Lemma attempt_undefined spec env specKey :
  getRawValue spec env specKey = VUndefined ->
  attempt spec env specKey
    = if usingFalsyDefault spec env VUndefined then Ok VUndefined
      else Throw (EnvMissingError (Msg (formatSpecDescription spec))).
Proof.
  intros Hraw. unfold attempt, assertTestOnlySymbol, validate. rewrite Hraw.
  simpl. destruct (usingFalsyDefault spec env VUndefined); reflexivity.
Qed.

Lemma attempt_sentinel spec env specKey :
  getRawValue spec env specKey = testOnlySymbol ->
  attempt spec env specKey
    = Throw (EnvMissingError (Msg (formatSpecDescription spec))).
Proof.
  intros Hraw. unfold attempt, assertTestOnlySymbol. rewrite Hraw. reflexivity.
Qed.

Lemma validateVar_accepts spec name raw parse v :
  _parse spec = Some parse -> parse raw = Ok v ->
  choicesAdmit (choices spec) v -> looseNull v = false ->
  validateVar (Some spec) name raw = Ok v.
Proof.
  intros Hparse Hv Hadmit Hnull. unfold validateVar. rewrite Hparse.
  simpl. rewrite Hv. simpl.
  destruct (choices spec) as [|items|other]; simpl in *.
  - rewrite Hnull. reflexivity.
  - rewrite Hadmit. simpl. rewrite Hnull. reflexivity.
  - rewrite Hadmit. simpl. rewrite Hnull. reflexivity.
Qed.

(** C7, as stated, fails: the default goes through [_parse] and the
    [choices] check like any other raw value.  With [default: ''] and
    [choices: ['a', 'b']] the raw value equals the default and an
    invalid-value error is recorded; with [default: 0] and a parse
    function that takes strings only, likewise.  In both runs the output
    has no entry for the key. *)
Lemma C7_counterexample :
  let spec1 := specOf identity (ChoicesArray [VStr "a"; VStr "b"])
                      (Some (VStr "")) in
  let spec2 := specOf stringsOnly ChoicesAbsent (Some (VNum 0)) in
  (getRawValue spec1 ∅ "FOO" = prop (default spec1) /\
   validateSpecsRun [("FOO", spec1)] ∅ collecting []
     = Some ([EvValidate "FOO" (VStr "")],
             Ok (∅, {[ "FOO" := EnvError (MsgNotInChoices (VStr "")
                                           [VStr "a"; VStr "b"]) ]}))) /\
  (getRawValue spec2 ∅ "FOO" = prop (default spec2) /\
   validateSpecsRun [("FOO", spec2)] ∅ collecting []
     = Some ([EvValidate "FOO" (VNum 0)],
             Ok (∅, {[ "FOO" := EnvError (Msg "Not a string") ]}))).
Proof. vm_compute. repeat split; reflexivity. Qed.

(** C7 (amended): when the resolved raw value strictly equals the
    declared [default] and either is [undefined], or is a value other
    than [null] and the sentinel that [_parse] returns unchanged and
    that the [choices] check lets through (as [0], [''] and [false]
    are for a parse function of their type), then the validation raises
    no error and the loop body maps the key to exactly that value,
    leaving the error map as it was. *)
Theorem C7_default_kept specs env options b st specKey spec d :
  lookupSpec specs specKey = Some spec ->
  validating b spec ->
  default spec = Some d ->
  getRawValue spec env specKey = d ->
  (d = VUndefined \/
   (d <> testOnlySymbol /\ looseNull d = false /\
    exists parse, _parse spec = Some parse /\ parse d = Ok d /\
                  choicesAdmit (choices spec) d)) ->
  attempt spec env specKey = Ok d /\
  exists st',
    processKey specs env options b st specKey = (st', Normal) /\
    output st' = <[specKey := d]> (output st) /\
    errors st' = errors st.
Proof.
  intros Hspec Hval Hdef Hraw Hd.
  assert (Hok : attempt spec env specKey = Ok d).
  { destruct Hd as [->|(Hsym & Hnull & parse & Hparse & Hp & Hadmit)].
    - rewrite (attempt_undefined _ _ _ Hraw).
      unfold usingFalsyDefault. rewrite Hdef. reflexivity.
    - rewrite attempt_defined; rewrite Hraw; try assumption.
      + eapply validateVar_accepts; eauto.
      + intros ->. discriminate. }
  split; [exact Hok|].
  rewrite (processKey_ok _ _ _ _ _ _ _ Hspec _ Hval Hok).
  eexists; split; [reflexivity|]. simpl. auto.
Qed.

Lemma C7_default_kept_witness :
  let spec := specOf identity ChoicesAbsent (Some (VNum 0)) in
  let st := {| output := ∅; errors := ∅; deferKeys := [];
               hasDeferments := false; trace := [] |} in
  attempt spec ∅ "FOO" = Ok (VNum 0) /\
  exists st',
    processKey [("FOO", spec)] ∅ collecting false st "FOO" = (st', Normal) /\
    output st' = <[ "FOO" := VNum 0 ]> (output st) /\
    errors st' = errors st.
Proof.
  apply (C7_default_kept [("FOO", specOf identity ChoicesAbsent (Some (VNum 0)))]
           ∅ collecting false _ "FOO" _ (VNum 0)).
  - reflexivity.
  - right. reflexivity.
  - reflexivity.
  - reflexivity.
  - right. split; [discriminate|]. split; [reflexivity|].
    exists identity. repeat split; reflexivity.
Defined.

(** ** Configuration errors *)

Lemma validateVar_malformed spec name raw cfg :
  malformed spec name raw cfg -> validateVar (Some spec) name raw = Throw cfg.
Proof.
  intros [Hparse|parse v c Hparse Hv Hc Ht]; unfold validateVar.
  - rewrite Hparse. reflexivity.
  - rewrite Hparse. simpl. rewrite Hv. simpl. rewrite Hc. simpl.
    rewrite Ht. reflexivity.
Qed.

(** C2, as stated, fails: the [catch] block does not look at the class
    of the error.  With a reporter, the error of a spec without [_parse]
    (and of one whose [choices] is a string) is recorded in the error
    map and the run returns; with [reporter: null] and a [requiredWhen]
    that answers [false], it is dropped and the run returns as well.
    And when the key has no raw value, the spec without [_parse] gives
    the missing-value error, not the configuration error: [validate]
    does not come to [validateVar]. *)
Lemma C2_counterexample :
  let env : gmap string value := {[ "FOO" := VStr "x" ]} in
  validateSpecsRun [("FOO", noParse None)] env collecting []
    = Some ([EvValidate "FOO" (VStr "x")],
            Ok (∅, {[ "FOO" := EnvError (MsgInvalidSpec "FOO") ]})) /\
  validateSpecsRun [("FOO", specOf identity (ChoicesOther (VStr "a")) None)]
                   env collecting []
    = Some ([EvValidate "FOO" (VStr "x")],
            Ok (∅, {[ "FOO" := TypeError (MsgChoicesNotArray "FOO") ]})) /\
  validateSpecsRun [("FOO", noParse (Some never))] env throwing []
    = Some ([EvValidate "FOO" (VStr "x"); EvRequiredWhen "FOO" ∅],
            Ok (∅, ∅)) /\
  validateSpecsRun [("FOO", noParse None)] ∅ throwing []
    = Some ([EvValidate "FOO" VUndefined],
            Throw (missingError (noParse None))).
Proof. vm_compute. repeat split; reflexivity. Qed.

(** ** A pass of the loop, described key by key *)

Section Pass.

Variable specs : list (string * Spec).
Variable env : gmap string value.
Variable options : Options.

Lemma entered_app b l1 l2 :
  entered specs b (l1 ++ l2) = (entered specs b l1 ++ entered specs b l2)%list.
Proof. destruct b; simpl; [reflexivity|apply filter_app]. Qed.

Lemma queued_app b l1 l2 :
  queued specs b (l1 ++ l2) = (queued specs b l1 ++ queued specs b l2)%list.
Proof. destruct b; simpl; [reflexivity|apply filter_app]. Qed.

Lemma outputOf_app o l1 l2 :
  outputOf specs env o (l1 ++ l2)
  = outputOf specs env (outputOf specs env o l1) l2.
Proof. unfold outputOf. apply fold_left_app. Qed.

Lemma traceOf_app o l1 l2 :
  traceOf specs env o (l1 ++ l2)
  = (traceOf specs env o l1
     ++ traceOf specs env (outputOf specs env o l1) l2)%list.
Proof.
  revert o. induction l1 as [|k l1 IH]; intros o; simpl; [reflexivity|].
  rewrite IH. rewrite <- app_assoc. reflexivity.
Qed.

Lemma lookupSpec_keys specKey :
  specKey ∈ keys specs -> is_Some (lookupSpec specs specKey).
Proof.
  unfold keys, lookupSpec. intros Hin.
  apply list_elem_of_fmap in Hin as ([k spec] & -> & Hin).
  destruct (find _ specs) as [kv|] eqn:Hfind; [simpl; eauto|].
  apply list_elem_of_In in Hin.
  pose proof (find_none _ _ Hfind _ Hin) as Hno. simpl in Hno.
  rewrite bool_decide_eq_true_2 in Hno by reflexivity. discriminate.
Qed.

End Pass.

(** Closes the cases of an iteration once the outcome of each call is
    known: equations by computation, impossible outcomes by congruence. *)
Ltac step_absurd :=
  let H := fresh in
  intros ? H; decompose [and or ex] H; congruence.

Ltac step_close :=
  repeat split; try reflexivity; try assumption; try step_absurd;
  try (left; repeat split; eauto; fail);
  try (right; repeat eexists; eauto; fail);
  try (left; eexists; repeat split; eauto; fail);
  try (right; split; [step_absurd|reflexivity]).

Section Step.

Variable specs : list (string * Spec).
Variable env : gmap string value.
Variable options : Options.

Abbreviation processKey' := (processKey specs env options).
Abbreviation attemptKey' := (attemptKey specs env).
Abbreviation requiredKey' := (requiredKey specs).
Abbreviation outputStep' := (outputStep specs env).
Abbreviation eventsAt' := (eventsAt specs env).
Abbreviation recordsAt' := (recordsAt specs env options).
Abbreviation abortsAt' := (abortsAt specs env options).

(** What one iteration does, in the terms of the section above. *)
Lemma processKey_step b st k st' c :
  is_Some (lookupSpec specs k) ->
  processKey' b st k = (st', c) ->
  (b = false /\ deferred specs k /\ c = Normal /\
   output st' = output st /\ errors st' = errors st /\
   trace st' = trace st /\
   deferKeys st' = (deferKeys st ++ [k])%list /\ hasDeferments st' = true)
  \/
  ((b = true \/ ~ deferred specs k) /\
   output st' = outputStep' (output st) k /\
   trace st' = (trace st ++ eventsAt' (output st) k)%list /\
   deferKeys st' = deferKeys st /\ hasDeferments st' = hasDeferments st /\
   match c with
   | Abrupt e => abortsAt' (output st) k e /\ errors st' = errors st
   | Normal =>
       (forall e, ~ abortsAt' (output st) k e) /\
       ((exists e, recordsAt' (output st) k e /\
                   errors st' = <[k := e]> (errors st)) \/
        ((forall e, ~ recordsAt' (output st) k e) /\ errors st' = errors st))
   end).
Proof.
  intros [spec Hspec] Hstep.
  assert (Hreq : requiredKey' k = requiredWhen spec).
  { unfold requiredKey. rewrite Hspec. reflexivity. }
  assert (Hatt : attemptKey' k = attempt spec env k).
  { unfold attemptKey. rewrite Hspec. reflexivity. }
  assert (Hraw : rawKey specs env k = getRawValue spec env k).
  { unfold rawKey. rewrite Hspec. reflexivity. }
  destruct (decide (b = false /\ deferred specs k)) as [[Hb Hdef]|Hent].
  { left. unfold deferred in Hdef. rewrite Hreq in Hdef.
    rewrite (processKey_defer specs env options b st k spec Hspec Hb Hdef)
      in Hstep.
    injection Hstep as <- <-. simpl. unfold deferred. rewrite Hreq. tauto. }
  right.
  assert (Hval : validating b spec).
  { unfold validating. destruct b; [left; reflexivity|right].
    destruct (requiredWhen spec) as [rw|] eqn:Hrw; [|reflexivity].
    exfalso. apply Hent. split; [reflexivity|].
    unfold deferred. rewrite Hreq. eauto. }
  assert (Hent' : b = true \/ ~ deferred specs k).
  { destruct Hval as [->|Hnone]; [left; reflexivity|right].
    unfold deferred. rewrite Hreq, Hnone. intros [? ?]; discriminate. }
  split; [exact Hent'|].
  unfold outputStep, eventsAt, abortsAt, recordsAt, unsuppressedKey.
  rewrite Hatt, Hreq, Hraw.
  destruct (attempt spec env k) as [v|e] eqn:Hv.
  - rewrite (processKey_ok specs env options b st k spec Hspec v Hval Hv)
      in Hstep.
    injection Hstep as <- <-. simpl. step_close.
  - rewrite (processKey_fail specs env options b st k spec Hspec e Hval Hv)
      in Hstep.
    unfold recordOrThrow, caught in Hstep.
    destruct (requiredWhen spec) as [rw|] eqn:Hrw;
      [destruct (rw (output st)) as [r|e'] eqn:Hr;
         [destruct (truthy r) eqn:Ht|]|];
      try destruct (reporterIsNull options) eqn:Hnull;
      injection Hstep as <- <-; simpl; rewrite <- ?app_assoc; simpl;
      step_close.
Qed.

End Step.

(** ** The loop *)

(** Invariants of [forEach]: what holds of the keys done so far and of
    the state holds at the end of a loop that is not cut short; a loop
    that is cut short leaves the invariant at the key that threw. *)
Lemma forEach_inv (f : State -> string -> State * completion)
    (I : list string -> State -> Prop) ks st0 :
  I [] st0 ->
  (forall d k st st', I d st -> k ∈ ks -> f st k = (st', Normal) ->
                      I (d ++ [k])%list st') ->
  forall st' c, forEach f ks st0 = (st', c) ->
    match c with
    | Normal => I ks st'
    | Abrupt e =>
        exists d k rest st,
          ks = (d ++ k :: rest)%list /\ I d st /\ f st k = (st', Abrupt e)
    end.
Proof.
  intros Hinit Hstep.
  assert (Hgen : forall rest d st,
            I d st -> (forall k, k ∈ rest -> k ∈ ks) ->
            forall st' c, forEach f rest st = (st', c) ->
              match c with
              | Normal => I (d ++ rest)%list st'
              | Abrupt e =>
                  exists d' k rest' st1,
                    (d ++ rest)%list = (d' ++ k :: rest')%list /\
                    I d' st1 /\ f st1 k = (st', Abrupt e)
              end).
  { induction rest as [|k rest IH]; intros d st Hd Hsub st' c Hrun.
    - simpl in Hrun. injection Hrun as <- <-. rewrite app_nil_r. exact Hd.
    - simpl in Hrun. destruct (f st k) as [st1 [|e]] eqn:Hk.
      + assert (Hd1 : I (d ++ [k])%list st1).
        { apply (Hstep d k st st1 Hd); [|exact Hk].
          apply Hsub. constructor. }
        specialize (IH (d ++ [k])%list st1 Hd1).
        rewrite <- app_assoc in IH. simpl in IH.
        apply IH; [|exact Hrun]. intros j Hj. apply Hsub. constructor. exact Hj.
      + injection Hrun as <- <-. exists d, k, rest, st. auto. }
  intros st' c Hrun. apply (Hgen ks [] st0 Hinit (fun _ H => H) st' c Hrun).
Qed.

Lemma split_snoc {A : Type} (E : list A) k l1 j l2 :
  (E ++ [k])%list = (l1 ++ j :: l2)%list ->
  (l1 = E /\ j = k /\ l2 = []) \/
  exists l2', l2 = (l2' ++ [k])%list /\ E = (l1 ++ j :: l2')%list.
Proof.
  intros Heq. destruct l2 as [|x l2 _] using rev_ind.
  - apply app_inj_tail in Heq as [-> ->]. left. auto.
  - right. exists l2.
    change (l1 ++ j :: l2 ++ [x])%list with (l1 ++ (j :: l2) ++ [x])%list in Heq.
    rewrite app_assoc in Heq. apply app_inj_tail in Heq as [-> ->]. auto.
Qed.

Section Invariant.

Variable specs : list (string * Spec).
Variable env : gmap string value.
Variable options : Options.

Abbreviation outputOf' := (outputOf specs env).
Abbreviation traceOf' := (traceOf specs env).
Abbreviation recorded' := (recorded specs env options).
Abbreviation noAbort' := (noAbort specs env options).

Lemma recorded_nil o k e : ~ recorded' o [] k e.
Proof. intros (l1 & l2 & Heq & _). destruct l1; discriminate. Qed.

Lemma noAbort_nil o : noAbort' o [].
Proof. intros l1 k l2 e Heq. destruct l1; discriminate. Qed.

Lemma recorded_snoc o E k j e :
  recorded' o (E ++ [k]) j e <->
  recorded' o E j e \/
  (j = k /\ recordsAt specs env options (outputOf' o E) k e).
Proof.
  split.
  - intros (l1 & l2 & Heq & Hrec).
    apply split_snoc in Heq as [(-> & -> & ->)|(l2' & -> & ->)].
    + right. auto.
    + left. exists l1, l2'. auto.
  - intros [(l1 & l2 & -> & Hrec)|[-> Hrec]].
    + exists l1, (l2 ++ [k])%list. rewrite <- app_assoc. auto.
    + exists E, []. auto.
Qed.

Lemma noAbort_snoc o E k :
  noAbort' o E ->
  (forall e, ~ abortsAt specs env options (outputOf' o E) k e) ->
  noAbort' o (E ++ [k]).
Proof.
  intros HE Hk l1 j l2 e Heq.
  apply split_snoc in Heq as [(-> & -> & ->)|(l2' & -> & ->)].
  - apply Hk.
  - apply (HE l1 j l2' e). reflexivity.
Qed.

Lemma entered_enter b k :
  b = true \/ ~ deferred specs k ->
  entered specs b [k] = [k] /\ queued specs b [k] = [].
Proof.
  intros [->|Hk]; [auto|]. destruct b; [auto|]. simpl.
  rewrite filter_cons_True by exact Hk.
  rewrite filter_cons_False by tauto. auto.
Qed.

Lemma entered_queue b k :
  b = false -> deferred specs k ->
  entered specs b [k] = [] /\ queued specs b [k] = [k].
Proof.
  intros -> Hk. simpl. rewrite filter_cons_False by tauto.
  rewrite filter_cons_True by exact Hk. auto.
Qed.

Variable b : bool.
Variable st0 : State.

Lemma PassInv_init : PassInv specs env options b st0 [] st0.
Proof.
  split.
  - destruct b; reflexivity.
  - destruct b; simpl; rewrite app_nil_r; reflexivity.
  - destruct b; simpl; rewrite app_nil_r; reflexivity.
  - destruct b; simpl; rewrite orb_false_r; reflexivity.
  - destruct b; apply noAbort_nil.
  - auto.
  - intros k e Hrec. destruct b; apply recorded_nil in Hrec; contradiction.
Qed.

Lemma PassInv_step done k st st' :
  PassInv specs env options b st0 done st -> is_Some (lookupSpec specs k) ->
  processKey specs env options b st k = (st', Normal) ->
  PassInv specs env options b st0 (done ++ [k]) st'.
Proof.
  intros [Hout Htr Hdk Hhd Hna Hin Hof] Hk Hstep.
  destruct (processKey_step specs env options b st k st' Normal Hk Hstep)
    as [(Hb & Hdef & _ & Ho & He & Ht & Hd & Hh)
       |(Hent & Ho & Ht & Hd & Hh & Hnab & Herr)].
  - destruct (entered_queue b k Hb Hdef) as [Hen Hqu].
    split; rewrite ?entered_app, ?queued_app, ?Hen, ?Hqu, ?app_nil_r.
    + congruence.
    + congruence.
    + rewrite Hd, Hdk, app_assoc. reflexivity.
    + rewrite Hh. rewrite bool_decide_eq_true_2.
      * rewrite orb_true_r. reflexivity.
      * intros Heq. apply app_eq_nil in Heq as [_ Heq]. discriminate.
    + exact Hna.
    + intros j e. rewrite He. apply Hin.
    + intros j e. rewrite He. apply Hof.
  - destruct (entered_enter b k Hent) as [Hen Hqu].
    split; rewrite ?entered_app, ?queued_app, ?Hen, ?Hqu, ?app_nil_r.
    + rewrite outputOf_app, <- Hout. exact Ho.
    + rewrite traceOf_app, <- Hout. simpl. rewrite app_nil_r.
      rewrite app_assoc, <- Htr. exact Ht.
    + congruence.
    + congruence.
    + apply noAbort_snoc; [exact Hna|]. rewrite <- Hout. exact Hnab.
    + intros j e Hj. rewrite recorded_snoc, <- Hout.
      destruct Herr as [(e1 & Hrec & He)|(_ & He)]; rewrite He in Hj.
      * destruct (decide (k = j)) as [->|Hne].
        -- rewrite lookup_insert_eq in Hj. injection Hj as <-. auto.
        -- rewrite lookup_insert_ne in Hj by exact Hne.
           destruct (Hin j e Hj); auto.
      * destruct (Hin j e Hj); auto.
    + intros j e Hj. rewrite recorded_snoc, <- Hout in Hj.
      destruct Herr as [(e1 & Hrec & He)|(Hno & He)]; rewrite He.
      * destruct (decide (k = j)) as [->|Hne].
        -- rewrite lookup_insert_eq. f_equal.
           destruct Hrec as (_ & Hatt1 & _).
           destruct Hj as [(l1 & l2 & _ & _ & Hatt2 & _)
                          |(_ & _ & Hatt2 & _)]; congruence.
        -- rewrite lookup_insert_ne by exact Hne.
           destruct Hj as [Hj|[-> _]]; [apply Hof, Hj|contradiction].
      * destruct Hj as [Hj|[-> Hj]]; [apply Hof, Hj|].
        exfalso. apply (Hno e Hj).
Qed.

End Invariant.

Section Run.

Variable specs : list (string * Spec).
Variable env : gmap string value.
Variable options : Options.

Abbreviation attemptKey' := (attemptKey specs env).
Abbreviation outputOf' := (outputOf specs env).
Abbreviation traceOf' := (traceOf specs env).
Abbreviation eventsAt' := (eventsAt specs env).
Abbreviation recorded' := (recorded specs env options).
Abbreviation noAbort' := (noAbort specs env options).
Abbreviation abortsAt' := (abortsAt specs env options).
Abbreviation immediateKeys' := (immediateKeys specs).
Abbreviation deferredKeys' := (deferredKeys specs).
Abbreviation schedule' := (schedule specs).

Lemma forEach_pass b st0 ks st' c :
  (forall k, k ∈ ks -> is_Some (lookupSpec specs k)) ->
  forEach (processKey specs env options b) ks st0 = (st', c) ->
  match c with
  | Normal => PassInv specs env options b st0 ks st'
  | Abrupt e =>
      exists d k rest st,
        ks = (d ++ k :: rest)%list /\
        PassInv specs env options b st0 d st /\
        (b = true \/ ~ deferred specs k) /\
        output st' = output st /\
        trace st' = (trace st ++ eventsAt' (output st) k)%list /\
        abortsAt' (output st) k e
  end.
Proof.
  intros Hks Hrun.
  pose proof (forEach_inv (processKey specs env options b)
                (PassInv specs env options b st0) ks st0
                (PassInv_init specs env options b st0)) as Hinv.
  specialize (Hinv (fun d k st st1 Hd Hk Hstep =>
                      PassInv_step specs env options b st0 d k st st1
                                   Hd (Hks k Hk) Hstep) st' c Hrun).
  destruct c as [|e]; [exact Hinv|].
  destruct Hinv as (d & k & rest & st & -> & Hd & Hstep).
  exists d, k, rest, st. split; [reflexivity|]. split; [exact Hd|].
  assert (Hk : is_Some (lookupSpec specs k)).
  { apply Hks. apply elem_of_app. right. constructor. }
  destruct (processKey_step specs env options b st k st' (Abrupt e) Hk Hstep)
    as [(_ & _ & Hc & _)|(Hent & Ho & Ht & _ & _ & Hab & _)];
    [discriminate|].
  repeat split; try assumption.
  rewrite Ho. unfold outputStep.
  destruct Hab as [(_ & -> & _)|(rw & e0 & _ & -> & _)]; reflexivity.
Qed.

Lemma noAbort_app o l1 l2 :
  noAbort' o l1 -> noAbort' (outputOf' o l1) l2 -> noAbort' o (l1 ++ l2).
Proof.
  intros H1. induction l2 as [|k l2 IH] using rev_ind; intros H2.
  - rewrite app_nil_r. exact H1.
  - rewrite app_assoc. apply noAbort_snoc.
    + apply IH. intros a j c e Heq. apply (H2 a j (c ++ [k])%list e).
      rewrite Heq, <- app_assoc. reflexivity.
    + intros e. rewrite outputOf_app. apply (H2 l2 k [] e). reflexivity.
Qed.

Lemma noAbort_prefix o l1 l2 : noAbort' o (l1 ++ l2) -> noAbort' o l1.
Proof.
  intros H a j c e Heq. apply (H a j (c ++ l2)%list e).
  rewrite Heq, <- app_assoc. reflexivity.
Qed.

Lemma keys_lookup k : k ∈ keys specs -> is_Some (lookupSpec specs k).
Proof. apply lookupSpec_keys. Qed.

Lemma deferredKeys_lookup k :
  k ∈ deferredKeys' -> is_Some (lookupSpec specs k).
Proof.
  unfold deferredKeys. intros Hk. apply list_elem_of_filter in Hk as [_ Hk].
  apply keys_lookup, Hk.
Qed.

(** The two activations of [validateSpecs], unfolded. *)
Lemma validateSpecs_unfold fuel tr0 :
  validateSpecs (S (S fuel)) specs env [] ∅ options tr0 =
    match forEach (processKey specs env options false) (keys specs)
                  (initial tr0) with
    | (st, Abrupt e) => Some (trace st, Throw e)
    | (st, Normal) =>
        if hasDeferments st && bool_decide (0 < length (deferKeys st))
        then
          match forEach (processKey specs env options true) (deferKeys st)
                        {| output := output st; errors := ∅;
                           deferKeys := deferKeys st;
                           hasDeferments := false; trace := trace st |} with
          | (st2, Abrupt e) => Some (trace st2, Throw e)
          | (st2, Normal) =>
              if hasDeferments st2
                 && bool_decide (0 < length (deferKeys st2))
              then validateSpecs fuel specs env (deferKeys st2) (output st2)
                                 options (trace st2)
              else Some (trace st2, Ok (output st2, errors st2))
          end
        else Some (trace st, Ok (output st, errors st))
    end.
Proof.
  cbn [validateSpecs]. simpl length.
  rewrite bool_decide_eq_false_2 by lia.
  change {| output := ∅; errors := ∅; deferKeys := [];
            hasDeferments := false; trace := tr0 |} with (initial tr0).
  destruct (forEach _ (keys specs) (initial tr0)) as [st [|e]];
    [|reflexivity].
  destruct (hasDeferments st && bool_decide (0 < length (deferKeys st)))
    eqn:Hmore; [|reflexivity].
  apply andb_true_iff in Hmore as [_ Hlen]. rewrite Hlen. reflexivity.
Qed.

End Run.

Section RunFacts.

Variable specs : list (string * Spec).
Variable env : gmap string value.
Variable options : Options.

Abbreviation outputOf' := (outputOf specs env).
Abbreviation traceOf' := (traceOf specs env).
Abbreviation recorded' := (recorded specs env options).
Abbreviation noAbort' := (noAbort specs env options).
Abbreviation abortsAt' := (abortsAt specs env options).
Abbreviation immediateKeys' := (immediateKeys specs).
Abbreviation deferredKeys' := (deferredKeys specs).
Abbreviation schedule' := (schedule specs).

Lemma traceOf_snoc o d k :
  traceOf' o (d ++ [k])
  = (traceOf' o d ++ eventsAt specs env (outputOf' o d) k)%list.
Proof. rewrite traceOf_app. simpl. rewrite app_nil_r. reflexivity. Qed.

(** A second pass does not ask for a third. *)
Lemma second_pass_last st1 ks st2 :
  (forall k, k ∈ ks -> is_Some (lookupSpec specs k)) ->
  hasDeferments st1 = false ->
  forEach (processKey specs env options true) ks st1 = (st2, Normal) ->
  hasDeferments st2 = false.
Proof.
  intros Hks Hno Hrun.
  pose proof (forEach_pass specs env options true st1 ks st2 Normal Hks Hrun)
    as Hinv.
  rewrite (inv_hasDeferments _ _ _ _ _ _ _ Hinv), Hno. reflexivity.
Qed.

(** Fuel: two activations are all a run from the defaults needs. *)
Lemma validateSpecs_enough fuel tr0 :
  validateSpecs (S (S fuel)) specs env [] ∅ options tr0
  = validateSpecsRun specs env options tr0.
Proof.
  unfold validateSpecsRun. rewrite !validateSpecs_unfold.
  destruct (forEach _ (keys specs) (initial tr0)) as [st [|e]] eqn:H1;
    [|reflexivity].
  destruct (hasDeferments st && bool_decide (0 < length (deferKeys st)))
    eqn:Hmore; [|reflexivity].
  pose proof (forEach_pass specs env options false (initial tr0) (keys specs)
                st Normal (keys_lookup specs) H1) as Hinv1.
  assert (Hdk : deferKeys st = deferredKeys').
  { rewrite (inv_deferKeys _ _ _ _ _ _ _ Hinv1). reflexivity. }
  destruct (forEach _ (deferKeys st) _) as [st2 [|e]] eqn:H2; [|reflexivity].
  rewrite Hdk in H2.
  assert (Hh2 : hasDeferments st2 = false).
  { eapply second_pass_last; [apply (deferredKeys_lookup specs)| |exact H2].
    reflexivity. }
  rewrite Hh2. reflexivity.
Qed.

Lemma errors_from_empty b st0 ks st :
  errors st0 = ∅ ->
  PassInv specs env options b st0 ks st ->
  forall k e, errors st !! k = Some e <->
              recorded' (output st0) (entered specs b ks) k e.
Proof.
  intros Hempty Hinv k e. split.
  - intros Hk. destruct (inv_errors_in _ _ _ _ _ _ _ Hinv k e Hk) as [H0|H];
      [|exact H].
    rewrite Hempty, lookup_empty in H0. discriminate.
  - apply (inv_errors_of _ _ _ _ _ _ _ Hinv).
Qed.

Theorem validateSpecsRun_cases tr0 :
  (exists tr out errs,
     validateSpecsRun specs env options tr0 = Some (tr, Ok (out, errs)) /\
     Returned specs env options tr0 tr out errs) \/
  (exists tr e,
     validateSpecsRun specs env options tr0 = Some (tr, Throw e) /\
     Thrown specs env options tr0 tr e).
Proof.
  unfold validateSpecsRun. rewrite validateSpecs_unfold.
  destruct (forEach _ (keys specs) (initial tr0)) as [st [|e]] eqn:H1.
  - pose proof (forEach_pass specs env options false (initial tr0)
                  (keys specs) st Normal (keys_lookup specs) H1) as Hinv1.
    pose proof (inv_output _ _ _ _ _ _ _ Hinv1) as Ho1.
    pose proof (inv_trace _ _ _ _ _ _ _ Hinv1) as Ht1.
    pose proof (inv_deferKeys _ _ _ _ _ _ _ Hinv1) as Hd1.
    pose proof (inv_hasDeferments _ _ _ _ _ _ _ Hinv1) as Hh1.
    pose proof (inv_noAbort _ _ _ _ _ _ _ Hinv1) as Hn1.
    simpl in Ho1, Ht1, Hd1, Hh1, Hn1.
    fold immediateKeys' in Ho1, Ht1, Hn1. fold deferredKeys' in Hd1, Hh1.
    rewrite Hd1, Hh1.
    destruct deferredKeys' as [|k0 dk] eqn:Hdk.
    + left. simpl. exists (trace st), (output st), (errors st).
      split; [reflexivity|]. unfold Returned, schedule, lastPass, lastBase.
      rewrite Hdk, app_nil_r. repeat split; try assumption.
      * apply (errors_from_empty false (initial tr0) (keys specs) st eq_refl
                 Hinv1 k e).
      * apply (errors_from_empty false (initial tr0) (keys specs) st eq_refl
                 Hinv1 k e).
    + rewrite bool_decide_eq_true_2 by discriminate.
      rewrite bool_decide_eq_true_2 by (simpl; lia). simpl andb. cbv iota.
      set (st1 := {| output := output st; errors := ∅;
                     deferKeys := k0 :: dk; hasDeferments := false;
                     trace := trace st |}).
      assert (Hks : forall k, k ∈ k0 :: dk -> is_Some (lookupSpec specs k)).
      { rewrite <- Hdk. apply deferredKeys_lookup. }
      destruct (forEach _ (k0 :: dk) st1) as [st2 [|e]] eqn:H2.
      * pose proof (forEach_pass specs env options true st1 (k0 :: dk) st2
                      Normal Hks H2) as Hinv2.
        pose proof (inv_output _ _ _ _ _ _ _ Hinv2) as Ho2.
        pose proof (inv_trace _ _ _ _ _ _ _ Hinv2) as Ht2.
        pose proof (inv_noAbort _ _ _ _ _ _ _ Hinv2) as Hn2.
        simpl in Ho2, Ht2, Hn2. rewrite Ho1 in Ho2, Ht2, Hn2.
        rewrite (second_pass_last st1 (k0 :: dk) st2 Hks eq_refl H2).
        left. simpl. exists (trace st2), (output st2), (errors st2).
        split; [reflexivity|]. unfold Returned, schedule, lastPass, lastBase.
        rewrite Hdk. repeat split.
        -- rewrite Ht2, Ht1, traceOf_app, app_assoc. reflexivity.
        -- rewrite Ho2, outputOf_app. reflexivity.
        -- apply noAbort_app; assumption.
        -- intros Hk.
           apply (errors_from_empty true st1 (k0 :: dk) st2 eq_refl Hinv2)
             in Hk. simpl in Hk. rewrite Ho1 in Hk. exact Hk.
        -- intros Hk.
           apply (errors_from_empty true st1 (k0 :: dk) st2 eq_refl Hinv2).
           simpl. rewrite Ho1. exact Hk.
      * right. exists (trace st2), e. split; [reflexivity|].
        pose proof (forEach_pass specs env options true st1 (k0 :: dk) st2
                      (Abrupt e) Hks H2)
          as (d & k & rest & st3 & Heq & Hinv3 & _ & Ho3 & Ht3 & Hab).
        pose proof (inv_output _ _ _ _ _ _ _ Hinv3) as Ho.
        pose proof (inv_trace _ _ _ _ _ _ _ Hinv3) as Ht.
        pose proof (inv_noAbort _ _ _ _ _ _ _ Hinv3) as Hn.
        simpl in Ho, Ht, Hn. rewrite Ho1 in Ho, Ht, Hn.
        exists (immediateKeys' ++ d)%list, k, rest.
        unfold schedule. rewrite Hdk, Heq, <- app_assoc.
        split; [reflexivity|]. split; [|split].
        -- rewrite Ht3, Ht, Ht1, Ho. rewrite <- (app_assoc _ d).
           rewrite (traceOf_app specs env ∅ immediateKeys'), traceOf_snoc.
           rewrite !app_assoc. reflexivity.
        -- apply noAbort_app; assumption.
        -- rewrite outputOf_app, <- Ho. exact Hab.
  - right. exists (trace st), e. split; [reflexivity|].
    pose proof (forEach_pass specs env options false (initial tr0)
                  (keys specs) st (Abrupt e) (keys_lookup specs) H1)
      as (d & k & rest & st3 & Heq & Hinv3 & Hent & Ho3 & Ht3 & Hab).
    pose proof (inv_output _ _ _ _ _ _ _ Hinv3) as Ho.
    pose proof (inv_trace _ _ _ _ _ _ _ Hinv3) as Ht.
    pose proof (inv_noAbort _ _ _ _ _ _ _ Hinv3) as Hn.
    simpl in Ho, Ht, Hn.
    destruct Hent as [?|Hk]; [discriminate|].
    exists (filter (fun k => ~ deferred specs k) d), k,
           (filter (fun k => ~ deferred specs k) rest ++ deferredKeys')%list.
    split; [|split; [|split]].
    + unfold schedule, immediateKeys. rewrite Heq, filter_app.
      rewrite filter_cons_True by exact Hk. rewrite <- app_assoc.
      reflexivity.
    + rewrite Ht3, Ht, Ho, traceOf_snoc, app_assoc. reflexivity.
    + exact Hn.
    + rewrite <- Ho. exact Hab.
Qed.

End RunFacts.

(** ** Reading a trace *)

Section Traces.

Variable specs : list (string * Spec).
Variable env : gmap string value.

Abbreviation attemptKey' := (attemptKey specs env).
Abbreviation outputOf' := (outputOf specs env).
Abbreviation outputStep' := (outputStep specs env).
Abbreviation traceOf' := (traceOf specs env).
Abbreviation eventsAt' := (eventsAt specs env).

Lemma validatedKeys_app tr1 tr2 :
  validatedKeys (tr1 ++ tr2) = (validatedKeys tr1 ++ validatedKeys tr2)%list.
Proof. apply omap_app. Qed.

Lemma validatedKeys_eventsAt o k : validatedKeys (eventsAt' o k) = [k].
Proof.
  unfold eventsAt. destruct (attemptKey' k), (requiredKey specs k);
    reflexivity.
Qed.

Lemma validatedKeys_traceOf o ks : validatedKeys (traceOf' o ks) = ks.
Proof.
  revert o. induction ks as [|k ks IH]; intros o; cbn [traceOf];
    [reflexivity|].
  rewrite validatedKeys_app, validatedKeys_eventsAt, IH. reflexivity.
Qed.

Lemma traceOf_no_reporter o ks errs obj :
  EvReporter errs obj ∉ traceOf' o ks.
Proof.
  revert o. induction ks as [|k ks IH]; intros o; cbn [traceOf].
  - apply not_elem_of_nil.
  - rewrite elem_of_app. intros [Hk|Hks]; [|exact (IH _ Hks)].
    unfold eventsAt in Hk.
    destruct (attemptKey' k), (requiredKey specs k);
      repeat (apply elem_of_cons in Hk as [Hk|Hk]; [discriminate|]);
      apply not_elem_of_nil in Hk; exact Hk.
Qed.

(** A call of [requiredWhen] in the trace of a pass: the key is
    deferred, its [try] block threw, and the argument is the output
    of the keys before it. *)
Lemma requiredWhen_in_traceOf o ks k partial :
  EvRequiredWhen k partial ∈ traceOf' o ks <->
  exists l1 l2, ks = (l1 ++ k :: l2)%list /\ partial = outputOf' o l1 /\
                deferred specs k /\ exists e, attemptKey' k = Throw e.
Proof.
  revert o. induction ks as [|j ks IH]; intros o; cbn [traceOf].
  - split.
    + intros H. apply not_elem_of_nil in H. contradiction.
    + intros (l1 & l2 & Heq & _). destruct l1; discriminate.
  - rewrite elem_of_app, IH. split.
    + intros [Hj|(l1 & l2 & -> & -> & Hd & He)].
      * exists [], ks. unfold eventsAt, deferred in *.
        destruct (attemptKey' j) as [v|e] eqn:Hatt,
                 (requiredKey specs j) as [rw|] eqn:Hrw;
          repeat (apply elem_of_cons in Hj as [Hj|Hj];
                  [try discriminate|]);
          try (apply not_elem_of_nil in Hj; contradiction).
        injection Hj as -> ->. rewrite Hrw, Hatt. eauto 7.
      * exists (j :: l1), l2. auto.
    + intros (l1 & l2 & Heq & -> & Hd & e & He).
      destruct l1 as [|j' l1]; simpl in Heq; injection Heq as <- ->.
      * left. unfold eventsAt, deferred in *. rewrite He.
        destruct Hd as [rw ->]. apply elem_of_cons. right.
        apply elem_of_cons. left. reflexivity.
      * right. exists l1, l2. eauto.
Qed.

Lemma outputOf_snoc o ks k :
  outputOf' o (ks ++ [k]) = outputStep' (outputOf' o ks) k.
Proof. rewrite outputOf_app. reflexivity. Qed.

(** An entry of the output of a pass is the validated value of one
    of its keys, or was there before. *)
Lemma outputOf_lookup o ks j v :
  outputOf' o ks !! j = Some v ->
  (j ∈ ks /\ attemptKey' j = Ok v) \/ o !! j = Some v.
Proof.
  induction ks as [|k ks IH] using rev_ind; [auto|].
  rewrite outputOf_snoc. unfold outputStep at 1.
  destruct (attemptKey' k) as [w|e] eqn:Hk.
  - destruct (decide (k = j)) as [->|Hne].
    + rewrite lookup_insert_eq. intros [= ->]. left.
      split; [|exact Hk]. apply elem_of_app. right. constructor.
    + rewrite lookup_insert_ne by exact Hne. intros Hj.
      destruct (IH Hj) as [[Hin Hv]|Ho]; [left|right; exact Ho].
      split; [|exact Hv]. apply elem_of_app. left. exact Hin.
  - intros Hj. destruct (IH Hj) as [[Hin Hv]|Ho]; [left|right; exact Ho].
    split; [|exact Hv]. apply elem_of_app. left. exact Hin.
Qed.

Lemma outputOf_validated o ks j v :
  j ∈ ks -> attemptKey' j = Ok v -> outputOf' o ks !! j = Some v.
Proof.
  intros Hin Hv. induction ks as [|k ks IH] using rev_ind.
  - apply not_elem_of_nil in Hin. contradiction.
  - rewrite outputOf_snoc. unfold outputStep at 1.
    destruct (decide (k = j)) as [->|Hne].
    + rewrite Hv. apply lookup_insert_eq.
    + apply elem_of_app in Hin as [Hin|Hin].
      * destruct (attemptKey' k); [|apply IH, Hin].
        rewrite lookup_insert_ne by exact Hne. apply IH, Hin.
      * apply elem_of_cons in Hin as [->|Hin]; [contradiction|].
        apply not_elem_of_nil in Hin. contradiction.
Qed.

Lemma outputOf_empty ks j v :
  outputOf' ∅ ks !! j = Some v <-> j ∈ ks /\ attemptKey' j = Ok v.
Proof.
  split.
  - intros Hj. destruct (outputOf_lookup ∅ ks j v Hj) as [H|H]; [exact H|].
    rewrite lookup_empty in H. discriminate.
  - intros [Hin Hv]. apply outputOf_validated; assumption.
Qed.

(** The schedule lists the keys of the spec map, each as often. *)
Lemma schedule_keys : schedule specs ≡ₚ keys specs.
Proof.
  unfold schedule, immediateKeys, deferredKeys.
  rewrite Permutation_app_comm. apply filter_app_complement.
Qed.

Lemma schedule_NoDup : NoDup (keys specs) -> NoDup (schedule specs).
Proof. intros H. rewrite schedule_keys. exact H. Qed.

Lemma immediate_not_deferred k :
  k ∈ immediateKeys specs -> ~ deferred specs k.
Proof.
  unfold immediateKeys. intros Hk. apply list_elem_of_filter in Hk as [Hk _].
  exact Hk.
Qed.

Lemma deferredKeys_deferred k :
  k ∈ deferredKeys specs <-> deferred specs k /\ k ∈ keys specs.
Proof. unfold deferredKeys. apply list_elem_of_filter. Qed.

Lemma lookupSpec_in k spec :
  lookupSpec specs k = Some spec -> k ∈ keys specs.
Proof.
  unfold lookupSpec, keys. intros Hk.
  destruct (find _ specs) as [[k' spec']|] eqn:Hfind; [|discriminate].
  apply find_some in Hfind as [Hin Heq]. simpl in Heq.
  apply bool_decide_eq_true_1 in Heq as ->.
  apply list_elem_of_fmap. exists (k, spec'). split; [reflexivity|].
  apply list_elem_of_In. exact Hin.
Qed.

(** In a list without repetition a key splits the list in one way. *)
Lemma NoDup_split_unique (l : list string) k a1 a2 b1 b2 :
  NoDup l -> l = (a1 ++ k :: a2)%list -> l = (b1 ++ k :: b2)%list ->
  a1 = b1 /\ a2 = b2.
Proof.
  intros Hnd -> Heq. revert b1 Heq Hnd.
  induction a1 as [|x a1 IH]; intros [|y b1] Heq Hnd; simpl in *.
  - injection Heq as ->. auto.
  - injection Heq as -> ->. apply NoDup_cons in Hnd as [Hnot _].
    exfalso. apply Hnot. apply elem_of_app. right. constructor.
  - injection Heq as -> <-. apply NoDup_cons in Hnd as [Hnot _].
    exfalso. apply Hnot. apply elem_of_app. right. constructor.
  - injection Heq as -> Heq. apply NoDup_cons in Hnd as [_ Hnd].
    destruct (IH b1 Heq Hnd) as [-> ->]. auto.
Qed.

End Traces.

(** ** Runs of [validateSpecs] *)

Section Runs.

Variable specs : list (string * Spec).
Variable env : gmap string value.
Variable options : Options.

Abbreviation run := (validateSpecsRun specs env options []).

Lemma run_inv tr r :
  run = Some (tr, r) ->
  match r with
  | Ok (out, errs) => Returned specs env options [] tr out errs
  | Throw e => Thrown specs env options [] tr e
  end.
Proof.
  intros Hrun.
  destruct (validateSpecsRun_cases specs env options [])
    as [(tr' & out & errs & Heq & H)|(tr' & e & Heq & H)];
    rewrite Heq in Hrun; injection Hrun as <- <-; exact H.
Qed.

Lemma run_total : exists tr r, run = Some (tr, r).
Proof.
  destruct (validateSpecsRun_cases specs env options [])
    as [(tr & out & errs & Heq & _)|(tr & e & Heq & _)]; eauto.
Qed.

(** The trace of a run is the trace of a beginning of the schedule,
    and of all of it when the run returns. *)
Lemma run_trace tr r :
  run = Some (tr, r) ->
  exists done rest,
    schedule specs = (done ++ rest)%list /\
    tr = traceOf specs env ∅ done /\
    noAbort specs env options ∅ (removelast done) /\
    (forall out errs, r = Ok (out, errs) -> rest = []).
Proof.
  intros Hrun. apply run_inv in Hrun. destruct r as [[out errs]|e].
  - destruct Hrun as (-> & _ & Hna & _).
    exists (schedule specs), []. rewrite app_nil_r.
    repeat split; try reflexivity.
    destruct (schedule specs) as [|k l _] using rev_ind; [exact Hna|].
    rewrite removelast_last. eapply noAbort_prefix, Hna.
  - destruct Hrun as (d & k & rest & Hs & -> & Hna & _).
    exists (d ++ [k])%list, rest. rewrite <- app_assoc.
    rewrite removelast_last.
    repeat split; try assumption. intros out errs [=].
Qed.

(** Every call of [requiredWhen] in a run is made for a deferred key
    whose [try] block threw, with the output of the immediate keys and
    of the deferred keys queued before it. *)
Lemma run_requiredWhen tr r k partial :
  NoDup (keys specs) ->
  run = Some (tr, r) ->
  EvRequiredWhen k partial ∈ tr ->
  exists before after e,
    deferredKeys specs = (before ++ k :: after)%list /\
    partial = outputOf specs env ∅ (immediateKeys specs ++ before) /\
    attemptKey specs env k = Throw e.
Proof.
  intros Hnd Hrun Hev.
  destruct (run_trace tr r Hrun) as (done & rest & Hs & -> & _).
  apply requiredWhen_in_traceOf in Hev
    as (l1 & l2 & -> & -> & Hdef & e & He).
  assert (Hk : k ∈ deferredKeys specs).
  { apply deferredKeys_deferred. split; [exact Hdef|].
    rewrite <- schedule_keys, Hs. rewrite !elem_of_app.
    left. right. constructor. }
  apply list_elem_of_split in Hk as (before & after & Hd).
  exists before, after, e. split; [exact Hd|]. split; [|exact He].
  f_equal.
  assert (H1 : schedule specs
               = ((immediateKeys specs ++ before) ++ k :: after)%list).
  { unfold schedule. rewrite Hd, <- app_assoc. reflexivity. }
  assert (H2 : schedule specs = (l1 ++ k :: (l2 ++ rest))%list).
  { rewrite Hs, <- app_assoc. reflexivity. }
  destruct (NoDup_split_unique _ k _ _ _ _ (schedule_NoDup specs Hnd) H2 H1)
    as [-> _].
  reflexivity.
Qed.

End Runs.

(** ** A key in a run *)

Lemma upTo_split k ks :
  k ∈ ks -> exists rest, ks = (upTo k ks ++ k :: rest)%list.
Proof.
  induction ks as [|j ks IH]; intros Hk.
  - apply not_elem_of_nil in Hk. contradiction.
  - cbn [upTo]. destruct (decide (j = k)) as [->|Hne].
    + rewrite bool_decide_eq_true_2 by reflexivity. exists ks. reflexivity.
    + rewrite bool_decide_eq_false_2 by exact Hne.
      apply elem_of_cons in Hk as [->|Hk]; [contradiction|].
      destruct (IH Hk) as (rest & Heq). exists rest. simpl. congruence.
Qed.

Lemma upTo_app k d rest :
  k ∉ d -> upTo k (d ++ k :: rest) = d.
Proof.
  induction d as [|j d IH]; intros Hk; cbn [upTo app].
  - rewrite bool_decide_eq_true_2 by reflexivity. reflexivity.
  - apply not_elem_of_cons in Hk as [Hne Hk].
    rewrite bool_decide_eq_false_2 by congruence. rewrite (IH Hk).
    reflexivity.
Qed.

Lemma abortsAt_fun specs env options o k e1 e2 :
  abortsAt specs env options o k e1 -> abortsAt specs env options o k e2 ->
  e1 = e2.
Proof.
  unfold abortsAt, unsuppressedKey.
  intros [(_ & H1 & U1)|(rw1 & a1 & R1 & _ & T1)]
         [(_ & H2 & U2)|(rw2 & a2 & R2 & _ & T2)].
  - congruence.
  - rewrite R2 in U1. destruct U1 as (x & Hx & _). congruence.
  - rewrite R1 in U2. destruct U2 as (x & Hx & _). congruence.
  - congruence.
Qed.

Section KeyInRun.

Variable specs : list (string * Spec).
Variable env : gmap string value.
Variable options : Options.
Hypothesis Hnd : NoDup (keys specs).

Lemma earlier_split k :
  k ∈ keys specs ->
  exists rest, schedule specs = (earlier specs k ++ k :: rest)%list.
Proof.
  intros Hk. apply upTo_split. rewrite schedule_keys. exact Hk.
Qed.

Lemma earlier_unique d k rest :
  schedule specs = (d ++ k :: rest)%list -> earlier specs k = d.
Proof.
  intros Hs. unfold earlier. rewrite Hs. apply upTo_app.
  pose proof (schedule_NoDup specs Hnd) as Hsnd. rewrite Hs in Hsnd.
  apply NoDup_app in Hsnd as (_ & Hdisj & _).
  intros Hin. apply (Hdisj k Hin). constructor.
Qed.

(** What a run does at a key it comes to: it enters the [try] block;
    it stops there with what the iteration throws, and goes on
    when the iteration throws nothing. *)
Lemma run_at_key tr r k :
  k ∈ keys specs ->
  validateSpecsRun specs env options [] = Some (tr, r) ->
  comesTo specs env options k ->
  k ∈ validatedKeys tr /\
  (forall e, abortsAt specs env options (partialAt specs env k) k e ->
     r = Throw e /\ last (validatedKeys tr) = Some k) /\
  ((forall e, ~ abortsAt specs env options (partialAt specs env k) k e) ->
   forall e, r = Throw e -> last (validatedKeys tr) <> Some k).
Proof.
  intros Hk Hrun Hcomes. unfold comesTo in Hcomes. unfold partialAt.
  destruct (earlier_split k Hk) as (rest & Hs).
  set (d := earlier specs k) in *.
  apply run_inv in Hrun. destruct r as [[out errs]|e0].
  - destruct Hrun as (-> & _ & Hna & _). simpl.
    rewrite validatedKeys_traceOf. split; [|split].
    + rewrite Hs. apply elem_of_app. right. constructor.
    + intros e Hab. exfalso. exact (Hna d k rest e Hs Hab).
    + intros _ e [=].
  - destruct Hrun as (d' & k' & rest' & Hs' & -> & Hna' & Hab'). simpl.
    rewrite validatedKeys_traceOf.
    assert (Heq : (d ++ k :: rest)%list = (d' ++ k' :: rest')%list)
      by congruence.
    apply app_eq_app in Heq as [x [[Hd Hr]|[Hd Hr]]].
    + destruct x as [|y x].
      * rewrite app_nil_r in Hd. simpl in Hr. injection Hr as <- <-.
        subst d'. split; [|split].
        -- apply elem_of_app. right. constructor.
        -- intros e Hab. rewrite last_snoc.
           rewrite (abortsAt_fun _ _ _ _ _ _ _ Hab Hab'). auto.
        -- intros Hno. exfalso. exact (Hno e0 Hab').
      * simpl in Hr. injection Hr as <- ->.
        exfalso. apply (Hcomes d' k' x e0); [exact Hd|exact Hab'].
    + destruct x as [|y x].
      * rewrite app_nil_r in Hd. simpl in Hr. injection Hr as <- <-.
        subst d'. split; [|split].
        -- apply elem_of_app. right. constructor.
        -- intros e Hab. rewrite last_snoc.
           rewrite (abortsAt_fun _ _ _ _ _ _ _ Hab Hab'). auto.
        -- intros Hno. exfalso. exact (Hno e0 Hab').
      * simpl in Hr. injection Hr as <- ->.
        split; [|split].
        -- rewrite Hd. apply elem_of_app. left.
           apply elem_of_app. right. constructor.
        -- intros e Hab. exfalso.
           apply (Hna' d k x e); [exact Hd|exact Hab].
        -- intros _ e _. rewrite last_snoc. intros [= ->].
           pose proof (schedule_NoDup specs Hnd) as Hsnd.
           rewrite Hs in Hsnd.
           apply NoDup_app in Hsnd as (_ & _ & Hsnd).
           apply NoDup_cons in Hsnd as [Hnot _]. apply Hnot.
           apply elem_of_app. right. constructor.
Qed.

(** The partial output a key of the last pass starts from. *)
Lemma lastPass_partial k l1 l2 :
  lastPass specs = (l1 ++ k :: l2)%list ->
  outputOf specs env (lastBase specs env) l1 = partialAt specs env k.
Proof.
  unfold lastPass, lastBase, partialAt. intros Hl.
  destruct (deferredKeys specs) as [|k0 dk] eqn:Hd.
  - assert (Hs : schedule specs = (l1 ++ k :: l2)%list).
    { unfold schedule. rewrite Hd, app_nil_r. exact Hl. }
    rewrite (earlier_unique l1 k l2 Hs). reflexivity.
  - assert (Hs : schedule specs
                 = ((immediateKeys specs ++ l1) ++ k :: l2)%list).
    { unfold schedule. rewrite Hd, Hl, <- app_assoc. reflexivity. }
    rewrite (earlier_unique _ k l2 Hs). rewrite outputOf_app. reflexivity.
Qed.

(** What a run that returns holds for a key of the spec map. *)
Lemma run_returned_key tr out errs k :
  k ∈ keys specs ->
  validateSpecsRun specs env options [] = Some (tr, Ok (out, errs)) ->
  comesTo specs env options k /\
  (forall e, ~ abortsAt specs env options (partialAt specs env k) k e) /\
  (forall v, out !! k = Some v <-> attemptKey specs env k = Ok v) /\
  (forall e, errs !! k = Some e <->
             k ∈ lastPass specs /\
             recordsAt specs env options (partialAt specs env k) k e).
Proof.
  intros Hk Hrun. destruct (earlier_split k Hk) as (rest & Hs).
  apply run_inv in Hrun as (-> & -> & Hna & Herr).
  split; [|split; [|split]].
  - unfold comesTo. rewrite Hs in Hna. eapply noAbort_prefix, Hna.
  - intros e. apply (Hna _ k rest e Hs).
  - intros v. rewrite outputOf_empty. rewrite schedule_keys. tauto.
  - intros e. rewrite Herr. unfold recorded. split.
    + intros (l1 & l2 & Hl & Hrec).
      rewrite (lastPass_partial k l1 l2 Hl) in Hrec. split; [|exact Hrec].
      rewrite Hl. apply elem_of_app. right. constructor.
    + intros [Hin Hrec]. apply list_elem_of_split in Hin as (l1 & l2 & Hl).
      exists l1, l2. split; [exact Hl|].
      rewrite (lastPass_partial k l1 l2 Hl). exact Hrec.
Qed.

End KeyInRun.

Section KeyVerdict.

Variable specs : list (string * Spec).
Variable env : gmap string value.
Variable options : Options.
Hypothesis Hnd : NoDup (keys specs).

(** The calls of a key's predicate in the trace of a run: there is one
    exactly when the run entered the [try] block of the key, the key
    is deferred and the block threw, and its argument is the partial
    output of the keys before it. *)
Lemma run_requiredWhen_key tr r k partial :
  validateSpecsRun specs env options [] = Some (tr, r) ->
  EvRequiredWhen k partial ∈ tr <->
  k ∈ validatedKeys tr /\ partial = partialAt specs env k /\
  deferred specs k /\ exists e, attemptKey specs env k = Throw e.
Proof.
  intros Hrun.
  destruct (run_trace specs env options tr r Hrun)
    as (done & rest & Hs & -> & _).
  rewrite validatedKeys_traceOf, requiredWhen_in_traceOf.
  assert (Hearlier : forall l1 l2, done = (l1 ++ k :: l2)%list ->
                                   earlier specs k = l1).
  { intros l1 l2 Hd.
    apply (earlier_unique specs Hnd l1 k (l2 ++ rest)%list).
    rewrite Hs, Hd, <- app_assoc. reflexivity. }
  unfold partialAt. split.
  - intros (l1 & l2 & Hd & -> & Hdef & He).
    rewrite (Hearlier l1 l2 Hd). split; [|auto].
    rewrite Hd. apply elem_of_app. right. constructor.
  - intros (Hin & -> & Hdef & He).
    apply list_elem_of_split in Hin as (l1 & l2 & Hd).
    exists l1, l2. rewrite (Hearlier l1 l2 Hd). auto.
Qed.

(** What a run does with the error of the [try] block of a key it
    comes to. *)
Lemma run_key_error tr r k e0 :
  k ∈ keys specs ->
  attemptKey specs env k = Throw e0 ->
  validateSpecsRun specs env options [] = Some (tr, r) ->
  comesTo specs env options k ->
  k ∈ validatedKeys tr /\
  (suppressedKey specs k (partialAt specs env k) ->
     (forall e, r = Throw e -> last (validatedKeys tr) <> Some k) /\
     (forall out errs, r = Ok (out, errs) ->
        out !! k = None /\ errs !! k = None)) /\
  (unsuppressedKey specs k (partialAt specs env k) ->
   reporterIsNull options = true ->
     r = Throw e0 /\ last (validatedKeys tr) = Some k) /\
  (unsuppressedKey specs k (partialAt specs env k) ->
   reporterIsNull options = false ->
     (forall e, r = Throw e -> last (validatedKeys tr) <> Some k) /\
     (forall out errs, r = Ok (out, errs) ->
        out !! k = None /\ (k ∈ lastPass specs -> errs !! k = Some e0))).
Proof.
  intros Hk Hatt Hrun Hcomes.
  destruct (run_at_key specs env options Hnd tr r k Hk Hrun Hcomes)
    as (Hin & Hstop & Hgo).
  assert (Hout : forall out errs, r = Ok (out, errs) -> out !! k = None).
  { intros out errs ->.
    destruct (run_returned_key specs env options Hnd tr out errs k Hk Hrun)
      as (_ & _ & Ho & _).
    destruct (out !! k) as [v|] eqn:Hv; [|reflexivity].
    pose proof (proj1 (Ho v) eq_refl). congruence. }
  split; [exact Hin|]. split; [|split].
  - intros (rw & a & Hrw & Ha & Ht).
    assert (Hno : forall e, ~ abortsAt specs env options
                              (partialAt specs env k) k e).
    { intros e [(_ & _ & Hun)|(rw' & e1 & Hrw' & _ & Hthrow)].
      - unfold unsuppressedKey in Hun. rewrite Hrw in Hun.
        destruct Hun as (a' & Ha' & Ht'). congruence.
      - congruence. }
    split; [apply Hgo, Hno|].
    intros out errs Hr. split; [apply (Hout out errs Hr)|]. subst r.
    destruct (run_returned_key specs env options Hnd tr out errs k Hk Hrun)
      as (_ & _ & _ & He).
    destruct (errs !! k) as [e|] eqn:Hek; [|reflexivity].
    destruct (proj1 (He e) eq_refl) as (_ & _ & _ & Hun).
    unfold unsuppressedKey in Hun. rewrite Hrw in Hun.
    destruct Hun as (a' & Ha' & Ht'). congruence.
  - intros Hun Hnull. apply Hstop. left. auto.
  - intros Hun Hnull.
    assert (Hno : forall e, ~ abortsAt specs env options
                              (partialAt specs env k) k e).
    { intros e [(Hn & _)|(rw' & e1 & Hrw' & _ & Hthrow)]; [congruence|].
      unfold unsuppressedKey in Hun. rewrite Hrw' in Hun.
      destruct Hun as (a' & Ha' & _). congruence. }
    split; [apply Hgo, Hno|].
    intros out errs Hr. split; [apply (Hout out errs Hr)|]. subst r.
    destruct (run_returned_key specs env options Hnd tr out errs k Hk Hrun)
      as (_ & _ & _ & He).
    intros Hlast. apply He. split; [exact Hlast|].
    split; [exact Hnull|]. split; [exact Hatt|exact Hun].
Qed.

Lemma lastPass_of_deferred k :
  deferred specs k -> k ∈ keys specs -> k ∈ lastPass specs.
Proof.
  intros Hdef Hk.
  assert (Hin : k ∈ deferredKeys specs).
  { apply deferredKeys_deferred. auto. }
  unfold lastPass. destruct (deferredKeys specs); [|exact Hin].
  apply not_elem_of_nil in Hin. contradiction.
Qed.

End KeyVerdict.

(** ** The spec map of [cleanEnv] *)

Lemma keys_setKey {A : Type} key (a : A) (l : list (string * A)) :
  (l.*1 ++ [key])%list = (setKey key a l).*1 /\ key ∉ l.*1 \/
  l.*1 = (setKey key a l).*1 /\ key ∈ l.*1.
Proof.
  induction l as [|[k b] l IH]; cbn [setKey].
  - left. split; [reflexivity|]. apply not_elem_of_nil.
  - destruct (decide (k = key)) as [->|Hne].
    + rewrite bool_decide_eq_true_2 by reflexivity. right.
      split; [reflexivity|]. constructor.
    + rewrite bool_decide_eq_false_2 by exact Hne.
      rewrite !fmap_cons. cbn [fst].
      destruct IH as [[Heq Hnot]|[Heq Hin]].
      * left. rewrite <- Heq. split; [reflexivity|].
        apply not_elem_of_cons. split; [congruence|exact Hnot].
      * right. rewrite <- Heq. split; [reflexivity|]. constructor. exact Hin.
Qed.

Lemma assignAll_NoDup {A : Type} (source target : list (string * A)) :
  NoDup target.*1 -> NoDup (assignAll target source).*1.
Proof.
  revert target. induction source as [|[k a] source IH]; intros target Hnd;
    [exact Hnd|].
  unfold assignAll. simpl. apply IH.
  destruct (keys_setKey k a target) as [[<- Hnot]|[<- _]]; [|exact Hnd].
  apply NoDup_app. split; [exact Hnd|]. split.
  - intros x Hx Hk. apply list_elem_of_singleton in Hk as ->. contradiction.
  - apply NoDup_singleton.
Qed.

(** The spec map that [cleanEnv] hands to [validateSpecs] has each key
    once, as an object has. *)
Lemma extendSpecs_NoDup x y : NoDup (keys (extendSpecs x y)).
Proof.
  unfold keys, extendSpecs. apply assignAll_NoDup, assignAll_NoDup.
  constructor.
Qed.

(** ** The two passes *)

(** C5, as stated, fails: with [reporter: null] the missing-value error
    of [A] ends the run in the first pass; [B], which has no
    [requiredWhen], is never validated, and neither is the deferred
    key [C].  And with a reporter, the predicate of the deferred key
    [D] throws and ends the run before the deferred key [C] is
    validated. *)
Lemma C5_counterexample :
  let specs := [("A", plainSpec None); ("B", plainSpec None);
                ("C", plainSpec (Some always))] in
  let env : gmap string value := {[ "B" := VStr "1"; "C" := VStr "2" ]} in
  let tr := [EvValidate "A" VUndefined] in
  let specs' := [("D", plainSpec (Some failing));
                 ("C", plainSpec (Some always))] in
  let tr' := [EvValidate "D" VUndefined; EvRequiredWhen "D" ∅] in
  requiredKey specs "B" = None /\
  deferred specs "C" /\
  validateSpecsRun specs env throwing []
    = Some (tr, Throw (missingError (plainSpec None))) /\
  ("B" ∉ validatedKeys tr) /\
  ("C" ∉ validatedKeys tr) /\
  deferred specs' "C" /\
  validateSpecsRun specs' env collecting []
    = Some (tr', Throw (OtherError (Msg "predicate failed"))) /\
  ("C" ∉ validatedKeys tr').
Proof.
  simpl. split; [reflexivity|]. split; [vm_compute; eauto|].
  split; [vm_compute; reflexivity|].
  split; [intros H; apply list_elem_of_singleton in H; discriminate|].
  split; [intros H; apply list_elem_of_singleton in H; discriminate|].
  split; [vm_compute; eauto|].
  split; [vm_compute; reflexivity|].
  intros H. apply list_elem_of_singleton in H. discriminate.
Qed.

(** C5 (amended): the recursion of [validateSpecs] ends for every spec
    map, with two activations at most.  The keys are validated in the
    order of the schedule (the keys without [requiredWhen] in the first
    pass, then the keys with [requiredWhen]), in which each key of the
    spec map stands once.  A run is cut short only at a key whose
    iteration throws (the error of its [try] block when [reporter] is
    [null] and its [requiredWhen] does not discard it, or what a
    [requiredWhen] predicate itself throws), having validated the keys
    up to that one.  When no iteration throws, and so whenever
    [reporter] is not [null] and no predicate throws, the run returns,
    it has validated the whole schedule, and its output holds the
    value of every key that validated.  A [requiredWhen] predicate is
    called exactly for the deferred keys that the run comes to and
    whose [try] block throws, on the partial output of the keys
    before it, which holds the value of every immediate key that
    validated. *)
Theorem C5_two_passes specs env options :
  NoDup (keys specs) ->
  NoDup (schedule specs) /\
  (schedule specs ≡ₚ keys specs) /\
  exists tr r,
    (forall fuel, 2 <= fuel ->
       validateSpecs fuel specs env [] ∅ options [] = Some (tr, r)) /\
    (noAbort specs env options ∅ (schedule specs) ->
       exists out errs, r = Ok (out, errs)) /\
    (reporterIsNull options = false ->
     (forall k rw partial e,
        requiredKey specs k = Some rw -> rw partial <> Throw e) ->
       exists out errs, r = Ok (out, errs)) /\
    match r with
    | Ok (out, errs) =>
        validatedKeys tr = schedule specs /\
        (forall k v, out !! k = Some v <->
                     k ∈ keys specs /\ attemptKey specs env k = Ok v)
    | Throw e =>
        exists d k rest,
          schedule specs = (d ++ k :: rest)%list /\
          validatedKeys tr = (d ++ [k])%list /\
          noAbort specs env options ∅ d /\
          abortsAt specs env options (outputOf specs env ∅ d) k e
    end /\
    (forall k partial,
       EvRequiredWhen k partial ∈ tr <->
       k ∈ validatedKeys tr /\ partial = partialAt specs env k /\
       deferred specs k /\ exists e, attemptKey specs env k = Throw e) /\
    (forall k j v,
       deferred specs k -> j ∈ immediateKeys specs ->
       attemptKey specs env j = Ok v ->
       partialAt specs env k !! j = Some v).
Proof.
  intros Hnd. split; [apply (schedule_NoDup specs Hnd)|].
  split; [apply schedule_keys|].
  destruct (run_total specs env options) as (tr & r & Hrun).
  pose proof (run_inv specs env options tr r Hrun) as Hinv.
  exists tr, r. split; [|split; [|split; [|split; [|split]]]].
  - intros [|[|fuel]] Hfuel; try lia.
    rewrite validateSpecs_enough. exact Hrun.
  - intros Hna. destruct r as [[out errs]|e]; [eauto|].
    destruct Hinv as (d & k & rest & Hs & _ & _ & Hab).
    exfalso. exact (Hna d k rest e Hs Hab).
  - intros Hnull Hrw. destruct r as [[out errs]|e]; [eauto|].
    destruct Hinv as (d & k & rest & _ & _ & _ & Hab).
    destruct Hab as [(Hn & _)|(rw & e0 & Hreq & _ & Hthrow)];
      [congruence|].
    exfalso. exact (Hrw k rw _ e Hreq Hthrow).
  - destruct r as [[out errs]|e].
    + destruct Hinv as (-> & -> & _ & _). split.
      * simpl. apply validatedKeys_traceOf.
      * intros k v. rewrite outputOf_empty, schedule_keys. tauto.
    + destruct Hinv as (d & k & rest & Hs & -> & Hna & Hab).
      exists d, k, rest. split; [exact Hs|]. split; [|auto].
      simpl. apply validatedKeys_traceOf.
  - intros k partial.
    apply (run_requiredWhen_key specs env options Hnd tr r k partial Hrun).
  - intros k j v Hdef Hj Hv.
    assert (Hk : k ∈ deferredKeys specs).
    { apply deferredKeys_deferred. split; [exact Hdef|].
      destruct Hdef as [rw Hrw]. unfold requiredKey in Hrw.
      destruct (lookupSpec specs k) as [spec|] eqn:Hspec; [|discriminate].
      eapply lookupSpec_in, Hspec. }
    apply list_elem_of_split in Hk as (before & after & Hd).
    unfold partialAt.
    rewrite (earlier_unique specs Hnd (immediateKeys specs ++ before) k after).
    + apply outputOf_validated; [|exact Hv]. apply elem_of_app. left. exact Hj.
    + unfold schedule. rewrite Hd, <- app_assoc. reflexivity.
Qed.

Lemma C5_two_passes_witness :
  let env : gmap string value := {[ "B" := VStr "1" ]} in
  let partial : gmap string value := {[ "B" := VStr "1" ]} in
  let spec := plainSpec (Some (whenSet "B")) in
  let specs := [("A", spec); ("B", plainSpec None)] in
  let tr := [EvValidate "B" (VStr "1"); EvValidate "A" VUndefined;
             EvRequiredWhen "A" partial] in
  let out : gmap string value := partial in
  let errs : gmap string error := {[ "A" := missingError spec ]} in
  NoDup (keys specs) /\
  schedule specs = ["B"; "A"] /\
  (forall fuel, 2 <= fuel ->
     validateSpecs fuel specs env [] ∅ collecting []
     = Some (tr, Ok (out, errs))) /\
  validatedKeys tr = schedule specs /\
  (forall k v, out !! k = Some v <->
               k ∈ keys specs /\ attemptKey specs env k = Ok v) /\
  (forall k p,
     EvRequiredWhen k p ∈ tr <->
     k ∈ validatedKeys tr /\ p = partialAt specs env k /\
     deferred specs k /\ exists e, attemptKey specs env k = Throw e) /\
  (forall k j v,
     deferred specs k -> j ∈ immediateKeys specs ->
     attemptKey specs env j = Ok v ->
     partialAt specs env k !! j = Some v).
Proof.
  intros env partial spec specs tr out errs.
  assert (Hnd : NoDup (keys specs)).
  { refine (bool_decide_unpack _ _). vm_compute. exact I. }
  assert (Hrun0 : validateSpecs 2 specs env [] ∅ collecting []
                  = Some (tr, Ok (out, errs))).
  { vm_compute. reflexivity. }
  split; [exact Hnd|]. split; [vm_compute; reflexivity|].
  destruct (C5_two_passes specs env collecting Hnd)
    as (_ & _ & tr' & r' & Hfuel & _ & _ & Hcase & Hrw & Hpartial).
  pose proof (Hfuel 2 (le_n 2)) as Hrun. rewrite Hrun0 in Hrun.
  injection Hrun as <- <-.
  split; [exact Hfuel|]. destruct Hcase as (Hval & Hout).
  split; [exact Hval|]. split; [exact Hout|].
  split; [exact Hrw|exact Hpartial].
Defined.

(** ** What a [requiredWhen] predicate sees *)

(** C4, as stated, fails: [A] and [B] are both deferred, [A] is given in
    the environment and validates, [B] is missing; the predicate of [B]
    is called with a partial output that holds the value of [A]. *)
Lemma C4_counterexample :
  let specs := [("A", plainSpec (Some never)); ("B", plainSpec (Some never))] in
  let env : gmap string value := {[ "A" := VStr "1" ]} in
  deferred specs "A" /\ deferred specs "B" /\
  attemptKey specs env "A" = Ok (VStr "1") /\
  validateSpecsRun specs env collecting []
    = Some ([EvValidate "A" (VStr "1"); EvValidate "B" VUndefined;
             EvRequiredWhen "B" {[ "A" := VStr "1" ]}],
            Ok ({[ "A" := VStr "1" ]}, ∅)).
Proof.
  simpl. split; [|split; [|split]].
  - vm_compute. eauto.
  - vm_compute. eauto.
  - reflexivity.
  - vm_compute. reflexivity.
Qed.

(** C4 (amended): in a run from the defaults, the partial output passed
    to the predicate of a deferred key [B] holds exactly the values of
    the keys that validated among the immediate keys and the deferred
    keys queued before [B]; it holds no entry for [B] itself nor for a
    deferred key queued after [B]. *)
Theorem C4_partial_output specs env options tr r B partial :
  NoDup (keys specs) ->
  validateSpecsRun specs env options [] = Some (tr, r) ->
  EvRequiredWhen B partial ∈ tr ->
  exists before after,
    deferredKeys specs = (before ++ B :: after)%list /\
    (forall j v, partial !! j = Some v <->
                 attemptKey specs env j = Ok v /\
                 (j ∈ immediateKeys specs \/ j ∈ before)) /\
    partial !! B = None /\
    (forall j, j ∈ after -> partial !! j = None).
Proof.
  intros Hnd Hrun Hev.
  destruct (run_requiredWhen specs env options tr r B partial Hnd Hrun Hev)
    as (before & after & e & Hd & -> & He).
  exists before, after. split; [exact Hd|].
  assert (Hchar : forall j v,
            outputOf specs env ∅ (immediateKeys specs ++ before) !! j = Some v
            <-> attemptKey specs env j = Ok v /\
                (j ∈ immediateKeys specs \/ j ∈ before)).
  { intros j v. rewrite outputOf_empty, elem_of_app. tauto. }
  assert (Hdnd : NoDup (before ++ B :: after)).
  { rewrite <- Hd. unfold deferredKeys. apply NoDup_filter, Hnd. }
  apply NoDup_app in Hdnd as (_ & Hdisj & Hnd2).
  apply NoDup_cons in Hnd2 as [HB _].
  assert (Hout : forall j, j ∈ B :: after ->
            outputOf specs env ∅ (immediateKeys specs ++ before) !! j = None).
  { intros j Hj.
    destruct (outputOf specs env ∅ _ !! j) as [v|] eqn:Hv; [|reflexivity].
    exfalso. apply Hchar in Hv as [_ [Hin|Hin]].
    - apply (immediate_not_deferred specs j Hin).
      apply (deferredKeys_deferred specs j). rewrite Hd.
      apply elem_of_app. right. exact Hj.
    - exact (Hdisj j Hin Hj). }
  split; [exact Hchar|]. split.
  - apply Hout. constructor.
  - intros j Hj. apply Hout. constructor. exact Hj.
Qed.

Lemma C4_partial_output_witness :
  let specs := [("A", plainSpec (Some never)); ("B", plainSpec (Some never))] in
  let env : gmap string value := {[ "A" := VStr "1" ]} in
  let partial : gmap string value := {[ "A" := VStr "1" ]} in
  exists before after,
    deferredKeys specs = (before ++ "B" :: after)%list /\
    (forall j v, partial !! j = Some v <->
                 attemptKey specs env j = Ok v /\
                 (j ∈ immediateKeys specs \/ j ∈ before)) /\
    partial !! "B" = None /\
    (forall j, j ∈ after -> partial !! j = None).
Proof.
  refine (C4_partial_output
            [("A", plainSpec (Some never)); ("B", plainSpec (Some never))]
            {[ "A" := VStr "1" ]} collecting
            [EvValidate "A" (VStr "1"); EvValidate "B" VUndefined;
             EvRequiredWhen "B" {[ "A" := VStr "1" ]}]
            (Ok ({[ "A" := VStr "1" ]}, ∅)) "B" {[ "A" := VStr "1" ]}
            _ _ _).
  - refine (bool_decide_unpack _ _). vm_compute. exact I.
  - vm_compute. reflexivity.
  - repeat constructor.
Defined.

(** ** Deferred keys *)



Lemma attempt_missing spec env specKey :
  get env specKey = VUndefined -> noUsableDefault spec env ->
  attempt spec env specKey
    = Throw (EnvMissingError (Msg (formatSpecDescription spec))).
Proof.
  intros Hentry [Hdef Hdev].
  assert (Hdd : getDevDefault spec env = VUndefined).
  { destruct Hdev as [Hdev|Hprod];
      [apply getDevDefault_absent|apply getDevDefault_production]; assumption. }
  assert (Hraw : getRawValue spec env specKey = VUndefined).
  { rewrite (getRawValue_no_entry _ _ _ Hentry), Hdd, Hdef. reflexivity. }
  rewrite (attempt_undefined _ _ _ Hraw). unfold usingFalsyDefault.
  rewrite Hdef. simpl.
  destruct Hdev as [-> | ->]; [reflexivity|].
  rewrite andb_false_r. reflexivity.
Qed.

(** C3: a deferred key with no environment entry and no usable
    default; its [try] block throws the missing-value error.  A run
    that returns was not cut short before the key, and in a run that
    is not cut short before it the key's predicate is called on the
    partial output.  If it answers a falsy value, the run goes on and
    a run that returns has neither an output entry nor an error entry
    for the key.  If it answers a truthy value: with [reporter: null]
    the run ends there and throws the missing-value error; otherwise
    the run goes on, and a run that returns has no output entry for
    the key and holds the missing-value error under it in the error
    map. *)
Theorem C3_required_when specs env options k spec rw :
  NoDup (keys specs) ->
  lookupSpec specs k = Some spec ->
  requiredWhen spec = Some rw ->
  get env k = VUndefined ->
  noUsableDefault spec env ->
  attempt spec env k = Throw (missingError spec) /\
  exists tr r,
    validateSpecsRun specs env options [] = Some (tr, r) /\
    (forall out errs, r = Ok (out, errs) -> comesTo specs env options k) /\
    (comesTo specs env options k ->
       EvRequiredWhen k (partialAt specs env k) ∈ tr /\
       (forall answer,
          rw (partialAt specs env k) = Ok answer -> truthy answer = false ->
          (forall e, r = Throw e -> last (validatedKeys tr) <> Some k) /\
          (forall out errs, r = Ok (out, errs) ->
             out !! k = None /\ errs !! k = None)) /\
       (forall answer,
          rw (partialAt specs env k) = Ok answer -> truthy answer = true ->
          if reporterIsNull options
          then r = Throw (missingError spec) /\
               last (validatedKeys tr) = Some k
          else (forall e, r = Throw e -> last (validatedKeys tr) <> Some k) /\
               (forall out errs, r = Ok (out, errs) ->
                  out !! k = None /\
                  errs !! k = Some (missingError spec)))).
Proof.
  intros Hnd Hspec Hrw Hentry Hnodef.
  assert (Hmiss : attempt spec env k = Throw (missingError spec)).
  { apply attempt_missing; assumption. }
  assert (Hatt : attemptKey specs env k = Throw (missingError spec)).
  { unfold attemptKey. rewrite Hspec. exact Hmiss. }
  assert (Hreq : requiredKey specs k = Some rw).
  { unfold requiredKey. rewrite Hspec. exact Hrw. }
  assert (Hdef : deferred specs k).
  { unfold deferred. rewrite Hreq. eauto. }
  assert (Hk : k ∈ keys specs) by (eapply lookupSpec_in, Hspec).
  split; [exact Hmiss|].
  destruct (run_total specs env options) as (tr & r & Hrun).
  exists tr, r. split; [exact Hrun|]. split.
  - intros out errs ->.
    apply (run_returned_key specs env options Hnd tr out errs k Hk Hrun).
  - intros Hcomes.
    destruct (run_key_error specs env options Hnd tr r k _ Hk Hatt Hrun Hcomes)
      as (Hin & Hdrop & Hthrow & Hrec).
    split; [|split].
    + apply (run_requiredWhen_key specs env options Hnd tr r k _ Hrun).
      eauto.
    + intros answer Hans Hfalse. apply Hdrop. exists rw, answer. auto.
    + intros answer Hans Htrue.
      assert (Hun : unsuppressedKey specs k (partialAt specs env k)).
      { unfold unsuppressedKey. rewrite Hreq. eauto. }
      destruct (reporterIsNull options) eqn:Hnull.
      * apply Hthrow; [exact Hun|reflexivity].
      * destruct (Hrec Hun eq_refl) as (Hgo & Hret).
        split; [exact Hgo|]. intros out errs Hr.
        destruct (Hret out errs Hr) as (Ho & He). split; [exact Ho|].
        apply He, lastPass_of_deferred; assumption.
Qed.

Lemma C3_required_when_witness :
  let env : gmap string value := {[ "B" := VStr "1" ]} in
  let partial : gmap string value := {[ "B" := VStr "1" ]} in
  (let spec := plainSpec (Some (whenSet "B")) in
   let specs := [("A", spec); ("B", plainSpec None)] in
   partialAt specs env "A" = partial /\
   whenSet "B" partial = Ok (VBool true) /\
   exists tr out errs,
     validateSpecsRun specs env collecting [] = Some (tr, Ok (out, errs)) /\
     comesTo specs env collecting "A" /\
     EvRequiredWhen "A" partial ∈ tr /\
     out !! "A" = None /\ errs !! "A" = Some (missingError spec)) /\
  (let spec := plainSpec (Some never) in
   let specs := [("A", spec); ("B", plainSpec None)] in
   partialAt specs env "A" = partial /\
   never partial = Ok (VBool false) /\
   exists tr out errs,
     validateSpecsRun specs env collecting [] = Some (tr, Ok (out, errs)) /\
     comesTo specs env collecting "A" /\
     EvRequiredWhen "A" partial ∈ tr /\
     out !! "A" = None /\ errs !! "A" = None) /\
  (let spec := plainSpec (Some always) in
   let specs := [("A", spec)] in
   comesTo specs env throwing "A" /\
   always (partialAt specs env "A") = Ok (VBool true) /\
   exists tr,
     validateSpecsRun specs env throwing []
       = Some (tr, Throw (missingError spec)) /\
     last (validatedKeys tr) = Some "A").
Proof.
  intros env partial.
  assert (Hnd : forall rw,
            NoDup (keys [("A", plainSpec rw); ("B", plainSpec None)])).
  { intros rw. refine (bool_decide_unpack _ _). vm_compute. exact I. }
  assert (Hnodef : forall rw, noUsableDefault (plainSpec rw) env).
  { intros rw. split; [reflexivity|]. left. reflexivity. }
  split; [|split].
  - intros spec specs.
    assert (Hp : partialAt specs env "A" = partial).
    { vm_compute. reflexivity. }
    assert (Hans : whenSet "B" partial = Ok (VBool true)).
    { vm_compute. reflexivity. }
    split; [exact Hp|]. split; [exact Hans|].
    destruct (C3_required_when specs env collecting "A" spec (whenSet "B")
                (Hnd _) eq_refl eq_refl eq_refl (Hnodef _))
      as (_ & tr & r & Hrun & Hret & Hkey).
    assert (Hrun0 : validateSpecsRun specs env collecting []
                    = Some ([EvValidate "B" (VStr "1");
                             EvValidate "A" VUndefined;
                             EvRequiredWhen "A" partial],
                            Ok (partial, {[ "A" := missingError spec ]}))).
    { vm_compute. reflexivity. }
    rewrite Hrun0 in Hrun. injection Hrun as <- <-.
    pose proof (Hret _ _ eq_refl) as Hcomes.
    destruct (Hkey Hcomes) as (Hev & _ & Htruthy).
    rewrite Hp in Hev, Htruthy.
    destruct (Htruthy (VBool true) Hans eq_refl) as (_ & Hrec).
    destruct (Hrec _ _ eq_refl) as (Ho & He).
    eexists _, _, _. split; [reflexivity|]. auto.
  - intros spec specs.
    assert (Hp : partialAt specs env "A" = partial).
    { vm_compute. reflexivity. }
    assert (Hans : never partial = Ok (VBool false)) by reflexivity.
    split; [exact Hp|]. split; [exact Hans|].
    destruct (C3_required_when specs env collecting "A" spec never
                (Hnd _) eq_refl eq_refl eq_refl (Hnodef _))
      as (_ & tr & r & Hrun & Hret & Hkey).
    assert (Hrun0 : validateSpecsRun specs env collecting []
                    = Some ([EvValidate "B" (VStr "1");
                             EvValidate "A" VUndefined;
                             EvRequiredWhen "A" partial],
                            Ok (partial, ∅))).
    { vm_compute. reflexivity. }
    rewrite Hrun0 in Hrun. injection Hrun as <- <-.
    pose proof (Hret _ _ eq_refl) as Hcomes.
    destruct (Hkey Hcomes) as (Hev & Hfalsy & _).
    rewrite Hp in Hev, Hfalsy.
    destruct (Hfalsy (VBool false) Hans eq_refl) as (_ & Hdrop).
    destruct (Hdrop _ _ eq_refl) as (Ho & He).
    eexists _, _, _. split; [reflexivity|]. auto.
  - intros spec specs.
    assert (Hcomes : comesTo specs env throwing "A").
    { unfold comesTo.
      replace (earlier specs "A") with (@nil string)
        by (vm_compute; reflexivity).
      apply noAbort_nil. }
    assert (Hans : always (partialAt specs env "A") = Ok (VBool true))
      by reflexivity.
    split; [exact Hcomes|]. split; [exact Hans|].
    assert (Hnd1 : NoDup (keys specs)).
    { refine (bool_decide_unpack _ _). vm_compute. exact I. }
    destruct (C3_required_when specs env throwing "A" spec always
                Hnd1 eq_refl eq_refl eq_refl (Hnodef _))
      as (_ & tr & r & Hrun & _ & Hkey).
    destruct (Hkey Hcomes) as (_ & _ & Htruthy).
    destruct (Htruthy (VBool true) Hans eq_refl) as (-> & Hlast).
    exists tr. split; [exact Hrun|exact Hlast].
Defined.

(** ** Configuration errors in a run *)

(** C2 (amended): for a key whose spec is malformed and whose raw value
    is neither [undefined] nor the sentinel, the [try] block raises
    the configuration error, and a run of [validateSpecs] that is not
    cut short before the key treats it as it treats every error of a
    [try] block.  When the key's [requiredWhen] answers a falsy value
    the error is dropped: the run goes on, and a run that returns has
    neither an output entry nor an error entry for the key.  When it
    is not dropped and [reporter] is [null], the run ends there and
    throws the configuration error to the caller.  When it is not
    dropped and [reporter] is not [null], the run goes on, a run that
    returns has no output entry for the key, and its error map holds
    the configuration error under the key whenever the key is
    validated by the last activation. *)
Theorem C2_configuration_error specs env options k spec cfg :
  NoDup (keys specs) ->
  lookupSpec specs k = Some spec ->
  getRawValue spec env k <> VUndefined ->
  getRawValue spec env k <> testOnlySymbol ->
  malformed spec k (getRawValue spec env k) cfg ->
  attempt spec env k = Throw cfg /\
  exists tr r,
    validateSpecsRun specs env options [] = Some (tr, r) /\
    (forall out errs, r = Ok (out, errs) -> comesTo specs env options k) /\
    (comesTo specs env options k ->
       k ∈ validatedKeys tr /\
       (suppressedKey specs k (partialAt specs env k) ->
          (forall e, r = Throw e -> last (validatedKeys tr) <> Some k) /\
          (forall out errs, r = Ok (out, errs) ->
             out !! k = None /\ errs !! k = None)) /\
       (unsuppressedKey specs k (partialAt specs env k) ->
        reporterIsNull options = true ->
          r = Throw cfg /\ last (validatedKeys tr) = Some k) /\
       (unsuppressedKey specs k (partialAt specs env k) ->
        reporterIsNull options = false ->
          (forall e, r = Throw e -> last (validatedKeys tr) <> Some k) /\
          (forall out errs, r = Ok (out, errs) ->
             out !! k = None /\
             (k ∈ lastPass specs -> errs !! k = Some cfg)))).
Proof.
  intros Hnd Hspec Hundef Hsym Hbad.
  assert (Hcfg : attempt spec env k = Throw cfg).
  { rewrite (attempt_defined _ _ _ Hundef Hsym).
    apply validateVar_malformed, Hbad. }
  assert (Hatt : attemptKey specs env k = Throw cfg).
  { unfold attemptKey. rewrite Hspec. exact Hcfg. }
  assert (Hk : k ∈ keys specs) by (eapply lookupSpec_in, Hspec).
  split; [exact Hcfg|].
  destruct (run_total specs env options) as (tr & r & Hrun).
  exists tr, r. split; [exact Hrun|]. split.
  - intros out errs ->.
    apply (run_returned_key specs env options Hnd tr out errs k Hk Hrun).
  - intros Hcomes.
    exact (run_key_error specs env options Hnd tr r k cfg Hk Hatt Hrun Hcomes).
Qed.

Lemma C2_configuration_error_witness :
  let env : gmap string value := {[ "FOO" := VStr "x" ]} in
  let cfg := EnvError (MsgInvalidSpec "FOO") in
  (let specs := [("FOO", noParse None)] in
   comesTo specs env collecting "FOO" /\
   unsuppressedKey specs "FOO" (partialAt specs env "FOO") /\
   "FOO" ∈ lastPass specs /\
   attempt (noParse None) env "FOO" = Throw cfg /\
   exists tr out errs,
     validateSpecsRun specs env collecting [] = Some (tr, Ok (out, errs)) /\
     out !! "FOO" = None /\ errs !! "FOO" = Some cfg) /\
  (let specs := [("FOO", noParse None)] in
   comesTo specs env throwing "FOO" /\
   unsuppressedKey specs "FOO" (partialAt specs env "FOO") /\
   exists tr,
     validateSpecsRun specs env throwing [] = Some (tr, Throw cfg) /\
     last (validatedKeys tr) = Some "FOO") /\
  (let specs := [("FOO", noParse (Some never))] in
   comesTo specs env throwing "FOO" /\
   suppressedKey specs "FOO" (partialAt specs env "FOO") /\
   exists tr out errs,
     validateSpecsRun specs env throwing [] = Some (tr, Ok (out, errs)) /\
     out !! "FOO" = None /\ errs !! "FOO" = None).
Proof.
  intros env cfg.
  assert (Hraw : forall rw,
            getRawValue (noParse rw) env "FOO" <> VUndefined /\
            getRawValue (noParse rw) env "FOO" <> testOnlySymbol).
  { intros rw. split; vm_compute; discriminate. }
  assert (Hbad : forall rw,
            malformed (noParse rw) "FOO" (getRawValue (noParse rw) env "FOO")
                      cfg).
  { intros rw. apply MissingParse. reflexivity. }
  assert (Hnd : forall rw, NoDup (keys [("FOO", noParse rw)])).
  { intros rw. refine (bool_decide_unpack _ _). vm_compute. exact I. }
  assert (Hcomes : forall rw options,
            comesTo [("FOO", noParse rw)] env options "FOO").
  { intros rw options. unfold comesTo.
    replace (earlier [("FOO", noParse rw)] "FOO") with (@nil string)
      by (destruct rw; vm_compute; reflexivity).
    apply noAbort_nil. }
  split; [|split].
  - intros specs.
    assert (Hun : unsuppressedKey specs "FOO" (partialAt specs env "FOO")).
    { exact I. }
    assert (Hlast : "FOO" ∈ lastPass specs).
    { vm_compute. constructor. }
    destruct (C2_configuration_error specs env collecting "FOO"
                (noParse None) cfg (Hnd None) eq_refl
                (proj1 (Hraw None)) (proj2 (Hraw None)) (Hbad None))
      as (Hcfg & tr & r & Hrun & _ & Hkey).
    destruct (Hkey (Hcomes None collecting)) as (_ & _ & _ & Hrec).
    destruct (Hrec Hun eq_refl) as (Hgo & Hret).
    split; [apply Hcomes|]. split; [exact Hun|]. split; [exact Hlast|].
    split; [exact Hcfg|].
    assert (Hrun0 : validateSpecsRun specs env collecting []
                    = Some ([EvValidate "FOO" (VStr "x")],
                            Ok (∅, {[ "FOO" := cfg ]}))).
    { vm_compute. reflexivity. }
    rewrite Hrun0 in Hrun. injection Hrun as <- <-.
    eexists _, _, _. split; [reflexivity|].
    destruct (Hret _ _ eq_refl) as (Ho & He). split; [exact Ho|].
    exact (He Hlast).
  - intros specs.
    assert (Hun : unsuppressedKey specs "FOO" (partialAt specs env "FOO")).
    { exact I. }
    destruct (C2_configuration_error specs env throwing "FOO"
                (noParse None) cfg (Hnd None) eq_refl
                (proj1 (Hraw None)) (proj2 (Hraw None)) (Hbad None))
      as (_ & tr & r & Hrun & _ & Hkey).
    destruct (Hkey (Hcomes None throwing)) as (_ & _ & Hthrow & _).
    destruct (Hthrow Hun eq_refl) as (-> & Hl).
    split; [apply Hcomes|]. split; [exact Hun|].
    exists tr. split; [exact Hrun|exact Hl].
  - intros specs.
    assert (Hsup : suppressedKey specs "FOO" (partialAt specs env "FOO")).
    { exists never, (VBool false). repeat split. }
    destruct (C2_configuration_error specs env throwing "FOO"
                (noParse (Some never)) cfg (Hnd (Some never)) eq_refl
                (proj1 (Hraw (Some never))) (proj2 (Hraw (Some never)))
                (Hbad (Some never)))
      as (_ & tr & r & Hrun & _ & Hkey).
    destruct (Hkey (Hcomes (Some never) throwing)) as (_ & Hdrop & _).
    destruct (Hdrop Hsup) as (_ & Hret).
    split; [apply Hcomes|]. split; [exact Hsup|].
    assert (Hrun0 : validateSpecsRun specs env throwing []
                    = Some ([EvValidate "FOO" (VStr "x");
                             EvRequiredWhen "FOO" ∅], Ok (∅, ∅))).
    { vm_compute. reflexivity. }
    rewrite Hrun0 in Hrun. injection Hrun as <- <-.
    eexists _, _, _. split; [reflexivity|]. exact (Hret _ _ eq_refl).
Defined.

(** ** Objects *)

Lemma defineProperties_cons o k v ds :
  defineProperties o ((k, v) :: ds)
  = (o' ← defineValue o k v; defineProperties o' ds).
Proof.
  unfold defineProperties. simpl.
  destruct (defineValue o k v) as [o'|e]; simpl; [reflexivity|].
  induction ds as [|d ds IH]; simpl; [reflexivity|exact IH].
Qed.

Lemma defineValue_ok o k v :
  extensible o = true ->
  (forall p, props o !! k = Some p -> p_configurable p = true) ->
  exists o',
    defineValue o k v = Ok o' /\ extensible o' = true /\
    (forall j, j <> k -> props o' !! j = props o !! j) /\
    exists p, props o' !! k = Some p /\ p_value p = v.
Proof.
  intros Hext Hconf. unfold defineValue.
  destruct (props o !! k) as [p|] eqn:Hp.
  - rewrite (Hconf p eq_refl). simpl.
    eexists; split; [reflexivity|]. simpl. split; [exact Hext|]. split.
    + intros j Hj. apply lookup_insert_ne. congruence.
    + eexists; split; [apply lookup_insert_eq|reflexivity].
  - rewrite Hext.
    eexists; split; [reflexivity|]. simpl. split; [reflexivity|]. split.
    + intros j Hj. apply lookup_insert_ne. congruence.
    + eexists; split; [apply lookup_insert_eq|reflexivity].
Qed.

(** Defining properties of distinct names on an extensible object where
    those names are free or configurable succeeds, gives each the value
    asked for and leaves the other properties alone. *)
Lemma defineProperties_ok ds :
  forall o,
    extensible o = true -> NoDup ds.*1 ->
    (forall k p, k ∈ ds.*1 -> props o !! k = Some p ->
                 p_configurable p = true) ->
    exists o',
      defineProperties o ds = Ok o' /\ extensible o' = true /\
      (forall j, j ∉ ds.*1 -> props o' !! j = props o !! j) /\
      (forall k v, (k, v) ∈ ds -> getProp o' k = v).
Proof.
  induction ds as [|[k v] ds IH]; intros o Hext Hnd Hconf.
  - exists o. repeat split; auto.
    intros k v Hin. apply not_elem_of_nil in Hin. contradiction.
  - simpl in Hnd. apply NoDup_cons in Hnd as [Hk Hnd].
    destruct (defineValue_ok o k v Hext) as (o1 & H1 & Hext1 & Hoth & p & Hp & Hv).
    { intros p. apply Hconf. simpl. constructor. }
    destruct (IH o1 Hext1 Hnd) as (o' & H2 & Hext' & Hoth' & Hvals).
    { intros j q Hj Hq. apply (Hconf j q).
      - simpl. constructor. exact Hj.
      - rewrite <- Hoth; [exact Hq|]. intros ->. contradiction. }
    exists o'. rewrite defineProperties_cons, H1. simpl.
    split; [exact H2|]. split; [exact Hext'|]. split.
    + intros j Hj. simpl in Hj. apply not_elem_of_cons in Hj as [Hne Hj].
      rewrite Hoth' by exact Hj. apply Hoth, Hne.
    + intros j w Hin. apply elem_of_cons in Hin as [[= -> ->]|Hin].
      * unfold getProp. rewrite Hoth' by exact Hk. rewrite Hp. simpl.
        exact Hv.
      * apply Hvals, Hin.
Qed.

Lemma plain_configurable m k p :
  props (plain m) !! k = Some p -> p_configurable p = true.
Proof.
  unfold plain. simpl. rewrite lookup_fmap.
  destruct (m !! k); simpl; [|discriminate]. intros [= <-]. reflexivity.
Qed.

Lemma freeze_isFrozen o : isFrozen (freeze o).
Proof.
  split; [reflexivity|]. intros k p. unfold freeze. simpl.
  rewrite lookup_fmap. destruct (props o !! k); simpl; [|discriminate].
  intros [= <-]. auto.
Qed.

Lemma getProp_freeze o k : getProp (freeze o) k = getProp o k.
Proof.
  unfold getProp, freeze. simpl. rewrite lookup_fmap.
  destruct (props o !! k); reflexivity.
Qed.

(** Assigning to a property of a frozen object changes nothing. *)
Lemma assignProp_frozen o k v : isFrozen o -> assignProp o k v = o.
Proof.
  intros [Hext Hprops]. unfold assignProp.
  destruct (props o !! k) as [p|] eqn:Hp.
  - destruct (Hprops k p Hp) as [-> _]. reflexivity.
  - rewrite Hext. reflexivity.
Qed.

(** ** [cleanEnv] *)

(** Attaching the flags to a plain object succeeds, and each flag reads
    as computed from the validated mode. *)
Lemma modeFlags_defined m output :
  exists o,
    defineProperties (plain m) (modeFlags output) = Ok o /\
    forall k v, (k, v) ∈ modeFlags output -> getProp o k = v.
Proof.
  destruct (defineProperties_ok (modeFlags output) (plain m))
    as (o & Ho & _ & _ & Hvals).
  - reflexivity.
  - refine (bool_decide_unpack _ _). vm_compute. exact I.
  - intros k p _. apply plain_configurable.
  - exists o. auto.
Qed.

(** C9, as stated, fails: with a transformer that returns a copy of the
    enumerable properties, the mode key validates to ["test"] and the
    call succeeds, but the returned object has no [isTest] property. *)
Lemma C9_counterexample :
  let h : heap :=
    {[ 1%positive := ordinary {[ "NODE_ENV" := VStr "test" ]} ]} in
  let options := {| dotEnvPath := DotEnvNull; strict := false;
                    reporter := ReporterAbsent;
                    transformer := Some copyEnumerable |} in
  validateSpecsRun (extendSpecs [("NODE_ENV", nodeEnvSpec stringsOnly)] [])
                   {[ "NODE_ENV" := VStr "test" ]} options []
    = Some ([EvValidate "NODE_ENV" (VStr "test")],
            Ok ({[ "NODE_ENV" := VStr "test" ]}, ∅)) /\
  exists h' tr obj,
    cleanEnv noDotEnv stringsOnly quietReporter noProxy h 1%positive []
             options = Some (h', tr, Ok obj) /\
    getProp obj "NODE_ENV" = VStr "test" /\
    getProp obj "isTest" = VUndefined.
Proof.
  split; [vm_compute; reflexivity|].
  eexists _, _, _. split; [vm_compute; reflexivity|].
  split; vm_compute; reflexivity.
Qed.

(** C9 (amended): the object returned by a successful [cleanEnv] call is
    frozen, so that no assignment changes any of its properties,
    whatever the options and whether or not errors were reported.
    When moreover no transformer is given and the validated mode key's
    value is ["test"]: outside strict mode the returned object has
    [isTest === true] and [isDev], [isDevelopment], [isProd] and
    [isProduction] all [false]; in strict mode the object handed to
    the strict-mode wrapper has these flags, the returned object is
    the wrapper's result, frozen, and it has the flags too whenever
    reading a flag from the wrapper's result gives what the wrapped
    object holds. *)
Theorem C9_mode_flags readDotEnv strParse defaultReporter strictProxy
    h inputEnv userSpecs options h1 l tr1 out errs h' tr obj :
  getEnv readDotEnv h inputEnv options = (h1, Ok l) ->
  validateSpecsRun (extendSpecs [("NODE_ENV", nodeEnvSpec strParse)] userSpecs)
                   (deref h1 l) options [] = Some (tr1, Ok (out, errs)) ->
  cleanEnv readDotEnv strParse defaultReporter strictProxy h inputEnv
           userSpecs options = Some (h', tr, Ok obj) ->
  isFrozen obj /\
  (forall k v, assignProp obj k v = obj) /\
  (transformer options = None -> get out "NODE_ENV" = VStr "test" ->
   (strict options = false -> testFlags obj) /\
   (strict options = true ->
    exists flagged wrapped,
      testFlags flagged /\
      strictProxy flagged (deref h1 l) = Ok wrapped /\
      obj = freeze wrapped /\
      ((forall k, k ∈ flagNames -> getProp wrapped k = getProp flagged k) ->
       testFlags obj))).
Proof.
  intros Hget Hrun Hclean. unfold cleanEnv in Hclean.
  rewrite Hget, Hrun in Hclean.
  change (defineProperties ?o _) with (defineProperties o (modeFlags out))
    in Hclean.
  set (final := if strict options then plain out
                else plain (extend (deref h1 l) out)) in Hclean.
  destruct (defineProperties final (modeFlags out)) as [o1|e] eqn:Hdef;
    [|discriminate].
  destruct (match transformer options with
            | Some t => t o1
            | None => Ok o1
            end) as [o2|e] eqn:Htrans; [|discriminate].
  destruct (match reporter options with
            | ReporterFn f => f
            | _ => defaultReporter
            end errs o2) as [u|e]; [|discriminate].
  destruct (if strict options then strictProxy o2 (deref h1 l) else Ok o2)
    as [o3|e] eqn:Hproxy; [|discriminate].
  injection Hclean as <- <- <-.
  split; [apply freeze_isFrozen|].
  split; [intros k v; apply assignProp_frozen, freeze_isFrozen|].
  intros Hnone Hmode.
  rewrite Hnone in Htrans. injection Htrans as <-.
  assert (Hflags : testFlags o1).
  { assert (Hm : exists m, final = plain m).
    { subst final. destruct (strict options); eauto. }
    destruct Hm as (m & Hm). rewrite Hm in Hdef.
    destruct (modeFlags_defined m out) as (o & Ho & Hvals).
    rewrite Ho in Hdef. injection Hdef as <-.
    unfold modeFlags in Hvals. rewrite Hmode in Hvals.
    unfold testFlags. repeat split; apply Hvals; repeat constructor. }
  split.
  - intros Hstrict. rewrite Hstrict in Hproxy. injection Hproxy as <-.
    unfold testFlags in *. rewrite !getProp_freeze. exact Hflags.
  - intros Hstrict. rewrite Hstrict in Hproxy.
    exists o1, o3. split; [exact Hflags|]. split; [exact Hproxy|].
    split; [reflexivity|]. intros Hread.
    unfold testFlags in *. rewrite !getProp_freeze.
    rewrite !Hread by (unfold flagNames; repeat constructor).
    exact Hflags.
Qed.

Lemma C9_mode_flags_witness :
  let h : heap :=
    {[ 1%positive := ordinary {[ "NODE_ENV" := VStr "test" ]} ]} in
  let tr1 := [EvValidate "NODE_ENV" (VStr "test")] in
  let out : gmap string value := {[ "NODE_ENV" := VStr "test" ]} in
  let errs : gmap string error := ∅ in
  (let flagged := okOr (defineProperties
                          (plain (extend (deref h 1%positive) out))
                          (modeFlags out)) in
   let tr := (tr1 ++ [EvReporter errs flagged])%list in
   let obj := freeze flagged in
   cleanEnv noDotEnv stringsOnly quietReporter noProxy h 1%positive []
            collecting = Some (h, tr, Ok obj) /\
   isFrozen obj /\ (forall k v, assignProp obj k v = obj) /\
   testFlags obj) /\
  (let flagged := okOr (defineProperties (plain out) (modeFlags out)) in
   let tr := (tr1 ++ [EvReporter errs flagged])%list in
   let obj := freeze flagged in
   cleanEnv noDotEnv stringsOnly quietReporter noProxy h 1%positive []
            strictly = Some (h, tr, Ok obj) /\
   isFrozen obj /\ (forall k v, assignProp obj k v = obj) /\
   testFlags obj).
Proof.
  intros h tr1 out errs.
  assert (Hmode : get out "NODE_ENV" = VStr "test") by reflexivity.
  split.
  - intros flagged tr obj.
    assert (H1 : getEnv noDotEnv h 1%positive collecting
                 = (h, Ok 1%positive)).
    { vm_compute. reflexivity. }
    assert (H2 : validateSpecsRun
                   (extendSpecs [("NODE_ENV", nodeEnvSpec stringsOnly)] [])
                   (deref h 1%positive) collecting []
                 = Some (tr1, Ok (out, errs))).
    { vm_compute. reflexivity. }
    assert (H3 : cleanEnv noDotEnv stringsOnly quietReporter noProxy h
                   1%positive [] collecting = Some (h, tr, Ok obj)).
    { vm_compute. reflexivity. }
    destruct (C9_mode_flags noDotEnv stringsOnly quietReporter noProxy
                h 1%positive [] collecting h 1%positive tr1 out errs h tr obj
                H1 H2 H3) as (Hfrozen & Hassign & Hflags).
    destruct (Hflags eq_refl Hmode) as (Hplain & _).
    split; [exact H3|]. split; [exact Hfrozen|]. split; [exact Hassign|].
    exact (Hplain eq_refl).
  - intros flagged tr obj.
    assert (H1 : getEnv noDotEnv h 1%positive strictly
                 = (h, Ok 1%positive)).
    { vm_compute. reflexivity. }
    assert (H2 : validateSpecsRun
                   (extendSpecs [("NODE_ENV", nodeEnvSpec stringsOnly)] [])
                   (deref h 1%positive) strictly []
                 = Some (tr1, Ok (out, errs))).
    { vm_compute. reflexivity. }
    assert (H3 : cleanEnv noDotEnv stringsOnly quietReporter noProxy h
                   1%positive [] strictly = Some (h, tr, Ok obj)).
    { vm_compute. reflexivity. }
    destruct (C9_mode_flags noDotEnv stringsOnly quietReporter noProxy
                h 1%positive [] strictly h 1%positive tr1 out errs h tr obj
                H1 H2 H3) as (Hfrozen & Hassign & Hflags).
    destruct (Hflags eq_refl Hmode) as (_ & Hstrict).
    destruct (Hstrict eq_refl)
      as (flagged' & wrapped & _ & Hwrap & _ & Hread).
    split; [exact H3|]. split; [exact Hfrozen|]. split; [exact Hassign|].
    apply Hread. unfold noProxy in Hwrap. injection Hwrap as <-.
    reflexivity.
Defined.

(** [cleanEnv] always returns or throws: the fuel of [validateSpecs]
    is never used up. *)
Lemma cleanEnv_total readDotEnv strParse defaultReporter strictProxy
    h inputEnv userSpecs options :
  exists h' tr r,
    cleanEnv readDotEnv strParse defaultReporter strictProxy h inputEnv
             userSpecs options = Some (h', tr, r).
Proof.
  unfold cleanEnv.
  destruct (getEnv readDotEnv h inputEnv options) as [h1 [l|e]]; [|eauto].
  destruct (run_total (extendSpecs [("NODE_ENV", nodeEnvSpec strParse)]
                                   userSpecs) (deref h1 l) options)
    as (tr1 & r1 & ->).
  destruct r1 as [[out errs]|e]; [|eauto].
  destruct (defineProperties _ _) as [o1|e]; [|eauto].
  destruct (match transformer options with
            | Some t => t o1
            | None => Ok o1
            end) as [o2|e]; [|eauto].
  destruct (_ errs o2) as [u|e]; [|eauto].
  destruct (if strict options then _ else _) as [o3|e]; eauto.
Qed.

(** ** The caller's environment object *)

(** With [dotEnvPath: null], or when there is no file at the path, the
    object [getEnv] works on is the caller's own, and a falsy
    [NODE_ENV] is deleted from it when the object allows it. *)
Lemma getEnv_aliases_input readDotEnv h inputEnv options m :
  (dotEnvPath options = DotEnvNull \/
   (dotEnvPath options = DotEnvDefault /\ readDotEnv ".env" = NoSuchFile) \/
   (exists path, dotEnvPath options = DotEnvPath path /\
                 readDotEnv path = NoSuchFile)) ->
  h !! inputEnv = Some (ordinary m) ->
  truthy (get m "NODE_ENV") = false ->
  getEnv readDotEnv h inputEnv options
    = (<[inputEnv := ordinary (delete "NODE_ENV" m)]> h, Ok inputEnv).
Proof.
  intros Hpath Hm Hfalsy. unfold getEnv, extendWithDotEnv.
  destruct Hpath as [->|[[-> ->]|(path & -> & ->)]];
    rewrite Hm; simpl; rewrite Hfalsy; reflexivity.
Qed.

(** When the file is there, [getEnv] works on a copy: the caller's
    object is as it was. *)
Lemma getEnv_copies_input readDotEnv h inputEnv options path parsed o :
  dotEnvPath options = DotEnvPath path ->
  readDotEnv path = DotEnvParsed parsed ->
  h !! inputEnv = Some o ->
  (getEnv readDotEnv h inputEnv options).1 !! inputEnv = Some o.
Proof.
  intros Hpath Hfile Hm. unfold getEnv, extendWithDotEnv.
  rewrite Hpath, Hfile.
  assert (Hfresh : fresh (dom h) <> inputEnv).
  { intros Heq. apply (is_fresh (dom h)). rewrite Heq.
    apply elem_of_dom. eauto. }
  rewrite lookup_insert_eq. cbn [ordinary configurable entries].
  destruct (_ || _); simpl.
  - rewrite lookup_insert_ne by exact Hfresh.
    rewrite lookup_insert_ne by exact Hfresh. exact Hm.
  - rewrite lookup_insert_ne by exact Hfresh. exact Hm.
Qed.

(** C8 fails on the code: called with [dotEnvPath: null] on an ordinary
    object whose [NODE_ENV] is the empty string, [cleanEnv] returns
    normally and the caller's object has lost its [NODE_ENV] key. *)
Theorem C8_input_mutated :
  let before : gmap string value :=
    {[ "NODE_ENV" := VStr ""; "FOO" := VStr "x" ]} in
  let h : heap := {[ 1%positive := ordinary before ]} in
  exists h' tr obj,
    cleanEnv noDotEnv stringsOnly quietReporter noProxy h 1%positive []
             collecting = Some (h', tr, Ok obj) /\
    h !! 1%positive = Some (ordinary before) /\
    h' !! 1%positive = Some (ordinary {[ "FOO" := VStr "x" ]}) /\
    h' !! 1%positive <> h !! 1%positive.
Proof.
  eexists _, _, _. split; [vm_compute; reflexivity|].
  split; [vm_compute; reflexivity|].
  split; [vm_compute; reflexivity|].
  vm_compute. discriminate.
Qed.

(** ** Throwing, collecting, reporting *)

Lemma reporterCalls_app tr1 tr2 :
  reporterCalls (tr1 ++ tr2) = (reporterCalls tr1 ++ reporterCalls tr2)%list.
Proof. apply omap_app. Qed.

Lemma reporterCalls_traceOf specs env o ks :
  reporterCalls (traceOf specs env o ks) = [].
Proof.
  revert o. induction ks as [|k ks IH]; intros o; cbn [traceOf];
    [reflexivity|].
  rewrite reporterCalls_app, IH, app_nil_r. unfold eventsAt.
  destruct (attemptKey specs env k), (requiredKey specs k); reflexivity.
Qed.

(** With [reporter: null], an iteration that does not throw although
    its [try] block did was stopped by [requiredWhen]. *)
Lemma noAbort_null specs env options o ks :
  reporterIsNull options = true ->
  noAbort specs env options o ks ->
  forall l1 k l2 e,
    ks = (l1 ++ k :: l2)%list -> attemptKey specs env k = Throw e ->
    suppressedKey specs k (outputOf specs env o l1).
Proof.
  intros Hnull Hna l1 k l2 e Hs He.
  pose proof (fun e' => Hna l1 k l2 e' Hs) as Hk.
  unfold abortsAt, unsuppressedKey, suppressedKey in *.
  destruct (requiredKey specs k) as [rw|] eqn:Hrw.
  - destruct (rw (outputOf specs env o l1)) as [r|e'] eqn:Hr.
    + destruct (truthy r) eqn:Ht; [|eauto].
      exfalso. apply (Hk e). left. eauto.
    + exfalso. apply (Hk e'). right. eauto.
  - exfalso. apply (Hk e). left. auto.
Qed.

(** With a reporter, only a [requiredWhen] that throws ends a pass. *)
Lemma abortsAt_collecting specs env options o k e :
  reporterIsNull options = false ->
  abortsAt specs env options o k e ->
  exists rw e0, requiredKey specs k = Some rw /\
                attemptKey specs env k = Throw e0 /\ rw o = Throw e.
Proof.
  intros Hnull [(Hn & _)|H]; [congruence|exact H].
Qed.

(** C1 fails on the code: with a reporter, [B] (no [requiredWhen], no
    environment entry, no default) throws the missing-value error in
    the first pass and the error is recorded; but [A] is deferred, so
    [validateSpecs] calls itself, the second activation starts from a
    fresh error map and its result is what is returned: the error of
    [B] is in no error map that leaves [validateSpecs], and the
    reporter is called, once, with an empty error map.  Without the
    deferred key the same error of [B] reaches the reporter. *)
Theorem C1_first_pass_errors_lost :
  let env : gmap string value := {[ "A" := VStr "1" ]} in
  let h : heap := {[ 1%positive := ordinary env ]} in
  let missing := missingError (plainSpec None) in
  let mode := ("NODE_ENV", nodeEnvSpec stringsOnly) in
  let out : gmap string value :=
    {[ "NODE_ENV" := VStr "production"; "A" := VStr "1" ]} in
  let flagged := okOr (defineProperties (plain (extend env out))
                                        (modeFlags out)) in
  let out' : gmap string value := {[ "NODE_ENV" := VStr "production" ]} in
  let flagged' := okOr (defineProperties (plain (extend env out'))
                                         (modeFlags out')) in
  let deferring := [("A", plainSpec (Some always)); ("B", plainSpec None)] in
  let plainly := [("B", plainSpec None)] in
  reporterIsNull reporting = false /\
  attemptKey (extendSpecs [mode] deferring) env "B" = Throw missing /\
  requiredKey (extendSpecs [mode] deferring) "B" = None /\
  validateSpecsRun (extendSpecs [mode] deferring) env reporting []
    = Some ([EvValidate "NODE_ENV" (VStr "production");
             EvValidate "B" VUndefined; EvValidate "A" (VStr "1")],
            Ok (out, ∅)) /\
  cleanEnv noDotEnv stringsOnly quietReporter noProxy h 1%positive
           deferring reporting
    = Some (h, [EvValidate "NODE_ENV" (VStr "production");
                EvValidate "B" VUndefined; EvValidate "A" (VStr "1");
                EvReporter ∅ flagged],
            Ok (freeze flagged)) /\
  cleanEnv noDotEnv stringsOnly quietReporter noProxy h 1%positive
           plainly reporting
    = Some (h, [EvValidate "NODE_ENV" (VStr "production");
                EvValidate "B" VUndefined;
                EvReporter {[ "B" := missing ]} flagged'],
            Ok (freeze flagged')).
Proof.
  intros env h missing mode out flagged out' flagged' deferring plainly.
  split; [reflexivity|].
  split; [vm_compute; reflexivity|].
  split; [vm_compute; reflexivity|].
  split; [vm_compute; reflexivity|].
  split; vm_compute; reflexivity.
Qed.


(** * Further properties of the engine *)

(** ** [validateVar] and the [try] block *)

(** X1: [validateVar] returns a value exactly when the spec has a
    [_parse] function, that function returns this value for the raw
    value, the value passes the [choices] check (no truthy [choices],
    or an array that includes it) and it is neither [null] nor
    [undefined]. *)
Theorem X1_validateVar_returns spec name raw v :
  validateVar (Some spec) name raw = Ok v <->
  exists parse, _parse spec = Some parse /\ parse raw = Ok v /\
                choicesAdmit (choices spec) v /\ looseNull v = false.
Proof.
  split.
  - unfold validateVar. destruct (_parse spec) as [parse|]; [|discriminate].
    simpl. destruct (parse raw) as [w|e] eqn:Hp; [|discriminate]. simpl.
    intros H. exists parse. split; [reflexivity|].
    destruct (choices spec) as [|items|other]; simpl in *.
    + destruct (looseNull w) eqn:Hn; [discriminate|].
      injection H as ->. repeat split; auto.
    + destruct (includes items w) eqn:Hi; simpl in H; [|discriminate].
      destruct (looseNull w) eqn:Hn; [discriminate|].
      injection H as ->. repeat split; auto.
    + destruct (truthy other) eqn:Ht; simpl in H; [discriminate|].
      destruct (looseNull w) eqn:Hn; [discriminate|].
      injection H as ->. repeat split; auto.
  - intros (parse & Hparse & Hv & Hadmit & Hnull).
    eapply validateVar_accepts; eauto.
Qed.

Lemma X1_validateVar_returns_witness :
  let spec := specOf identity (ChoicesArray [VStr "a"]) None in
  validateVar (Some spec) "FOO" (VStr "a") = Ok (VStr "a") /\
  exists parse, _parse spec = Some parse /\ parse (VStr "a") = Ok (VStr "a") /\
                choicesAdmit (choices spec) (VStr "a") /\
                looseNull (VStr "a") = false.
Proof.
  intros spec.
  assert (H : validateVar (Some spec) "FOO" (VStr "a") = Ok (VStr "a"))
    by reflexivity.
  split; [exact H|].
  exact (proj1 (X1_validateVar_returns spec "FOO" (VStr "a") (VStr "a")) H).
Defined.

Lemma validateVar_rejects spec name raw parse v items :
  _parse spec = Some parse -> parse raw = Ok v ->
  choices spec = ChoicesArray items -> includes items v = false ->
  validateVar (Some spec) name raw = Throw (EnvError (MsgNotInChoices v items)).
Proof.
  intros Hparse Hv Hc Hi. unfold validateVar. rewrite Hparse. simpl.
  rewrite Hv. simpl. rewrite Hc. simpl. rewrite Hi. reflexivity.
Qed.



(** X3: an environment entry that is neither [undefined] nor the
    sentinel is the raw value whatever [default] and [devDefault] the
    spec declares, and the [try] block is then [validateVar] on that
    entry. *)
Theorem X3_entry_overrides_defaults spec env specKey :
  get env specKey <> VUndefined -> get env specKey <> testOnlySymbol ->
  getRawValue spec env specKey = get env specKey /\
  attempt spec env specKey = validateVar (Some spec) specKey (get env specKey).
Proof.
  intros Hundef Hsym.
  assert (Hraw : getRawValue spec env specKey = get env specKey).
  { unfold getRawValue. rewrite (bool_decide_eq_false_2 _ Hundef). reflexivity. }
  split; [exact Hraw|].
  rewrite attempt_defined; rewrite Hraw; auto.
Qed.

Lemma X3_entry_overrides_defaults_witness :
  let spec := specOf identity ChoicesAbsent (Some (VStr "d")) in
  let env : gmap string value := {[ "FOO" := VStr "x" ]} in
  get env "FOO" <> VUndefined /\ get env "FOO" <> testOnlySymbol /\
  getRawValue spec env "FOO" = get env "FOO" /\
  attempt spec env "FOO" = validateVar (Some spec) "FOO" (get env "FOO").
Proof.
  assert (H1 : get ({[ "FOO" := VStr "x" ]} : gmap string value) "FOO"
               <> VUndefined) by (vm_compute; discriminate).
  assert (H2 : get ({[ "FOO" := VStr "x" ]} : gmap string value) "FOO"
               <> testOnlySymbol) by (vm_compute; discriminate).
  split; [exact H1|]. split; [exact H2|].
  exact (X3_entry_overrides_defaults
           (specOf identity ChoicesAbsent (Some (VStr "d"))) _ "FOO" H1 H2).
Defined.

(** X4: a [default] made by [testOnly(v)], for a key with no
    environment entry and a spec without [devDefault]: when the
    process's [NODE_ENV] is not ["test"] the [try] block throws the
    missing-value error although the spec has a [default] property;
    when it is ["test"] the raw value is [v]. *)
Theorem X4_testOnly_default spec env processEnv specKey v :
  get env specKey = VUndefined ->
  devDefault spec = None ->
  default spec = Some (testOnly processEnv v) ->
  (get processEnv "NODE_ENV" <> VStr "test" ->
     attempt spec env specKey = Throw (missingError spec)) /\
  (get processEnv "NODE_ENV" = VStr "test" ->
     getRawValue spec env specKey = v).
Proof.
  intros Hentry Hdev Hdef.
  assert (Hraw : getRawValue spec env specKey = testOnly processEnv v).
  { rewrite (getRawValue_no_entry _ _ _ Hentry).
    rewrite (getDevDefault_absent _ _ Hdev), Hdef. reflexivity. }
  split.
  - intros Hmode. apply attempt_sentinel. rewrite Hraw. unfold testOnly.
    rewrite (bool_decide_eq_false_2 _ Hmode). reflexivity.
  - intros Hmode. rewrite Hraw. unfold testOnly.
    rewrite (bool_decide_eq_true_2 _ Hmode). reflexivity.
Qed.

Lemma X4_testOnly_default_witness :
  let spec := specOf identity ChoicesAbsent (Some (testOnly ∅ (VStr "t"))) in
  get ∅ "FOO" = VUndefined /\ devDefault spec = None /\
  default spec = Some (testOnly ∅ (VStr "t")) /\
  (get ∅ "NODE_ENV" <> VStr "test" ->
     attempt spec ∅ "FOO" = Throw (missingError spec)) /\
  (get ∅ "NODE_ENV" = VStr "test" -> getRawValue spec ∅ "FOO" = VStr "t").
Proof.
  split; [reflexivity|]. split; [reflexivity|]. split; [reflexivity|].
  exact (X4_testOnly_default
           (specOf identity ChoicesAbsent (Some (testOnly ∅ (VStr "t"))))
           ∅ ∅ "FOO" (VStr "t") eq_refl eq_refl eq_refl).
Defined.

(** X5: a spec that declares [devDefault: undefined] and no [default]
    makes a key with no environment entry optional outside production
    (the [try] block returns [undefined], without calling [_parse]) and
    required under [NODE_ENV] ["production"] (missing-value error). *)
Theorem X5_undefined_devDefault spec env specKey :
  get env specKey = VUndefined ->
  default spec = None ->
  devDefault spec = Some VUndefined ->
  (isNotProd env = true -> attempt spec env specKey = Ok VUndefined) /\
  (isNotProd env = false ->
     attempt spec env specKey = Throw (missingError spec)).
Proof.
  intros Hentry Hdef Hdev.
  assert (Hraw : getRawValue spec env specKey = VUndefined).
  { rewrite (getRawValue_no_entry _ _ _ Hentry). unfold getDevDefault.
    rewrite Hdev, Hdef. simpl. destruct (isNotProd env); reflexivity. }
  rewrite (attempt_undefined _ _ _ Hraw). unfold usingFalsyDefault.
  rewrite Hdef, Hdev. simpl.
  split; intros ->; reflexivity.
Qed.

Lemma X5_undefined_devDefault_witness :
  let spec := {| _parse := None; choices := ChoicesAbsent; default := None;
                 devDefault := Some VUndefined; desc := None;
                 example := None; docs := None; requiredWhen := None |} in
  get ∅ "FOO" = VUndefined /\ default spec = None /\
  devDefault spec = Some VUndefined /\
  (isNotProd ∅ = true -> attempt spec ∅ "FOO" = Ok VUndefined) /\
  (isNotProd ∅ = false -> attempt spec ∅ "FOO" = Throw (missingError spec)).
Proof.
  split; [reflexivity|]. split; [reflexivity|]. split; [reflexivity|].
  exact (X5_undefined_devDefault
           {| _parse := None; choices := ChoicesAbsent; default := None;
              devDefault := Some VUndefined; desc := None;
              example := None; docs := None; requiredWhen := None |}
           ∅ "FOO" eq_refl eq_refl eq_refl).
Defined.

(** ** The mode key *)

(** X6: when the environment has no [NODE_ENV], a declared
    [devDefault] (other than [undefined]) is the raw value of a key
    with no entry, while the mode key itself validates to
    ["production"] (for a [str] parser that accepts that string): the
    dev-default test reads the environment, not the validated mode. *)
Theorem X6_devDefault_without_mode strParse spec env specKey d :
  get env "NODE_ENV" = VUndefined ->
  get env specKey = VUndefined ->
  devDefault spec = Some d -> d <> VUndefined ->
  strParse (VStr "production") = Ok (VStr "production") ->
  getRawValue spec env specKey = d /\
  attempt (nodeEnvSpec strParse) env "NODE_ENV" = Ok (VStr "production").
Proof.
  intros Hmode Hentry Hdev Hd Hstr.
  assert (Hnp : isNotProd env = true).
  { unfold isNotProd. rewrite Hmode. reflexivity. }
  split.
  - rewrite (getRawValue_no_entry _ _ _ Hentry).
    rewrite (getDevDefault_applicable _ _ _ Hnp Hdev).
    rewrite (bool_decide_eq_false_2 _ Hd). reflexivity.
  - assert (Hraw : getRawValue (nodeEnvSpec strParse) env "NODE_ENV"
                   = VStr "production").
    { rewrite (getRawValue_no_entry _ _ _ Hmode). reflexivity. }
    rewrite attempt_defined; rewrite Hraw; try discriminate.
    eapply validateVar_accepts; [reflexivity|exact Hstr| |reflexivity].
    reflexivity.
Qed.

Lemma X6_devDefault_without_mode_witness :
  let spec := {| _parse := Some identity; choices := ChoicesAbsent;
                 default := None; devDefault := Some (VStr "dev");
                 desc := None; example := None; docs := None;
                 requiredWhen := None |} in
  get ∅ "NODE_ENV" = VUndefined /\ get ∅ "FOO" = VUndefined /\
  devDefault spec = Some (VStr "dev") /\ VStr "dev" <> VUndefined /\
  stringsOnly (VStr "production") = Ok (VStr "production") /\
  getRawValue spec ∅ "FOO" = VStr "dev" /\
  attempt (nodeEnvSpec stringsOnly) ∅ "NODE_ENV" = Ok (VStr "production").
Proof.
  assert (Hd : VStr "dev" <> VUndefined) by discriminate.
  split; [reflexivity|]. split; [reflexivity|]. split; [reflexivity|].
  split; [exact Hd|]. split; [reflexivity|].
  exact (X6_devDefault_without_mode stringsOnly
           {| _parse := Some identity; choices := ChoicesAbsent;
              default := None; devDefault := Some (VStr "dev");
              desc := None; example := None; docs := None;
              requiredWhen := None |}
           ∅ "FOO" (VStr "dev") eq_refl eq_refl eq_refl Hd eq_refl).
Defined.

(** X7: the built-in spec of the mode key accepts exactly the three
    modes: for an environment whose [NODE_ENV] is a string that the
    [str] parser returns unchanged, the [try] block returns it when it
    is ["development"], ["test"] or ["production"], and throws the
    not-in-choices [EnvError] otherwise. *)
Theorem X7_mode_choices strParse env s :
  get env "NODE_ENV" = VStr s ->
  strParse (VStr s) = Ok (VStr s) ->
  (s ∈ ["development"; "test"; "production"] ->
     attempt (nodeEnvSpec strParse) env "NODE_ENV" = Ok (VStr s)) /\
  (s ∉ ["development"; "test"; "production"] ->
     attempt (nodeEnvSpec strParse) env "NODE_ENV"
       = Throw (EnvError (MsgNotInChoices (VStr s)
                  [VStr "development"; VStr "test"; VStr "production"]))).
Proof.
  intros Hmode Hstr.
  assert (Hraw : getRawValue (nodeEnvSpec strParse) env "NODE_ENV" = VStr s).
  { unfold getRawValue. rewrite Hmode. reflexivity. }
  rewrite attempt_defined; rewrite Hraw; try discriminate.
  assert (Hinc : includes [VStr "development"; VStr "test"; VStr "production"]
                          (VStr s) = true
                 <-> s ∈ ["development"; "test"; "production"]).
  { unfold includes. simpl. rewrite !orb_true_iff, !bool_decide_eq_true.
    rewrite !elem_of_cons, elem_of_nil. split.
    - intros [H|[H|[H|H]]]; [injection H as <-; auto..|discriminate].
    - intros [->|[->|[->|[]]]]; auto. }
  split.
  - intros Hin. eapply validateVar_accepts; [reflexivity|exact Hstr| |reflexivity].
    simpl. apply Hinc, Hin.
  - intros Hnot.
    eapply validateVar_rejects; [reflexivity|exact Hstr|reflexivity|].
    apply not_true_is_false. intros Hi. apply Hnot, Hinc, Hi.
Qed.

Lemma X7_mode_choices_witness :
  let env : gmap string value := {[ "NODE_ENV" := VStr "staging" ]} in
  get env "NODE_ENV" = VStr "staging" /\
  stringsOnly (VStr "staging") = Ok (VStr "staging") /\
  ("staging" ∈ ["development"; "test"; "production"] ->
     attempt (nodeEnvSpec stringsOnly) env "NODE_ENV" = Ok (VStr "staging")) /\
  ("staging" ∉ ["development"; "test"; "production"] ->
     attempt (nodeEnvSpec stringsOnly) env "NODE_ENV"
       = Throw (EnvError (MsgNotInChoices (VStr "staging")
                  [VStr "development"; VStr "test"; VStr "production"]))).
Proof.
  split; [vm_compute; reflexivity|]. split; [reflexivity|].
  apply (X7_mode_choices stringsOnly {[ "NODE_ENV" := VStr "staging" ]}
           "staging").
  - vm_compute. reflexivity.
  - reflexivity.
Defined.

(** ** What a run returns *)

Lemma attempt_returns spec env specKey v :
  attempt spec env specKey = Ok v ->
  (v = VUndefined /\ getRawValue spec env specKey = VUndefined /\
   usingFalsyDefault spec env VUndefined = true) \/
  (validateVar (Some spec) specKey (getRawValue spec env specKey) = Ok v /\
   looseNull v = false).
Proof.
  unfold attempt, assertTestOnlySymbol, validate.
  destruct (bool_decide (getRawValue spec env specKey = testOnlySymbol));
    [discriminate|]. simpl.
  destruct (bool_decide (getRawValue spec env specKey = VUndefined)) eqn:Hu.
  - apply bool_decide_eq_true_1 in Hu. rewrite Hu.
    destruct (usingFalsyDefault spec env VUndefined); [|discriminate].
    intros [= <-]. left. auto.
  - intros Hv. right. split; [exact Hv|].
    unfold validateVar in Hv.
    destruct (_parse spec) as [parse|]; [|discriminate]. simpl in Hv.
    destruct (parse _) as [w|e]; [|discriminate]. simpl in Hv.
    destruct (if choicesTruthy (choices spec) then _ else _); [|discriminate].
    simpl in Hv. destruct (looseNull w) eqn:Hn; [discriminate|].
    injection Hv as <-. exact Hn.
Qed.

Lemma attemptKey_Ok specs env k v :
  attemptKey specs env k = Ok v ->
  exists spec, lookupSpec specs k = Some spec /\ attempt spec env k = Ok v.
Proof.
  unfold attemptKey. destruct (lookupSpec specs k) as [spec|]; [|discriminate].
  eauto.
Qed.

(** X8: what a returning run puts in the output is sound: an entry of
    the output belongs to a key of the spec map, is the value the
    [try] block returned for that key, is never [null], is [undefined]
    only by a declared [undefined] default in use, and the error map
    has no entry for the same key. *)
Theorem X8_output_sound specs env options tr out errs k v :
  validateSpecsRun specs env options [] = Some (tr, Ok (out, errs)) ->
  out !! k = Some v ->
  exists spec,
    lookupSpec specs k = Some spec /\
    attempt spec env k = Ok v /\
    v <> VNull /\
    (v = VUndefined -> usingFalsyDefault spec env VUndefined = true) /\
    errs !! k = None.
Proof.
  intros Hrun Hk. apply run_inv in Hrun as (_ & -> & _ & Herr).
  apply outputOf_empty in Hk as [_ Hk].
  destruct (attemptKey_Ok _ _ _ _ Hk) as (spec & Hspec & Hv).
  exists spec. split; [exact Hspec|]. split; [exact Hv|].
  split; [|split].
  - destruct (attempt_returns _ _ _ _ Hv) as [(-> & _)|(_ & Hn)];
      [discriminate|]. intros ->. discriminate.
  - intros ->.
    destruct (attempt_returns _ _ _ _ Hv) as [(_ & _ & Hu)|(_ & Hn)];
      [exact Hu|discriminate].
  - destruct (errs !! k) as [e|] eqn:He; [|reflexivity].
    apply Herr in He as (l1 & l2 & _ & _ & He & _). congruence.
Qed.

Lemma X8_output_sound_witness :
  let specs := [("A", plainSpec None)] in
  let env : gmap string value := {[ "A" := VStr "1" ]} in
  let out : gmap string value := {[ "A" := VStr "1" ]} in
  validateSpecsRun specs env collecting []
    = Some ([EvValidate "A" (VStr "1")], Ok (out, ∅)) /\
  out !! "A" = Some (VStr "1") /\
  exists spec,
    lookupSpec specs "A" = Some spec /\
    attempt spec env "A" = Ok (VStr "1") /\
    VStr "1" <> VNull /\
    (VStr "1" = VUndefined -> usingFalsyDefault spec env VUndefined = true) /\
    (∅ : gmap string error) !! "A" = None.
Proof.
  assert (Hrun : validateSpecsRun [("A", plainSpec None)]
                   {[ "A" := VStr "1" ]} collecting []
                 = Some ([EvValidate "A" (VStr "1")],
                         Ok ({[ "A" := VStr "1" ]}, ∅))).
  { vm_compute. reflexivity. }
  assert (Hk : ({[ "A" := VStr "1" ]} : gmap string value) !! "A"
               = Some (VStr "1")).
  { vm_compute. reflexivity. }
  split; [exact Hrun|]. split; [exact Hk|].
  exact (X8_output_sound _ _ _ _ _ _ "A" (VStr "1") Hrun Hk).
Defined.

Lemma filter_none_all {A : Type} (P : A -> Prop) `{forall x, Decision (P x)}
    (l : list A) :
  filter P l = [] -> filter (fun x => ~ P x) l = l.
Proof.
  induction l as [|x l IH]; [reflexivity|].
  rewrite !filter_cons. destruct (decide (P x)) as [Hx|Hx].
  - discriminate.
  - intros Hl. destruct (decide (~ P x)); [|contradiction].
    rewrite (IH Hl). reflexivity.
Qed.

(** X9: when no key of the spec map is deferred and [reporter] is not
    [null], a run from the defaults always returns, having entered the
    [try] block for each key in the order of [Object.keys]; each key
    is then in exactly one of the two maps: in the output with its
    value when the [try] block returned, in the error map with its
    error when it threw. *)
Theorem X9_immediate_partition specs env options :
  deferredKeys specs = [] ->
  reporterIsNull options = false ->
  exists tr out errs,
    validateSpecsRun specs env options [] = Some (tr, Ok (out, errs)) /\
    validatedKeys tr = keys specs /\
    (forall k v, out !! k = Some v <->
                 k ∈ keys specs /\ attemptKey specs env k = Ok v) /\
    (forall k e, errs !! k = Some e <->
                 k ∈ keys specs /\ attemptKey specs env k = Throw e).
Proof.
  intros Hnone Hnull.
  assert (Himm : immediateKeys specs = keys specs).
  { unfold immediateKeys. apply filter_none_all. exact Hnone. }
  assert (Hs : schedule specs = keys specs).
  { unfold schedule. rewrite Hnone, app_nil_r. exact Himm. }
  assert (Hreq : forall k, k ∈ keys specs -> requiredKey specs k = None).
  { intros k Hk. rewrite <- Himm in Hk.
    apply immediate_not_deferred in Hk. unfold deferred in Hk.
    destruct (requiredKey specs k); [|reflexivity].
    exfalso. apply Hk. eauto. }
  destruct (validateSpecsRun_cases specs env options [])
    as [(tr & out & errs & Hrun & Hret)|(tr & e & Hrun & Hthrown)].
  - exists tr, out, errs. split; [exact Hrun|].
    destruct Hret as (-> & -> & _ & Herr). rewrite Hs.
    split; [apply validatedKeys_traceOf|]. split.
    + intros k v. apply outputOf_empty.
    + intros k e. rewrite Herr. unfold lastPass, lastBase. rewrite Hnone, Himm.
      split.
      * intros (l1 & l2 & Hl & _ & He & _). split; [|exact He].
        rewrite Hl. apply elem_of_app. right. constructor.
      * intros [Hk He]. apply list_elem_of_split in Hk as (l1 & l2 & Hl).
        exists l1, l2. split; [exact Hl|]. split; [exact Hnull|].
        split; [exact He|]. unfold unsuppressedKey. rewrite Hreq; [exact I|].
        rewrite Hl. apply elem_of_app. right. constructor.
  - exfalso. destruct Hthrown as (d & k & rest & Hd & _ & _ & Hab).
    destruct (abortsAt_collecting _ _ _ _ _ _ Hnull Hab) as (rw & _ & Hrw & _).
    rewrite Hreq in Hrw; [discriminate|].
    rewrite <- Hs, Hd. apply elem_of_app. right. constructor.
Qed.

Lemma X9_immediate_partition_witness :
  let specs := [("A", plainSpec None); ("B", plainSpec None)] in
  let env : gmap string value := {[ "A" := VStr "1" ]} in
  deferredKeys specs = [] /\ reporterIsNull collecting = false /\
  exists tr out errs,
    validateSpecsRun specs env collecting [] = Some (tr, Ok (out, errs)) /\
    validatedKeys tr = keys specs /\
    (forall k v, out !! k = Some v <->
                 k ∈ keys specs /\ attemptKey specs env k = Ok v) /\
    (forall k e, errs !! k = Some e <->
                 k ∈ keys specs /\ attemptKey specs env k = Throw e).
Proof.
  split; [vm_compute; reflexivity|]. split; [reflexivity|].
  apply (X9_immediate_partition [("A", plainSpec None); ("B", plainSpec None)]
           {[ "A" := VStr "1" ]} collecting).
  - vm_compute. reflexivity.
  - reflexivity.
Defined.

(** X10: when the spec map has a deferred key, the error map that a
    run from the defaults returns holds entries for deferred keys
    only: the second activation starts from an empty error map, so no
    error of an immediate key is in the result. *)
Theorem X10_errors_of_deferred_only specs env options tr out errs :
  deferredKeys specs <> [] ->
  validateSpecsRun specs env options [] = Some (tr, Ok (out, errs)) ->
  (forall k e, errs !! k = Some e -> k ∈ deferredKeys specs) /\
  (forall k, k ∈ immediateKeys specs -> errs !! k = None).
Proof.
  intros Hsome Hrun. apply run_inv in Hrun as (_ & _ & _ & Herr).
  assert (Hlast : lastPass specs = deferredKeys specs).
  { unfold lastPass. destruct (deferredKeys specs); [contradiction|reflexivity]. }
  assert (Hdef : forall k e, errs !! k = Some e -> k ∈ deferredKeys specs).
  { intros k e He. apply Herr in He as (l1 & l2 & Hl & _).
    rewrite <- Hlast, Hl. apply elem_of_app. right. constructor. }
  split; [exact Hdef|].
  intros k Hk. destruct (errs !! k) as [e|] eqn:He; [|reflexivity].
  exfalso. apply (immediate_not_deferred specs k Hk).
  apply (deferredKeys_deferred specs k), (Hdef k e He).
Qed.

Lemma X10_errors_of_deferred_only_witness :
  let specs := [("A", plainSpec (Some never)); ("B", plainSpec None)] in
  let tr := [EvValidate "B" VUndefined; EvValidate "A" VUndefined;
             EvRequiredWhen "A" ∅] in
  let errs : gmap string error := ∅ in
  deferredKeys specs <> [] /\
  validateSpecsRun specs ∅ collecting [] = Some (tr, Ok (∅, errs)) /\
  (forall k e, errs !! k = Some e -> k ∈ deferredKeys specs) /\
  (forall k, k ∈ immediateKeys specs -> errs !! k = None).
Proof.
  assert (Hd : deferredKeys [("A", plainSpec (Some never));
                             ("B", plainSpec None)] <> []).
  { vm_compute. discriminate. }
  assert (Hrun : validateSpecsRun [("A", plainSpec (Some never));
                                   ("B", plainSpec None)] ∅ collecting []
                 = Some ([EvValidate "B" VUndefined; EvValidate "A" VUndefined;
                          EvRequiredWhen "A" ∅], Ok (∅, ∅))).
  { vm_compute. reflexivity. }
  split; [exact Hd|]. split; [exact Hrun|].
  exact (X10_errors_of_deferred_only _ _ _ _ _ _ Hd Hrun).
Defined.

(** ** The working environment *)

(** X11: the environment [getEnv] hands back has no falsy [NODE_ENV],
    so that an empty-string [NODE_ENV] counts as unset: its [NODE_ENV]
    is absent (reads as [undefined]) or truthy.  The one exception is
    the caller's own object when its [NODE_ENV] property is not
    configurable (a frozen or sealed object): the [delete] is dropped,
    and the object is handed back as it is, the store unchanged. *)
Theorem X11_getEnv_mode readDotEnv h inputEnv options h1 l :
  getEnv readDotEnv h inputEnv options = (h1, Ok l) ->
  exists o,
    h1 !! l = Some o /\
    (get (entries o) "NODE_ENV" = VUndefined \/
     truthy (get (entries o) "NODE_ENV") = true \/
     (configurable o = false /\ l = inputEnv /\ h1 = h)).
Proof.
  unfold getEnv. intros Hget.
  assert (Hobj : forall env h0,
    (configurable <$> h0 !! env = Some false -> env = inputEnv /\ h0 = h) ->
    match h0 !! env with
    | None => (h0, Throw (TypeError MsgNotAnObject))
    | Some o =>
        if negb (truthy (get (entries o) "NODE_ENV"))
           || bool_decide (get (entries o) "NODE_ENV" = VStr "")
        then
          if configurable o
          then (<[env := {| entries := delete "NODE_ENV" (entries o);
                            configurable := configurable o |}]> h0, Ok env)
          else (h0, Ok env)
        else (h0, Ok env)
    end = (h1, Ok l) ->
    exists o,
      h1 !! l = Some o /\
      (get (entries o) "NODE_ENV" = VUndefined \/
       truthy (get (entries o) "NODE_ENV") = true \/
       (configurable o = false /\ l = inputEnv /\ h1 = h))).
  { intros env h0 Hsealed Hres.
    destruct (h0 !! env) as [o|] eqn:Ho; [|discriminate].
    destruct (negb (truthy (get (entries o) "NODE_ENV"))
              || bool_decide (get (entries o) "NODE_ENV" = VStr ""))
      eqn:Hfalsy.
    - destruct (configurable o) eqn:Hc; injection Hres as <- <-.
      + eexists. split; [apply lookup_insert_eq|]. left. simpl.
        unfold get. rewrite lookup_delete_eq. reflexivity.
      + exists o. split; [exact Ho|]. right. right.
        destruct Hsealed as [-> ->]; [simpl; congruence|].
        auto.
    - injection Hres as <- <-. exists o. split; [exact Ho|]. right. left.
      apply orb_false_iff in Hfalsy as [Ht _].
      apply negb_false_iff in Ht. exact Ht. }
  assert (Hext : forall path env h0,
    extendWithDotEnv readDotEnv h inputEnv path = Ok (env, h0) ->
    configurable <$> h0 !! env = Some false -> env = inputEnv /\ h0 = h).
  { intros path env h0. unfold extendWithDotEnv.
    destruct (readDotEnv path) as [|err|parsed]; [|discriminate|].
    - intros [= <- <-]. auto.
    - intros [= <- <-]. rewrite lookup_insert_eq. discriminate. }
  destruct (dotEnvPath options) as [| |path].
  - apply (Hobj inputEnv h); [auto|exact Hget].
  - destruct (extendWithDotEnv readDotEnv h inputEnv ".env")
      as [[env h0]|e] eqn:He; [|discriminate].
    apply (Hobj env h0); [apply (Hext ".env"), He|exact Hget].
  - destruct (extendWithDotEnv readDotEnv h inputEnv path)
      as [[env h0]|e] eqn:He; [|discriminate].
    apply (Hobj env h0); [apply (Hext path), He|exact Hget].
Qed.

Lemma X11_getEnv_mode_witness :
  let h : heap :=
    {[ 1%positive := ordinary {[ "NODE_ENV" := VStr "" ]} ]} in
  let h1 : heap := {[ 1%positive := ordinary ∅ ]} in
  let frozen : heap :=
    {[ 1%positive := {| entries := {[ "NODE_ENV" := VStr "" ]};
                        configurable := false |} ]} in
  (getEnv noDotEnv h 1%positive collecting = (h1, Ok 1%positive) /\
   exists o,
     h1 !! 1%positive = Some o /\
     (get (entries o) "NODE_ENV" = VUndefined \/
      truthy (get (entries o) "NODE_ENV") = true \/
      (configurable o = false /\ 1%positive = 1%positive /\ h1 = h))) /\
  (getEnv noDotEnv frozen 1%positive collecting = (frozen, Ok 1%positive) /\
   exists o,
     frozen !! 1%positive = Some o /\
     (get (entries o) "NODE_ENV" = VUndefined \/
      truthy (get (entries o) "NODE_ENV") = true \/
      (configurable o = false /\ 1%positive = 1%positive /\ frozen = frozen))).
Proof.
  intros h h1 frozen.
  assert (Hget : getEnv noDotEnv h 1%positive collecting
                 = (h1, Ok 1%positive)).
  { vm_compute. reflexivity. }
  assert (Hfrozen : getEnv noDotEnv frozen 1%positive collecting
                    = (frozen, Ok 1%positive)).
  { vm_compute. reflexivity. }
  split.
  - split; [exact Hget|].
    exact (X11_getEnv_mode noDotEnv h 1%positive collecting h1 1%positive
             Hget).
  - split; [exact Hfrozen|].
    exact (X11_getEnv_mode noDotEnv frozen 1%positive collecting frozen
             1%positive Hfrozen).
Defined.

(** X12: [extendWithDotEnv] by the outcome of reading the file: when
    there is no file it returns the very object it was given and the
    store is untouched; any other read error is thrown; when the file
    parses it returns a new object, leaving every existing object as
    it was, in which an entry of the given environment wins over the
    entry of the file for the same key. *)
Theorem X12_dotenv_merge readDotEnv h inputEnv path :
  match readDotEnv path with
  | NoSuchFile =>
      extendWithDotEnv readDotEnv h inputEnv path = Ok (inputEnv, h)
  | ReadError err =>
      extendWithDotEnv readDotEnv h inputEnv path = Throw err
  | DotEnvParsed parsed =>
      exists l h',
        extendWithDotEnv readDotEnv h inputEnv path = Ok (l, h') /\
        h !! l = None /\
        (forall l', l' <> l -> h' !! l' = h !! l') /\
        forall k, deref h' l !! k
                  = match deref h inputEnv !! k with
                    | Some v => Some v
                    | None => parsed !! k
                    end
  end.
Proof.
  unfold extendWithDotEnv.
  destruct (readDotEnv path) as [|err|parsed]; [reflexivity..|].
  eexists _, _. split; [reflexivity|]. split; [|split].
  - apply not_elem_of_dom, is_fresh.
  - intros l' Hne. apply lookup_insert_ne. congruence.
  - intros k. unfold deref at 1. rewrite lookup_insert_eq.
    unfold extend, ordinary. cbn [entries].
    destruct (deref h inputEnv !! k) as [v|] eqn:Hk.
    + apply lookup_union_Some_l, Hk.
    + rewrite lookup_union_r by exact Hk. reflexivity.
Qed.

Lemma X12_dotenv_merge_witness :
  let readDotEnv := fun _ : string =>
    DotEnvParsed {[ "A" := VStr "1"; "B" := VStr "2" ]} in
  let h : heap :=
    {[ 1%positive := ordinary {[ "A" := VStr "0" ]} ]} in
  exists l h',
    extendWithDotEnv readDotEnv h 1%positive ".env" = Ok (l, h') /\
    h !! l = None /\
    (forall l', l' <> l -> h' !! l' = h !! l') /\
    forall k, deref h' l !! k
              = match deref h 1%positive !! k with
                | Some v => Some v
                | None => ({[ "A" := VStr "1"; "B" := VStr "2" ]}
                             : gmap string value) !! k
                end.
Proof.
  intros readDotEnv h.
  exact (X12_dotenv_merge readDotEnv h 1%positive ".env").
Defined.





(** ** The object [cleanEnv] returns *)

(** A successful call went through each step of [cleanEnv]. *)
Lemma cleanEnv_success readDotEnv strParse defaultReporter strictProxy
    h inputEnv userSpecs options h1 l tr1 out errs h' tr obj :
  getEnv readDotEnv h inputEnv options = (h1, Ok l) ->
  validateSpecsRun (extendSpecs [("NODE_ENV", nodeEnvSpec strParse)] userSpecs)
                   (deref h1 l) options [] = Some (tr1, Ok (out, errs)) ->
  cleanEnv readDotEnv strParse defaultReporter strictProxy h inputEnv
           userSpecs options = Some (h', tr, Ok obj) ->
  exists o1 o2 o3 u,
    defineProperties (if strict options then plain out
                      else plain (extend (deref h1 l) out)) (modeFlags out)
      = Ok o1 /\
    match transformer options with
    | Some t => t o1
    | None => Ok o1
    end = Ok o2 /\
    match reporter options with
    | ReporterFn f => f
    | _ => defaultReporter
    end errs o2 = Ok u /\
    (if strict options then strictProxy o2 (deref h1 l) else Ok o2) = Ok o3 /\
    obj = freeze o3 /\
    tr = (tr1 ++ [EvReporter errs o2])%list /\
    reporterCalls tr = [(errs, o2)].
Proof.
  intros Hget Hrun Hclean. unfold cleanEnv in Hclean.
  rewrite Hget, Hrun in Hclean.
  change (defineProperties ?o _) with (defineProperties o (modeFlags out))
    in Hclean.
  destruct (defineProperties _ (modeFlags out)) as [o1|e] eqn:Hdef;
    [|discriminate].
  destruct (match transformer options with
            | Some t => t o1
            | None => Ok o1
            end) as [o2|e] eqn:Ht; [|discriminate].
  destruct (match reporter options with
            | ReporterFn f => f
            | _ => defaultReporter
            end errs o2) as [u|e] eqn:Hrep; [|discriminate].
  destruct (if strict options then strictProxy o2 (deref h1 l) else Ok o2)
    as [o3|e] eqn:Hp; [|discriminate].
  injection Hclean as <- <- <-.
  exists o1, o2, o3, u.
  split; [reflexivity|]. split; [exact Ht|]. split; [exact Hrep|].
  split; [exact Hp|]. split; [reflexivity|]. split; [reflexivity|].
  rewrite reporterCalls_app.
  destruct (run_trace _ _ _ _ _ Hrun) as (done & rest & _ & -> & _).
  rewrite reporterCalls_traceOf. reflexivity.
Qed.

(** The flags read as computed, the other properties as before. *)
Lemma modeFlags_frame m output o :
  defineProperties (plain m) (modeFlags output) = Ok o ->
  (forall k v, (k, v) ∈ modeFlags output -> getProp o k = v) /\
  (forall j, j ∉ (modeFlags output).*1 -> getProp o j = get m j).
Proof.
  intros Ho.
  destruct (defineProperties_ok (modeFlags output) (plain m))
    as (o' & Ho' & _ & Hoth & Hvals).
  - reflexivity.
  - refine (bool_decide_unpack _ _). vm_compute. exact I.
  - intros k p _. apply plain_configurable.
  - rewrite Ho in Ho'. injection Ho' as <-. split; [exact Hvals|].
    intros j Hj. unfold getProp, get. rewrite (Hoth j Hj). unfold plain. simpl.
    rewrite lookup_fmap. destruct (m !! j); reflexivity.
Qed.

(** X14: without transformer and outside strict mode, the object a
    successful call returns reads, for every key that is not one of
    the five flag names, as the validated value when the output has
    the key and as the entry of the working environment otherwise
    (undeclared variables pass through, validated values win); each
    flag reads as the comparison of the validated [NODE_ENV] with its
    mode, whatever that value is. *)
Theorem X14_passthrough readDotEnv strParse defaultReporter strictProxy
    h inputEnv userSpecs options h1 l tr1 out errs h' tr obj :
  getEnv readDotEnv h inputEnv options = (h1, Ok l) ->
  validateSpecsRun (extendSpecs [("NODE_ENV", nodeEnvSpec strParse)] userSpecs)
                   (deref h1 l) options [] = Some (tr1, Ok (out, errs)) ->
  cleanEnv readDotEnv strParse defaultReporter strictProxy h inputEnv
           userSpecs options = Some (h', tr, Ok obj) ->
  transformer options = None -> strict options = false ->
  (forall k,
     k ∉ ["isDevelopment"; "isDev"; "isProduction"; "isProd"; "isTest"] ->
     getProp obj k = match out !! k with
                     | Some v => v
                     | None => get (deref h1 l) k
                     end) /\
  getProp obj "isDevelopment"
    = VBool (bool_decide (get out "NODE_ENV" = VStr "development")) /\
  getProp obj "isDev" = getProp obj "isDevelopment" /\
  getProp obj "isProduction"
    = VBool (bool_decide (get out "NODE_ENV" = VStr "production")) /\
  getProp obj "isProd" = getProp obj "isProduction" /\
  getProp obj "isTest"
    = VBool (bool_decide (get out "NODE_ENV" = VStr "test")).
Proof.
  intros Hget Hrun Hclean Hnone Hstrict.
  destruct (cleanEnv_success _ _ _ _ _ _ _ _ _ _ _ _ _ _ _ _ Hget Hrun Hclean)
    as (o1 & o2 & o3 & u & Hdef & Ht & _ & Hp & -> & _).
  rewrite Hnone in Ht. injection Ht as <-.
  rewrite Hstrict in Hp, Hdef. injection Hp as <-.
  destruct (modeFlags_frame _ _ _ Hdef) as [Hvals Hoth].
  rewrite !getProp_freeze. split; [|repeat split].
  - intros k Hk. rewrite getProp_freeze, (Hoth k Hk). unfold get, extend.
    destruct (out !! k) as [v|] eqn:Hv.
    + rewrite (lookup_union_Some_l _ _ _ _ Hv). reflexivity.
    + rewrite lookup_union_r by exact Hv. reflexivity.
  - apply Hvals. repeat constructor.
  - rewrite (Hvals "isDev" _ ltac:(repeat constructor)).
    rewrite (Hvals "isDevelopment" _ ltac:(repeat constructor)). reflexivity.
  - apply Hvals. repeat constructor.
  - rewrite (Hvals "isProd" _ ltac:(repeat constructor)).
    rewrite (Hvals "isProduction" _ ltac:(repeat constructor)). reflexivity.
  - apply Hvals. repeat constructor.
Qed.

(** X15: in strict mode without transformer, the object that the
    reporter and the strict-mode wrapper receive holds the validated
    keys only: for every key that is not a flag name it reads as the
    output does, whatever the environment holds; the returned object
    is the wrapper's result, frozen. *)
Theorem X15_strict_validated_only readDotEnv strParse defaultReporter
    strictProxy h inputEnv userSpecs options h1 l tr1 out errs h' tr obj :
  getEnv readDotEnv h inputEnv options = (h1, Ok l) ->
  validateSpecsRun (extendSpecs [("NODE_ENV", nodeEnvSpec strParse)] userSpecs)
                   (deref h1 l) options [] = Some (tr1, Ok (out, errs)) ->
  cleanEnv readDotEnv strParse defaultReporter strictProxy h inputEnv
           userSpecs options = Some (h', tr, Ok obj) ->
  transformer options = None -> strict options = true ->
  exists o wrapped,
    reporterCalls tr = [(errs, o)] /\
    strictProxy o (deref h1 l) = Ok wrapped /\
    obj = freeze wrapped /\
    (forall k,
       k ∉ ["isDevelopment"; "isDev"; "isProduction"; "isProd"; "isTest"] ->
       getProp o k = get out k) /\
    getProp o "isTest" = VBool (bool_decide (get out "NODE_ENV" = VStr "test")).
Proof.
  intros Hget Hrun Hclean Hnone Hstrict.
  destruct (cleanEnv_success _ _ _ _ _ _ _ _ _ _ _ _ _ _ _ _ Hget Hrun Hclean)
    as (o1 & o2 & o3 & u & Hdef & Ht & _ & Hp & -> & _ & Hcalls).
  rewrite Hnone in Ht. injection Ht as <-.
  rewrite Hstrict in Hp, Hdef.
  destruct (modeFlags_frame _ _ _ Hdef) as [Hvals Hoth].
  exists o1, o3. repeat split; try assumption.
  apply Hvals. repeat constructor.
Qed.

(** X16: a transformer runs after the flags are attached and before
    the reporter: on a successful call it was given an object on which
    every flag reads as computed, and what it returned is what the
    reporter received and, outside strict mode, what is returned,
    frozen. *)
Theorem X16_transformer_order readDotEnv strParse defaultReporter
    strictProxy h inputEnv userSpecs options h1 l tr1 out errs h' tr obj t :
  getEnv readDotEnv h inputEnv options = (h1, Ok l) ->
  validateSpecsRun (extendSpecs [("NODE_ENV", nodeEnvSpec strParse)] userSpecs)
                   (deref h1 l) options [] = Some (tr1, Ok (out, errs)) ->
  cleanEnv readDotEnv strParse defaultReporter strictProxy h inputEnv
           userSpecs options = Some (h', tr, Ok obj) ->
  transformer options = Some t ->
  exists given returned,
    t given = Ok returned /\
    (forall k v, (k, v) ∈ modeFlags out -> getProp given k = v) /\
    reporterCalls tr = [(errs, returned)] /\
    (strict options = false -> obj = freeze returned).
Proof.
  intros Hget Hrun Hclean Hsome.
  destruct (cleanEnv_success _ _ _ _ _ _ _ _ _ _ _ _ _ _ _ _ Hget Hrun Hclean)
    as (o1 & o2 & o3 & u & Hdef & Ht & _ & Hp & -> & _ & Hcalls).
  rewrite Hsome in Ht. exists o1, o2. split; [exact Ht|].
  split; [|split; [exact Hcalls|]].
  - destruct (strict options);
      destruct (modeFlags_frame _ _ _ Hdef) as [Hvals _]; exact Hvals.
  - intros Hstrict. rewrite Hstrict in Hp. injection Hp as <-. reflexivity.
Qed.

(** X17: a call succeeds only if the reporter in effect returned:
    the function given as [reporter], or the default reporter when the
    option is absent and also when it is [null]; with [null] the error
    map it received is empty. *)
Theorem X17_reporter_in_effect readDotEnv strParse defaultReporter
    strictProxy h inputEnv userSpecs options h1 l tr1 out errs h' tr obj :
  getEnv readDotEnv h inputEnv options = (h1, Ok l) ->
  validateSpecsRun (extendSpecs [("NODE_ENV", nodeEnvSpec strParse)] userSpecs)
                   (deref h1 l) options [] = Some (tr1, Ok (out, errs)) ->
  cleanEnv readDotEnv strParse defaultReporter strictProxy h inputEnv
           userSpecs options = Some (h', tr, Ok obj) ->
  exists o u,
    reporterCalls tr = [(errs, o)] /\
    match reporter options with
    | ReporterFn f => f errs o = Ok u
    | ReporterAbsent => defaultReporter errs o = Ok u
    | ReporterNull => errs = ∅ /\ defaultReporter ∅ o = Ok u
    end.
Proof.
  intros Hget Hrun Hclean.
  destruct (cleanEnv_success _ _ _ _ _ _ _ _ _ _ _ _ _ _ _ _ Hget Hrun Hclean)
    as (o1 & o2 & o3 & u & _ & _ & Hrep & _ & _ & _ & Hcalls).
  exists o2, u. split; [exact Hcalls|].
  destruct (reporter options) as [| |f] eqn:Hr; try exact Hrep.
  assert (Hempty : errs = ∅).
  { apply run_inv in Hrun as (_ & _ & _ & Herr). apply map_empty. intros k.
    destruct (errs !! k) as [e|] eqn:He; [|reflexivity].
    apply Herr in He as (l1 & l2 & _ & Hn & _).
    unfold reporterIsNull in Hn. rewrite Hr in Hn. discriminate. }
  split; [exact Hempty|]. rewrite <- Hempty. exact Hrep.
Qed.

Lemma X14_passthrough_witness :
  let h : heap :=
    {[ 1%positive := ordinary {[ "FOO" := VStr "3"; "UNDECLARED" := VStr "x" ]} ]} in
  let userSpecs := [("FOO", plainSpec None)] in
  let tr1 := [EvValidate "NODE_ENV" (VStr "production");
              EvValidate "FOO" (VStr "3")] in
  let out : gmap string value :=
    {[ "NODE_ENV" := VStr "production"; "FOO" := VStr "3" ]} in
  let errs : gmap string error := ∅ in
  let o := okOr (defineProperties (plain (extend (deref h 1%positive) out))
                                  (modeFlags out)) in
  let obj := freeze o in
  getEnv noDotEnv h 1%positive collecting = (h, Ok 1%positive) /\
  validateSpecsRun
    (extendSpecs [("NODE_ENV", nodeEnvSpec stringsOnly)] userSpecs)
    (deref h 1%positive) collecting [] = Some (tr1, Ok (out, errs)) /\
  cleanEnv noDotEnv stringsOnly quietReporter noProxy h 1%positive
           userSpecs collecting
    = Some (h, (tr1 ++ [EvReporter errs o])%list, Ok obj) /\
  transformer collecting = None /\ strict collecting = false /\
  (forall k,
     k ∉ ["isDevelopment"; "isDev"; "isProduction"; "isProd"; "isTest"] ->
     getProp obj k = match out !! k with
                     | Some v => v
                     | None => get (deref h 1%positive) k
                     end) /\
  getProp obj "isDevelopment"
    = VBool (bool_decide (get out "NODE_ENV" = VStr "development")) /\
  getProp obj "isDev" = getProp obj "isDevelopment" /\
  getProp obj "isProduction"
    = VBool (bool_decide (get out "NODE_ENV" = VStr "production")) /\
  getProp obj "isProd" = getProp obj "isProduction" /\
  getProp obj "isTest"
    = VBool (bool_decide (get out "NODE_ENV" = VStr "test")).
Proof.
  intros h userSpecs tr1 out errs o obj.
  assert (H1 : getEnv noDotEnv h 1%positive collecting = (h, Ok 1%positive)).
  { vm_compute. reflexivity. }
  assert (H2 : validateSpecsRun
                 (extendSpecs [("NODE_ENV", nodeEnvSpec stringsOnly)] userSpecs)
                 (deref h 1%positive) collecting []
               = Some (tr1, Ok (out, errs))).
  { vm_compute. reflexivity. }
  assert (H3 : cleanEnv noDotEnv stringsOnly quietReporter noProxy h
                 1%positive userSpecs collecting
               = Some (h, (tr1 ++ [EvReporter errs o])%list, Ok obj)).
  { vm_compute. reflexivity. }
  split; [exact H1|]. split; [exact H2|]. split; [exact H3|].
  split; [reflexivity|]. split; [reflexivity|].
  exact (X14_passthrough noDotEnv stringsOnly quietReporter noProxy h
           1%positive userSpecs collecting h 1%positive tr1 out errs h _ obj
           H1 H2 H3 eq_refl eq_refl).
Defined.

Lemma X15_strict_validated_only_witness :
  let h : heap :=
    {[ 1%positive := ordinary {[ "FOO" := VStr "3"; "UNDECLARED" := VStr "x" ]} ]} in
  let userSpecs := [("FOO", plainSpec None)] in
  let tr1 := [EvValidate "NODE_ENV" (VStr "production");
              EvValidate "FOO" (VStr "3")] in
  let out : gmap string value :=
    {[ "NODE_ENV" := VStr "production"; "FOO" := VStr "3" ]} in
  let errs : gmap string error := ∅ in
  let given := okOr (defineProperties (plain out) (modeFlags out)) in
  let tr := (tr1 ++ [EvReporter errs given])%list in
  let obj := freeze given in
  getEnv noDotEnv h 1%positive strictly = (h, Ok 1%positive) /\
  validateSpecsRun
    (extendSpecs [("NODE_ENV", nodeEnvSpec stringsOnly)] userSpecs)
    (deref h 1%positive) strictly [] = Some (tr1, Ok (out, errs)) /\
  cleanEnv noDotEnv stringsOnly quietReporter noProxy h 1%positive
           userSpecs strictly = Some (h, tr, Ok obj) /\
  transformer strictly = None /\ strict strictly = true /\
  exists o wrapped,
    reporterCalls tr = [(errs, o)] /\
    noProxy o (deref h 1%positive) = Ok wrapped /\
    obj = freeze wrapped /\
    (forall k,
       k ∉ ["isDevelopment"; "isDev"; "isProduction"; "isProd"; "isTest"] ->
       getProp o k = get out k) /\
    getProp o "isTest"
      = VBool (bool_decide (get out "NODE_ENV" = VStr "test")).
Proof.
  intros h userSpecs tr1 out errs given tr obj.
  assert (H1 : getEnv noDotEnv h 1%positive strictly = (h, Ok 1%positive)).
  { vm_compute. reflexivity. }
  assert (H2 : validateSpecsRun
                 (extendSpecs [("NODE_ENV", nodeEnvSpec stringsOnly)] userSpecs)
                 (deref h 1%positive) strictly []
               = Some (tr1, Ok (out, errs))).
  { vm_compute. reflexivity. }
  assert (H3 : cleanEnv noDotEnv stringsOnly quietReporter noProxy h
                 1%positive userSpecs strictly = Some (h, tr, Ok obj)).
  { vm_compute. reflexivity. }
  split; [exact H1|]. split; [exact H2|]. split; [exact H3|].
  split; [reflexivity|]. split; [reflexivity|].
  exact (X15_strict_validated_only noDotEnv stringsOnly quietReporter noProxy
           h 1%positive userSpecs strictly h 1%positive tr1 out errs h tr obj
           H1 H2 H3 eq_refl eq_refl).
Defined.

Lemma X16_transformer_order_witness :
  let h : heap :=
    {[ 1%positive := ordinary {[ "NODE_ENV" := VStr "test" ]} ]} in
  let tr1 := [EvValidate "NODE_ENV" (VStr "test")] in
  let out : gmap string value := {[ "NODE_ENV" := VStr "test" ]} in
  let errs : gmap string error := ∅ in
  let flagged := okOr (defineProperties
                         (plain (extend (deref h 1%positive) out))
                         (modeFlags out)) in
  let copy := okOr (copyEnumerable flagged) in
  let tr := (tr1 ++ [EvReporter errs copy])%list in
  let obj := freeze copy in
  getEnv noDotEnv h 1%positive copying = (h, Ok 1%positive) /\
  validateSpecsRun
    (extendSpecs [("NODE_ENV", nodeEnvSpec stringsOnly)] [])
    (deref h 1%positive) copying [] = Some (tr1, Ok (out, errs)) /\
  cleanEnv noDotEnv stringsOnly quietReporter noProxy h 1%positive
           [] copying = Some (h, tr, Ok obj) /\
  transformer copying = Some copyEnumerable /\
  exists given returned,
    copyEnumerable given = Ok returned /\
    (forall k v, (k, v) ∈ modeFlags out -> getProp given k = v) /\
    reporterCalls tr = [(errs, returned)] /\
    (strict copying = false -> obj = freeze returned).
Proof.
  intros h tr1 out errs flagged copy tr obj.
  assert (H1 : getEnv noDotEnv h 1%positive copying = (h, Ok 1%positive)).
  { vm_compute. reflexivity. }
  assert (H2 : validateSpecsRun
                 (extendSpecs [("NODE_ENV", nodeEnvSpec stringsOnly)] [])
                 (deref h 1%positive) copying []
               = Some (tr1, Ok (out, errs))).
  { vm_compute. reflexivity. }
  assert (H3 : cleanEnv noDotEnv stringsOnly quietReporter noProxy h
                 1%positive [] copying = Some (h, tr, Ok obj)).
  { vm_compute. reflexivity. }
  split; [exact H1|]. split; [exact H2|]. split; [exact H3|].
  split; [reflexivity|].
  exact (X16_transformer_order noDotEnv stringsOnly quietReporter noProxy
           h 1%positive [] copying h 1%positive tr1 out errs h tr obj
           copyEnumerable H1 H2 H3 eq_refl).
Defined.

Lemma X17_reporter_in_effect_witness :
  let h : heap :=
    {[ 1%positive := ordinary {[ "NODE_ENV" := VStr "test" ]} ]} in
  let tr1 := [EvValidate "NODE_ENV" (VStr "test")] in
  let out : gmap string value := {[ "NODE_ENV" := VStr "test" ]} in
  let errs : gmap string error := ∅ in
  let flagged := okOr (defineProperties
                         (plain (extend (deref h 1%positive) out))
                         (modeFlags out)) in
  let tr := (tr1 ++ [EvReporter errs flagged])%list in
  let obj := freeze flagged in
  getEnv noDotEnv h 1%positive throwing = (h, Ok 1%positive) /\
  validateSpecsRun
    (extendSpecs [("NODE_ENV", nodeEnvSpec stringsOnly)] [])
    (deref h 1%positive) throwing [] = Some (tr1, Ok (out, errs)) /\
  cleanEnv noDotEnv stringsOnly quietReporter noProxy h 1%positive
           [] throwing = Some (h, tr, Ok obj) /\
  exists o u,
    reporterCalls tr = [(errs, o)] /\
    match reporter throwing with
    | ReporterFn f => f errs o = Ok u
    | ReporterAbsent => quietReporter errs o = Ok u
    | ReporterNull => errs = ∅ /\ quietReporter ∅ o = Ok u
    end.
Proof.
  intros h tr1 out errs flagged tr obj.
  assert (H1 : getEnv noDotEnv h 1%positive throwing = (h, Ok 1%positive)).
  { vm_compute. reflexivity. }
  assert (H2 : validateSpecsRun
                 (extendSpecs [("NODE_ENV", nodeEnvSpec stringsOnly)] [])
                 (deref h 1%positive) throwing []
               = Some (tr1, Ok (out, errs))).
  { vm_compute. reflexivity. }
  assert (H3 : cleanEnv noDotEnv stringsOnly quietReporter noProxy h
                 1%positive [] throwing = Some (h, tr, Ok obj)).
  { vm_compute. reflexivity. }
  split; [exact H1|]. split; [exact H2|]. split; [exact H3|].
  exact (X17_reporter_in_effect noDotEnv stringsOnly quietReporter noProxy
           h 1%positive [] throwing h 1%positive tr1 out errs h tr obj
           H1 H2 H3).
Defined.

(** ** The spec map of [cleanEnv], continued *)

Lemma lookupSpec_setKey key a (l : list (string * Spec)) j :
  lookupSpec (setKey key a l) j
  = if decide (key = j) then Some a else lookupSpec l j.
Proof.
  unfold lookupSpec. induction l as [|[k b] l IH]; cbn [setKey find].
  - cbn [fst]. destruct (decide (key = j)) as [->|Hne].
    + rewrite bool_decide_eq_true_2 by reflexivity. reflexivity.
    + rewrite bool_decide_eq_false_2 by exact Hne. reflexivity.
  - destruct (decide (k = key)) as [->|Hk].
    + rewrite bool_decide_eq_true_2 by reflexivity. cbn [find fst].
      destruct (decide (key = j)) as [->|Hne].
      * rewrite bool_decide_eq_true_2 by reflexivity. reflexivity.
      * rewrite bool_decide_eq_false_2 by exact Hne. reflexivity.
    + rewrite (bool_decide_eq_false_2 _ Hk). cbn [find fst].
      destruct (decide (k = j)) as [->|Hj].
      * rewrite bool_decide_eq_true_2 by reflexivity.
        destruct (decide (key = j)) as [->|Hne]; [contradiction|reflexivity].
      * rewrite (bool_decide_eq_false_2 _ Hj). exact IH.
Qed.

Lemma lookupSpec_absent (l : list (string * Spec)) k :
  k ∉ keys l -> lookupSpec l k = None.
Proof.
  intros Hk. destruct (lookupSpec l k) as [spec|] eqn:Hl; [|reflexivity].
  exfalso. apply Hk. eapply lookupSpec_in, Hl.
Qed.

Lemma lookupSpec_cons k a (l : list (string * Spec)) j :
  lookupSpec ((k, a) :: l) j = if decide (k = j) then Some a else lookupSpec l j.
Proof.
  unfold lookupSpec. cbn [find fst]. destruct (decide (k = j)) as [->|Hne].
  - rewrite bool_decide_eq_true_2 by reflexivity. reflexivity.
  - rewrite bool_decide_eq_false_2 by exact Hne. reflexivity.
Qed.

Lemma lookupSpec_assignAll (source target : list (string * Spec)) j :
  NoDup (keys source) ->
  lookupSpec (assignAll target source) j
  = match lookupSpec source j with
    | Some spec => Some spec
    | None => lookupSpec target j
    end.
Proof.
  revert target. induction source as [|[k a] source IH]; intros target Hnd;
    [reflexivity|].
  unfold keys in Hnd. cbn [map fst] in Hnd. apply NoDup_cons in Hnd as [Hk Hnd].
  change (assignAll target ((k, a) :: source))
    with (assignAll (setKey k a target) source).
  rewrite (IH _ Hnd), lookupSpec_cons, lookupSpec_setKey.
  destruct (decide (k = j)) as [->|Hne]; [|reflexivity].
  rewrite (lookupSpec_absent source j Hk). reflexivity.
Qed.

Lemma head_setKey {A : Type} key (a : A) (l : list (string * A)) :
  l <> [] -> head (setKey key a l).*1 = head l.*1 /\ setKey key a l <> [].
Proof.
  destruct l as [|[k b] l]; [contradiction|]. intros _. cbn [setKey].
  destruct (bool_decide (k = key)); split; try reflexivity; discriminate.
Qed.

Lemma head_assignAll {A : Type} (source target : list (string * A)) :
  target <> [] -> head (assignAll target source).*1 = head target.*1.
Proof.
  revert target. induction source as [|[k a] source IH]; intros target Hne;
    [reflexivity|].
  change (assignAll target ((k, a) :: source))
    with (assignAll (setKey k a target) source).
  destruct (head_setKey k a target Hne) as [Hh Hne'].
  rewrite (IH _ Hne'). exact Hh.
Qed.

(** X18: the spec map that [cleanEnv] validates against, for user
    specs as an object gives them (each key once): it has each key
    once, its first key is [NODE_ENV], its keys are [NODE_ENV] and the
    user's keys, and a key maps to the user's spec when the user
    declares it (also for [NODE_ENV]) and to the built-in mode spec for
    an undeclared [NODE_ENV]. *)
Theorem X18_spec_map strParse userSpecs :
  NoDup (keys userSpecs) ->
  NoDup (keys (extendSpecs [("NODE_ENV", nodeEnvSpec strParse)] userSpecs)) /\
  head (keys (extendSpecs [("NODE_ENV", nodeEnvSpec strParse)] userSpecs))
    = Some "NODE_ENV" /\
  (forall k,
     lookupSpec (extendSpecs [("NODE_ENV", nodeEnvSpec strParse)] userSpecs) k
     = match lookupSpec userSpecs k with
       | Some spec => Some spec
       | None => if decide (k = "NODE_ENV")
                 then Some (nodeEnvSpec strParse) else None
       end) /\
  (forall k,
     k ∈ keys (extendSpecs [("NODE_ENV", nodeEnvSpec strParse)] userSpecs)
     <-> k = "NODE_ENV" \/ k ∈ keys userSpecs).
Proof.
  intros Hnd.
  assert (Hlook : forall k,
     lookupSpec (extendSpecs [("NODE_ENV", nodeEnvSpec strParse)] userSpecs) k
     = match lookupSpec userSpecs k with
       | Some spec => Some spec
       | None => if decide (k = "NODE_ENV")
                 then Some (nodeEnvSpec strParse) else None
       end).
  { intros k. unfold extendSpecs. rewrite (lookupSpec_assignAll _ _ _ Hnd).
    change (assignAll [] [("NODE_ENV", nodeEnvSpec strParse)])
      with [("NODE_ENV", nodeEnvSpec strParse)].
    rewrite lookupSpec_cons.
    destruct (lookupSpec userSpecs k); [reflexivity|].
    destruct (decide ("NODE_ENV" = k)) as [<-|Hne].
    - rewrite decide_True by reflexivity. reflexivity.
    - rewrite decide_False by congruence. reflexivity. }
  split; [apply extendSpecs_NoDup|]. split; [|split; [exact Hlook|]].
  - unfold extendSpecs, keys. rewrite head_assignAll; [reflexivity|].
    discriminate.
  - intros k. split.
    + intros Hk. apply lookupSpec_keys in Hk as [spec Hspec].
      rewrite Hlook in Hspec.
      destruct (lookupSpec userSpecs k) as [s|] eqn:Hu.
      * right. eapply lookupSpec_in, Hu.
      * destruct (decide (k = "NODE_ENV")); [left; assumption|discriminate].
    + intros Hk.
      assert (Hsome : is_Some (lookupSpec
                (extendSpecs [("NODE_ENV", nodeEnvSpec strParse)] userSpecs) k)).
      { rewrite Hlook. destruct Hk as [->|Hk].
        - destruct (lookupSpec userSpecs "NODE_ENV"); eauto.
        - apply lookupSpec_keys in Hk as [s ->]. eauto. }
      destruct Hsome as [spec Hspec]. eapply lookupSpec_in, Hspec.
Qed.

Lemma X18_spec_map_witness :
  let userSpecs := [("FOO", plainSpec None)] in
  NoDup (keys userSpecs) /\
  NoDup (keys (extendSpecs [("NODE_ENV", nodeEnvSpec stringsOnly)] userSpecs)) /\
  head (keys (extendSpecs [("NODE_ENV", nodeEnvSpec stringsOnly)] userSpecs))
    = Some "NODE_ENV" /\
  (forall k,
     lookupSpec (extendSpecs [("NODE_ENV", nodeEnvSpec stringsOnly)] userSpecs) k
     = match lookupSpec userSpecs k with
       | Some spec => Some spec
       | None => if decide (k = "NODE_ENV")
                 then Some (nodeEnvSpec stringsOnly) else None
       end) /\
  (forall k,
     k ∈ keys (extendSpecs [("NODE_ENV", nodeEnvSpec stringsOnly)] userSpecs)
     <-> k = "NODE_ENV" \/ k ∈ keys userSpecs).
Proof.
  assert (Hnd : NoDup (keys [("FOO", plainSpec None)])).
  { refine (bool_decide_unpack _ _). vm_compute. exact I. }
  split; [exact Hnd|].
  exact (X18_spec_map stringsOnly [("FOO", plainSpec None)] Hnd).
Defined.

Lemma nodeEnv_default strParse env :
  get env "NODE_ENV" = VUndefined ->
  strParse (VStr "production") = Ok (VStr "production") ->
  attempt (nodeEnvSpec strParse) env "NODE_ENV" = Ok (VStr "production").
Proof.
  intros Hmode Hstr.
  assert (Hraw : getRawValue (nodeEnvSpec strParse) env "NODE_ENV"
                 = VStr "production").
  { rewrite (getRawValue_no_entry _ _ _ Hmode). reflexivity. }
  rewrite attempt_defined; rewrite Hraw; try discriminate.
  eapply validateVar_accepts; [reflexivity|exact Hstr| |reflexivity].
  reflexivity.
Qed.

(** X19: the mode defaults to production: when the user declares no
    spec for [NODE_ENV], the environment has no [NODE_ENV] and the
    [str] parser accepts ["production"], a run that returns maps
    [NODE_ENV] to ["production"] in the output and has no error for
    it. *)
Theorem X19_default_mode strParse userSpecs env options tr out errs :
  NoDup (keys userSpecs) ->
  lookupSpec userSpecs "NODE_ENV" = None ->
  get env "NODE_ENV" = VUndefined ->
  strParse (VStr "production") = Ok (VStr "production") ->
  validateSpecsRun (extendSpecs [("NODE_ENV", nodeEnvSpec strParse)] userSpecs)
                   env options [] = Some (tr, Ok (out, errs)) ->
  out !! "NODE_ENV" = Some (VStr "production") /\ errs !! "NODE_ENV" = None.
Proof.
  intros Hnd Huser Hmode Hstr Hrun.
  set (specs := extendSpecs [("NODE_ENV", nodeEnvSpec strParse)] userSpecs)
    in *.
  assert (Hspec : lookupSpec specs "NODE_ENV" = Some (nodeEnvSpec strParse)).
  { unfold specs, extendSpecs. rewrite (lookupSpec_assignAll _ _ _ Hnd), Huser.
    reflexivity. }
  assert (Hk : attemptKey specs env "NODE_ENV" = Ok (VStr "production")).
  { unfold attemptKey. rewrite Hspec. apply nodeEnv_default; assumption. }
  apply run_inv in Hrun as (_ & -> & _ & Herr). split.
  - apply outputOf_validated; [|exact Hk].
    rewrite schedule_keys. eapply lookupSpec_in, Hspec.
  - destruct (errs !! "NODE_ENV") as [e|] eqn:He; [|reflexivity].
    apply Herr in He as (l1 & l2 & _ & _ & He & _). congruence.
Qed.

Lemma X19_default_mode_witness :
  let userSpecs := [("FOO", plainSpec None)] in
  let env : gmap string value := {[ "FOO" := VStr "1" ]} in
  exists tr out errs,
    NoDup (keys userSpecs) /\
    lookupSpec userSpecs "NODE_ENV" = None /\
    get env "NODE_ENV" = VUndefined /\
    stringsOnly (VStr "production") = Ok (VStr "production") /\
    validateSpecsRun
      (extendSpecs [("NODE_ENV", nodeEnvSpec stringsOnly)] userSpecs)
      env collecting [] = Some (tr, Ok (out, errs)) /\
    out !! "NODE_ENV" = Some (VStr "production") /\
    errs !! "NODE_ENV" = None.
Proof.
  assert (Hnd : NoDup (keys [("FOO", plainSpec None)])).
  { refine (bool_decide_unpack _ _). vm_compute. exact I. }
  eexists _, _, _. split; [exact Hnd|]. split; [reflexivity|].
  split; [vm_compute; reflexivity|]. split; [reflexivity|].
  split; [vm_compute; reflexivity|].
  eapply (X19_default_mode stringsOnly [("FOO", plainSpec None)]
            {[ "FOO" := VStr "1" ]} collecting);
    [exact Hnd|reflexivity|vm_compute; reflexivity|reflexivity|].
  vm_compute. reflexivity.
Defined.

(** ** The text of a missing-value error *)





(** ** An activation with a queue *)




(** ** Errors thrown, recorded and reported *)

(** X22: what becomes of the errors of the [try] blocks in a
    [cleanEnv] call.  With [reporter: null], the first error that the
    key's [requiredWhen] does not discard is thrown and ends the run:
    a run that returns has recorded nothing and every failing key was
    discarded, a run that throws stopped at the first key that was
    not.  Otherwise the run validates every key, and the error map it
    returns holds exactly the errors of the keys of the last pass (all
    keys when none is deferred, the deferred keys otherwise) that were
    not discarded; only a [requiredWhen] that throws ends such a run
    early.  When [validateSpecs] throws, [cleanEnv] throws the same
    error without calling the reporter; when it returns, the reporter
    is called once, after the keys, with the error map, unless the
    transformer throws first. *)
Theorem X22_errors_thrown_or_recorded readDotEnv strParse defaultReporter
    strictProxy h inputEnv userSpecs options h1 l tr1 r1 :
  let specs := extendSpecs [("NODE_ENV", nodeEnvSpec strParse)] userSpecs in
  let env := deref h1 l in
  getEnv readDotEnv h inputEnv options = (h1, Ok l) ->
  validateSpecsRun specs env options [] = Some (tr1, r1) ->
  (reporterIsNull options = true ->
   match r1 with
   | Ok (out, errs) =>
       errs = ∅ /\
       forall l1 k l2 e,
         schedule specs = (l1 ++ k :: l2)%list ->
         attemptKey specs env k = Throw e ->
         suppressedKey specs k (outputOf specs env ∅ l1)
   | Throw e =>
       exists d k rest,
         schedule specs = (d ++ k :: rest)%list /\
         validatedKeys tr1 = (d ++ [k])%list /\
         (forall l1 j l2 e',
            d = (l1 ++ j :: l2)%list -> attemptKey specs env j = Throw e' ->
            suppressedKey specs j (outputOf specs env ∅ l1)) /\
         ((attemptKey specs env k = Throw e /\
           unsuppressedKey specs k (outputOf specs env ∅ d)) \/
          (exists rw e0, requiredKey specs k = Some rw /\
                         attemptKey specs env k = Throw e0 /\
                         rw (outputOf specs env ∅ d) = Throw e))
   end) /\
  (reporterIsNull options = false ->
   match r1 with
   | Ok (out, errs) =>
       validatedKeys tr1 = schedule specs /\
       forall k e,
         errs !! k = Some e <->
         exists l1 l2,
           lastPass specs = (l1 ++ k :: l2)%list /\
           attemptKey specs env k = Throw e /\
           unsuppressedKey specs k
             (outputOf specs env (lastBase specs env) l1)
   | Throw e =>
       exists d k rest rw e0,
         schedule specs = (d ++ k :: rest)%list /\
         requiredKey specs k = Some rw /\
         attemptKey specs env k = Throw e0 /\
         rw (outputOf specs env ∅ d) = Throw e
   end) /\
  exists h' tr r,
    cleanEnv readDotEnv strParse defaultReporter strictProxy h inputEnv
             userSpecs options = Some (h', tr, r) /\
    match r1 with
    | Ok (out, errs) =>
        (exists obj, tr = (tr1 ++ [EvReporter errs obj])%list /\
                     reporterCalls tr = [(errs, obj)]) \/
        (exists t o e, transformer options = Some t /\ t o = Throw e /\
                       r = Throw e /\ tr = tr1)
    | Throw e => r = Throw e /\ tr = tr1 /\ reporterCalls tr = []
    end.
Proof.
  intros specs env Hget Hrun.
  pose proof (run_inv specs env options tr1 r1 Hrun) as Hinv.
  split; [|split].
  - intros Hnull. destruct r1 as [[out errs]|e].
    + destruct Hinv as (_ & _ & Hna & Herr). split.
      * apply map_empty. intros k.
        destruct (errs !! k) as [e|] eqn:He; [|reflexivity].
        apply Herr in He as (l1 & l2 & _ & Hn & _). congruence.
      * apply (noAbort_null specs env options ∅ _ Hnull Hna).
    + destruct Hinv as (d & k & rest & Hs & -> & Hna & Hab).
      exists d, k, rest. split; [exact Hs|]. split.
      * simpl. apply validatedKeys_traceOf.
      * split; [apply (noAbort_null specs env options ∅ _ Hnull Hna)|].
        destruct Hab as [(_ & He & Hun)|H]; auto.
  - intros Hnull. destruct r1 as [[out errs]|e].
    + destruct Hinv as (-> & _ & _ & Herr). split.
      * simpl. apply validatedKeys_traceOf.
      * intros k e. rewrite Herr. unfold recorded, recordsAt.
        split.
        -- intros (l1 & l2 & Hl & _ & He & Hun). eauto.
        -- intros (l1 & l2 & Hl & He & Hun). exists l1, l2. auto.
    + destruct Hinv as (d & k & rest & Hs & _ & _ & Hab).
      destruct (abortsAt_collecting _ _ _ _ _ _ Hnull Hab)
        as (rw & e0 & Hrw & He0 & Hthrow).
      exists d, k, rest, rw, e0. auto.
  - unfold cleanEnv. rewrite Hget. fold env. fold specs. rewrite Hrun.
    assert (Hcalls : reporterCalls tr1 = []).
    { destruct (run_trace specs env options tr1 r1 Hrun)
        as (done & rest & _ & -> & _).
      apply reporterCalls_traceOf. }
    destruct r1 as [[out errs]|e].
    + change (defineProperties ?o _) with (defineProperties o (modeFlags out)).
      assert (Hdef : exists o,
                defineProperties (if strict options then plain out
                                  else plain (extend env out)) (modeFlags out)
                = Ok o).
      { destruct (strict options).
        - destruct (modeFlags_defined out out) as (o & Ho & _). eauto.
        - destruct (modeFlags_defined (extend env out) out) as (o & Ho & _).
          eauto. }
      destruct Hdef as (o1 & ->).
      destruct (transformer options) as [t|] eqn:Ht.
      * destruct (t o1) as [o2|e] eqn:Ho2.
        -- destruct (match reporter options with
                     | ReporterFn f => f
                     | _ => defaultReporter
                     end errs o2) as [u|e];
             [destruct (if strict options then strictProxy o2 env else Ok o2)
                as [o3|e]|];
             eexists _, _, _; (split; [reflexivity|]); left; exists o2;
             (split; [reflexivity|]);
             rewrite reporterCalls_app, Hcalls; reflexivity.
        -- eexists _, _, _. split; [reflexivity|]. right. exists t, o1, e.
           auto.
      * destruct (match reporter options with
                  | ReporterFn f => f
                  | _ => defaultReporter
                  end errs o1) as [u|e];
          [destruct (if strict options then strictProxy o1 env else Ok o1)
             as [o3|e]|];
          eexists _, _, _; (split; [reflexivity|]); left; exists o1;
          (split; [reflexivity|]);
          rewrite reporterCalls_app, Hcalls; reflexivity.
    + eexists _, _, _. split; [reflexivity|]. auto.
Qed.

Lemma X22_errors_thrown_or_recorded_witness :
  let h : heap := {[ 1%positive := ordinary ∅ ]} in
  let userSpecs := [("FOO", plainSpec None)] in
  let specs := extendSpecs [("NODE_ENV", nodeEnvSpec stringsOnly)] userSpecs in
  let tr1 := [EvValidate "NODE_ENV" (VStr "production");
              EvValidate "FOO" VUndefined] in
  let out : gmap string value := {[ "NODE_ENV" := VStr "production" ]} in
  let errs : gmap string error :=
    {[ "FOO" := missingError (plainSpec None) ]} in
  getEnv noDotEnv h 1%positive collecting = (h, Ok 1%positive) /\
  validateSpecsRun specs ∅ collecting [] = Some (tr1, Ok (out, errs)) /\
  (reporterIsNull collecting = false ->
   validatedKeys tr1 = schedule specs /\
   forall k e,
     errs !! k = Some e <->
     exists l1 l2,
       lastPass specs = (l1 ++ k :: l2)%list /\
       attemptKey specs ∅ k = Throw e /\
       unsuppressedKey specs k (outputOf specs ∅ (lastBase specs ∅) l1)) /\
  exists h' tr r,
    cleanEnv noDotEnv stringsOnly quietReporter noProxy h 1%positive
             userSpecs collecting = Some (h', tr, r) /\
    ((exists obj, tr = (tr1 ++ [EvReporter errs obj])%list /\
                  reporterCalls tr = [(errs, obj)]) \/
     (exists t o e, transformer collecting = Some t /\ t o = Throw e /\
                    r = Throw e /\ tr = tr1)).
Proof.
  assert (Hget : getEnv noDotEnv {[ 1%positive := ordinary ∅ ]} 1%positive collecting
                 = ({[ 1%positive := ordinary ∅ ]}, Ok 1%positive)).
  { vm_compute. reflexivity. }
  assert (Hrun : validateSpecsRun
                   (extendSpecs [("NODE_ENV", nodeEnvSpec stringsOnly)]
                                [("FOO", plainSpec None)])
                   (deref {[ 1%positive := ordinary ∅ ]} 1%positive) collecting []
                 = Some ([EvValidate "NODE_ENV" (VStr "production");
                          EvValidate "FOO" VUndefined],
                         Ok ({[ "NODE_ENV" := VStr "production" ]},
                             {[ "FOO" := missingError (plainSpec None) ]}))).
  { vm_compute. reflexivity. }
  split; [exact Hget|]. split; [exact Hrun|].
  destruct (X22_errors_thrown_or_recorded noDotEnv stringsOnly quietReporter noProxy
              _ _ _ _ _ _ _ _ Hget Hrun) as (_ & Hcollect & Hreport).
  split; [exact Hcollect|exact Hreport].
Defined.
